(** * The IPC core of electron-sprout

    A shallow embedding of
    [packages/electron-runtime/src/core/base/parts/ipc/common/ipc.ts]:
    the wire codec ([serialize] / [deserialize]), [ChannelServer],
    [ChannelClient] and the [IPCServer] hub, followed by the properties
    of the specification that are settled on them. *)

From Stdlib Require Import List String Ascii NArith Arith Bool Lia.
From Stdlib Require Import Strings.Byte.
Import ListNotations.

Set Implicit Arguments.

(** ** ECMAScript [Map] and [Set]

    A JavaScript [Map] iterates in insertion order and [set] on a key that
    is present keeps the key's place, so the maps of the source are kept
    as association lists in insertion order. *)

Class KeyEq (K : Type) := key_eq_dec : forall a b : K, {a = b} + {a <> b}.

#[export] Instance KeyEq_N : KeyEq N := N.eq_dec.
#[export] Instance KeyEq_string : KeyEq string := string_dec.

Module JsMap.
Section Ops.
Context {K V : Type} `{KeyEq K}.

Definition t := list (K * V).

Definition empty : t := [].

Fixpoint get (k : K) (m : t) : option V :=
  match m with
  | [] => None
  | (k', v) :: m' => if key_eq_dec k k' then Some v else get k m'
  end.

Fixpoint set (k : K) (v : V) (m : t) : t :=
  match m with
  | [] => [(k, v)]
  | (k', v') :: m' =>
      if key_eq_dec k k' then (k', v) :: m' else (k', v') :: set k v m'
  end.

Definition delete (k : K) (m : t) : t :=
  filter (fun kv => if key_eq_dec k (fst kv) then false else true) m.

Definition has (k : K) (m : t) : bool :=
  match get k m with Some _ => true | None => false end.

Definition clear (m : t) : t := [].

Definition keys (m : t) : list K := map fst m.

Definition values (m : t) : list V := map snd m.
End Ops.
Arguments t : clear implicits.
End JsMap.

Module JsSet.
Section Ops.
Context {A : Type} `{KeyEq A}.

Definition t := list A.

Definition has (x : A) (s : t) : bool :=
  if in_dec key_eq_dec x s then true else false.

Definition add (x : A) (s : t) : t :=
  if in_dec key_eq_dec x s then s else s ++ [x].

Definition delete (x : A) (s : t) : t :=
  filter (fun y => if key_eq_dec x y then false else true) s.

Definition clear (s : t) : t := [].
End Ops.
Arguments t : clear implicits.
End JsSet.

(** ** Numbers read off the wire

    [readUInt32BE] on a buffer shorter than four bytes adds [undefined]
    operands and yields [NaN]; every other size is a non-negative integer. *)

Inductive Num : Type :=
| NaN
| Int (n : N).

(** ** VSBuffer *)

Module VSBuffer.

(** Modelled from the spec: [VSBuffer] ([common/buffer], imported by
    ipc.ts and not part of the sources) is a byte array; [slice] clamps
    to the buffer like [Uint8Array.subarray], integers are written
    big-endian and truncated to their width. *)
Definition t := list byte.

Definition byteLength (b : t) : N := N.of_nat (List.length b).

Definition alloc (n : nat) : t := repeat x00 n.

Definition byte_of_N (n : N) : byte :=
  match Byte.of_N (n mod 256) with
  | Some b => b
  | None => x00
  end.

(** [slice(start, end)]: an [end] of [NaN] is read as 0, and an [end]
    before [start] gives the empty buffer. *)
Definition slice (b : t) (start : nat) (end_ : Num) : t :=
  match end_ with
  | NaN => []
  | Int e => firstn (N.to_nat e - start) (skipn start b)
  end.

Definition concat (bs : list t) : t := List.concat bs.

(** [alloc(1)] then [writeUInt8(value, 0)]. *)
Definition writeUInt8 (value : N) : t := [byte_of_N value].

(** [readUInt8(0)]: [undefined] ([None]) on the empty buffer. *)
Definition readUInt8 (b : t) : option N :=
  match b with
  | [] => None
  | x :: _ => Some (Byte.to_N x)
  end.

(** [alloc(4)] then [writeUInt32BE(value, 0)]. *)
Definition writeUInt32BE (value : N) : t :=
  [ byte_of_N (value / 16777216); byte_of_N (value / 65536);
    byte_of_N (value / 256); byte_of_N value ].

Definition readUInt32BE (b : t) : Num :=
  match b with
  | b0 :: b1 :: b2 :: b3 :: _ =>
      Int (Byte.to_N b0 * 16777216 + Byte.to_N b1 * 65536
           + Byte.to_N b2 * 256 + Byte.to_N b3)
  | _ => NaN
  end.

End VSBuffer.

(** ** BufferReader and BufferWriter *)

Module BufferReader.

Record t : Type := mk { buffer : VSBuffer.t; pos : nat }.

Definition new (buffer : VSBuffer.t) : t := mk buffer 0.

(** [this.pos + bytes] *)
Definition offset (pos : nat) (bytes : Num) : Num :=
  match bytes with
  | NaN => NaN
  | Int n => Int (N.of_nat pos + n)
  end.

(** [read(bytes)]: the slice from [pos], and the reader advanced by the
    length of what was really read. *)
Definition read (r : t) (bytes : Num) : VSBuffer.t * t :=
  let result := VSBuffer.slice (buffer r) (pos r) (offset (pos r) bytes) in
  (result, mk (buffer r) (pos r + List.length result)).

(** Bytes not read yet. *)
Definition remaining (r : t) : nat := List.length (buffer r) - pos r.

End BufferReader.

Module BufferWriter.

Record t : Type := mk { buffers : list VSBuffer.t }.

Definition new : t := mk [].

Definition buffer (w : t) : VSBuffer.t := VSBuffer.concat (buffers w).

Definition write (w : t) (b : VSBuffer.t) : t := mk (buffers w ++ [b]).

End BufferWriter.

(** ** The wire codec *)

Inductive DataType : Type :=
| Undefined
| String_
| Buffer
| VSBuffer_
| Array
| Object.

Definition DataType_code (d : DataType) : N :=
  match d with
  | Undefined => 0
  | String_ => 1
  | Buffer => 2
  | VSBuffer_ => 3
  | Array => 4
  | Object => 5
  end.

(** The [case] labels of [deserialize]'s [switch]; [None] is [default]. *)
Definition DataType_of_code (n : N) : option DataType :=
  match n with
  | 0 => Some Undefined
  | 1 => Some String_
  | 2 => Some Buffer
  | 3 => Some VSBuffer_
  | 4 => Some Array
  | 5 => Some Object
  | _ => None
  end%N.

Definition createSizeBuffer (size : N) : VSBuffer.t := VSBuffer.writeUInt32BE size.

Definition readSizeBuffer (reader : BufferReader.t) : Num * BufferReader.t :=
  let (b, reader) := BufferReader.read reader (Int 4) in
  (VSBuffer.readUInt32BE b, reader).

Definition createOneByteBuffer (value : N) : VSBuffer.t := VSBuffer.writeUInt8 value.

Module BufferPresets.
Definition Undefined : VSBuffer.t := createOneByteBuffer (DataType_code Undefined).
Definition String : VSBuffer.t := createOneByteBuffer (DataType_code String_).
Definition Buffer : VSBuffer.t := createOneByteBuffer (DataType_code Buffer).
Definition VSBuffer : VSBuffer.t := createOneByteBuffer (DataType_code VSBuffer_).
Definition Array : VSBuffer.t := createOneByteBuffer (DataType_code Array).
Definition Object : VSBuffer.t := createOneByteBuffer (DataType_code Object).
End BufferPresets.

(** How a call ends: it returns, it throws, or the recursion budget of the
    model ran out (the source has none; [deserialize_never_exhausted] shows
    the budget [deserialize] gives is always enough). *)
Inductive Completion (A : Type) : Type :=
| Return (a : A)
| Throw
| Exhausted.
Arguments Return {A} a.
Arguments Throw {A}.
Arguments Exhausted {A}.

Section Codec.

(** The values [serialize] tells apart, in the order of its tests. [Other]
    stands for every value that reaches the last branch (numbers, booleans,
    [null], plain records): the codec only hands it to [JSON.stringify]. *)
Variable Other : Type.

(** [JSON.stringify] and [JSON.parse] ([None]: a [SyntaxError] is thrown). *)
Variable JSON_stringify : Other -> string.
Variable JSON_parse : string -> option Other.

(** [VSBuffer.fromString] and [VSBuffer.toString], the UTF-8 encoder and
    decoder of the runtime. *)
Variable fromString : string -> VSBuffer.t.
Variable toString : VSBuffer.t -> string.

#[warnings="-register-all"]
Inductive Value : Type :=
| VUndefined
| VString (s : string)
| VBuffer (b : list byte)
| VVSBuffer (b : VSBuffer.t)
| VArray (elements : list Value)
| VOther (o : Other).

(** [serialize(writer, data)]. A native [Buffer] value exists only where
    [hasBuffer] holds, so the third test is [Buffer.isBuffer(data)]. *)
Fixpoint serialize (writer : BufferWriter.t) (data : Value) : BufferWriter.t :=
  match data with
  | VUndefined => BufferWriter.write writer BufferPresets.Undefined
  | VString s =>
      let buffer := fromString s in
      let writer := BufferWriter.write writer BufferPresets.String in
      let writer := BufferWriter.write writer (createSizeBuffer (VSBuffer.byteLength buffer)) in
      BufferWriter.write writer buffer
  | VBuffer b =>
      let buffer := b in
      let writer := BufferWriter.write writer BufferPresets.Buffer in
      let writer := BufferWriter.write writer (createSizeBuffer (VSBuffer.byteLength buffer)) in
      BufferWriter.write writer buffer
  | VVSBuffer b =>
      let writer := BufferWriter.write writer BufferPresets.VSBuffer in
      let writer := BufferWriter.write writer (createSizeBuffer (VSBuffer.byteLength b)) in
      BufferWriter.write writer b
  | VArray elements =>
      let writer := BufferWriter.write writer BufferPresets.Array in
      let writer := BufferWriter.write writer (createSizeBuffer (N.of_nat (List.length elements))) in
      fold_left serialize elements writer
  | VOther o =>
      let buffer := fromString (JSON_stringify o) in
      let writer := BufferWriter.write writer BufferPresets.Object in
      let writer := BufferWriter.write writer (createSizeBuffer (VSBuffer.byteLength buffer)) in
      BufferWriter.write writer buffer
  end.

(** [for (let i = 0; i < length; i++) result.push(body(reader))] *)
Fixpoint for_loop (body : BufferReader.t -> Completion (Value * BufferReader.t))
    (count : nat) (result : list Value) (reader : BufferReader.t)
    : Completion (list Value * BufferReader.t) :=
  match count with
  | O => Return (result, reader)
  | S count' =>
      match body reader with
      | Return (el, reader') => for_loop body count' (result ++ [el]) reader'
      | Throw => Throw
      | Exhausted => Exhausted
      end
  end.

(** [i < length] never holds for [NaN]. *)
Definition iterations (length : Num) : nat :=
  match length with
  | NaN => 0
  | Int n => N.to_nat n
  end.

(** [deserialize(reader)], with [fuel] bounding the nesting of arrays. *)
Fixpoint deserialize_fuel (fuel : nat) (reader : BufferReader.t)
    : Completion (Value * BufferReader.t) :=
  match fuel with
  | O => Exhausted
  | S fuel' =>
      let (tag, reader) := BufferReader.read reader (Int 1) in
      match VSBuffer.readUInt8 tag with
      | None => Return (VUndefined, reader)
      | Some type =>
          match DataType_of_code type with
          | Some Undefined => Return (VUndefined, reader)
          | Some String_ =>
              let (size, reader) := readSizeBuffer reader in
              let (b, reader) := BufferReader.read reader size in
              Return (VString (toString b), reader)
          | Some Buffer =>
              let (size, reader) := readSizeBuffer reader in
              let (b, reader) := BufferReader.read reader size in
              Return (VBuffer b, reader)
          | Some VSBuffer_ =>
              let (size, reader) := readSizeBuffer reader in
              let (b, reader) := BufferReader.read reader size in
              Return (VVSBuffer b, reader)
          | Some Array =>
              let (length, reader) := readSizeBuffer reader in
              match for_loop (deserialize_fuel fuel') (iterations length) [] reader with
              | Return (result, reader) => Return (VArray result, reader)
              | Throw => Throw
              | Exhausted => Exhausted
              end
          | Some Object =>
              let (size, reader) := readSizeBuffer reader in
              let (b, reader) := BufferReader.read reader size in
              match JSON_parse (toString b) with
              | Some o => Return (VOther o, reader)
              | None => Throw
              end
          | None => Return (VUndefined, reader)
          end
      end
  end.

(** An array nested [n] deep needs [n] nested calls, and each nesting level
    has consumed at least its tag byte. *)
Definition deserialize (reader : BufferReader.t) : Completion (Value * BufferReader.t) :=
  deserialize_fuel (S (BufferReader.remaining reader)) reader.

(** The bytes [serialize] writes for one value. *)
Definition encode (data : Value) : VSBuffer.t :=
  BufferWriter.buffer (serialize BufferWriter.new data).

(** A size the four-byte length field holds. *)
Definition fits (size : N) : Prop := (size < 4294967296)%N.

(** The values of the round-trip law: [undefined], strings, [VSBuffer]s,
    arrays of such values, and what JSON represents. A string is one that
    UTF-8 encoding and decoding give back; a value is representable in JSON
    when [JSON.parse] gives it back from its text. Every length fits its
    four-byte field. A native [Buffer] is none of them. *)
Fixpoint Representable (data : Value) : Prop :=
  match data with
  | VUndefined => True
  | VString s =>
      toString (fromString s) = s /\ fits (VSBuffer.byteLength (fromString s))
  | VBuffer _ => False
  | VVSBuffer b => fits (VSBuffer.byteLength b)
  | VArray elements =>
      fold_right (fun el rest => Representable el /\ rest) True elements
      /\ fits (N.of_nat (List.length elements))
  | VOther o =>
      JSON_parse (toString (fromString (JSON_stringify o))) = Some o
      /\ fits (VSBuffer.byteLength (fromString (JSON_stringify o)))
  end.

(** How deep arrays nest in a value. *)
Fixpoint depth (data : Value) : nat :=
  match data with
  | VArray elements => S (fold_right (fun el d => Nat.max (depth el) d) 0 elements)
  | _ => 0
  end.

End Codec.

(** ** Frames *)

Inductive RequestType : Type :=
| Promise
| PromiseCancel
| EventListen
| EventDispose.

Definition RequestType_code (t : RequestType) : N :=
  match t with
  | Promise => 100
  | PromiseCancel => 101
  | EventListen => 102
  | EventDispose => 103
  end.

Inductive ResponseType : Type :=
| Initialize
| PromiseSuccess
| PromiseError
| PromiseErrorObj
| EventFire.

Definition ResponseType_code (t : ResponseType) : N :=
  match t with
  | Initialize => 200
  | PromiseSuccess => 201
  | PromiseError => 202
  | PromiseErrorObj => 203
  | EventFire => 204
  end.

Inductive State : Type :=
| Uninitialized
| Idle.

(** [s.split(sep)] for a one-character separator. *)
Fixpoint split (sep : ascii) (s : string) : list string :=
  match s with
  | EmptyString => [EmptyString]
  | String c rest =>
      if Ascii.eqb c sep then EmptyString :: split sep rest
      else
        match split sep rest with
        | piece :: pieces => String c piece :: pieces
        | [] => [String c EmptyString]
        end
  end.

(** The character of the literal ['\n']. *)
Definition newline : ascii := ascii_of_nat 10.

(** ** What the runtime and the services decide

    The server holds JavaScript numbers (the delays it hands to
    [setTimeout]) and prints one in a template literal: [number_0] and
    [number_1000] are the values of the two numeric literals of the
    source, [numberToString] is the rendering of a number in a template
    literal, whatever the number is. *)
Class JsNumber (Number : Type) : Type := {
  number_0 : Number;
  number_1000 : Number;
  numberToString : Number -> string
}.

(** [serialize(writer, data)] for a value of type [any]: it returns, or
    [JSON.stringify] throws (on a [BigInt], on a cyclic structure) and
    nothing is written. *)
Class Serializes (Any : Type) : Type := serializes : Any -> bool.

(** [IServerChannel.listen(ctx, event, arg)]: it returns an event, or it
    throws (as channels do for an event they do not have). *)
Class IServerChannel (Channel TContext Any : Type) : Type :=
  listens : Channel -> TContext -> string -> Any -> bool.

Section Frames.

(** The type [any] of arguments, results and thrown values. *)
Variable Any : Type.

(** [IRawPromiseRequest] and [IRawEventListenRequest]: one shape,
    [{ type, id, channelName, name, arg }]. *)
Record IRawChannelRequest : Type := mkChannelRequest {
  type : RequestType;
  id : N;
  channelName : string;
  name : string;
  arg : Any
}.

(** [IRawRequest]; [IRawPromiseCancelRequest] and [IRawEventDisposeRequest]
    are [{ type, id }]. *)
Inductive IRawRequest : Type :=
| ChannelRequest (request : IRawChannelRequest)
| IdRequest (type : RequestType) (id : N).

(** The [stack] a [PromiseError] carries: [undefined], the lines of the
    stack, or the stack as it was when it has no [split]. *)
Inductive Stack : Type :=
| StackUndefined
| StackLines (lines : list string)
| StackRaw (stack : Any).

Record ErrorData : Type := mkErrorData {
  message : string;
  error_name : string;
  stack : Stack
}.

Inductive IRawResponse : Type :=
| IRawInitializeResponse
| IRawPromiseSuccessResponse (id : N) (data : Any)
| IRawPromiseErrorResponse (id : N) (data : ErrorData)
| IRawPromiseErrorObjResponse (id : N) (data : Any)
| IRawEventFireResponse (id : N) (data : Any).

Definition response_type (response : IRawResponse) : ResponseType :=
  match response with
  | IRawInitializeResponse => Initialize
  | IRawPromiseSuccessResponse _ _ => PromiseSuccess
  | IRawPromiseErrorResponse _ _ => PromiseError
  | IRawPromiseErrorObjResponse _ _ => PromiseErrorObj
  | IRawEventFireResponse _ _ => EventFire
  end.

(** [response.id]; [Initialize] has none. *)
Definition response_id (response : IRawResponse) : option N :=
  match response with
  | IRawInitializeResponse => None
  | IRawPromiseSuccessResponse id _
  | IRawPromiseErrorResponse id _
  | IRawPromiseErrorObjResponse id _
  | IRawEventFireResponse id _ => Some id
  end.

(** The [stack] property of a thrown [Error]: absent, a string, or a truthy
    value that is no string and so has no [split] method. *)
Inductive ErrorStack : Type :=
| NoStack
| StringStack (s : string)
| OtherStack (v : Any).

(** An instance of [Error]. *)
Record JsError : Type := mkJsError {
  err_message : string;
  err_name : string;
  err_stack : ErrorStack
}.

(** How the promise returned by [channel.call] settles. A synchronous throw
    of [channel.call] is turned into a rejection by [onPromise]. *)
Inductive Settlement : Type :=
| Fulfilled (data : Any)
| RejectedWithError (err : JsError)
| RejectedWith (err : Any).

End Frames.

Arguments IRawInitializeResponse {Any}.
Arguments StackUndefined {Any}.
Arguments StackLines {Any} lines.
Arguments NoStack {Any}.
Arguments StringStack {Any} s.
Arguments IdRequest {Any} type id.

(** ** ChannelServer *)

Module Server.
Section Server.

Context {Any Channel TContext Number : Type}.
Context {numbers : JsNumber Number} {payloads : Serializes Any}
  {services : IServerChannel Channel TContext Any}.

(** The disposables a server holds: the listener on [protocol.onMessage],
    [toDisposable(() => cancellationTokenSource.cancel())] of a call, and
    the listener that [onEventListen] puts on a channel's event. *)
Inductive IDisposable : Type :=
| ProtocolListener
| CancelCall (id : N)
| EventListener (id : N).

Record PendingRequest : Type := mkPendingRequest {
  request : IRawChannelRequest Any;
  timeoutTimer : N
}.

(** The two callbacks the server hands to [setTimeout]. *)
Inductive TimerCallback : Type :=
| FlushPendingRequests (channelName : string)
| PendingRequestTimeout (request : IRawChannelRequest Any).

Record Timer : Type := mkTimer {
  callback : TimerCallback;
  delay : Number
}.

(** What the server does to the world around it, in order. [Send] is a
    frame handed to [protocol.send], whose failures [sendBuffer]
    swallows; [Listen] is a [channel.listen] that returned, with the
    subscription to the event it gave. *)
Inductive Effect : Type :=
| Send (response : IRawResponse Any)
| ConsoleError (text : string)
| Call (channel : Channel) (ctx : TContext) (command : string) (arg : Any) (id : N)
| Listen (channel : Channel) (ctx : TContext) (event : string) (arg : Any) (id : N)
| Disposed (d : IDisposable).

(** The fields of the class, then the runtime it runs in: the timers armed
    by [setTimeout] and the trace of effects. *)
Record ChannelServer : Type := mkChannelServer {
  channels : JsMap.t string Channel;
  activeRequests : JsMap.t N IDisposable;
  protocolListener : option IDisposable;
  pendingRequests : JsMap.t string (list PendingRequest);
  ctx : TContext;
  timeoutDelay : Number;
  timers : JsMap.t N Timer;
  nextTimer : N;
  trace : list Effect
}.

(** How a method ends: it returns, or an exception leaves it. Either way
    the server is in the state the statements that ran left it in. *)
Inductive Result : Type :=
| Done (s : ChannelServer)
| Threw (s : ChannelServer).

Definition state_of (r : Result) : ChannelServer :=
  match r with
  | Done s | Threw s => s
  end.

Definition set_channels (v : JsMap.t string Channel) (s : ChannelServer) : ChannelServer :=
  mkChannelServer v (activeRequests s) (protocolListener s) (pendingRequests s)
    (ctx s) (timeoutDelay s) (timers s) (nextTimer s) (trace s).

Definition set_activeRequests (v : JsMap.t N IDisposable) (s : ChannelServer) : ChannelServer :=
  mkChannelServer (channels s) v (protocolListener s) (pendingRequests s)
    (ctx s) (timeoutDelay s) (timers s) (nextTimer s) (trace s).

Definition set_protocolListener (v : option IDisposable) (s : ChannelServer) : ChannelServer :=
  mkChannelServer (channels s) (activeRequests s) v (pendingRequests s)
    (ctx s) (timeoutDelay s) (timers s) (nextTimer s) (trace s).

Definition set_pendingRequests (v : JsMap.t string (list PendingRequest))
    (s : ChannelServer) : ChannelServer :=
  mkChannelServer (channels s) (activeRequests s) (protocolListener s) v
    (ctx s) (timeoutDelay s) (timers s) (nextTimer s) (trace s).

Definition set_timers (v : JsMap.t N Timer) (next : N) (s : ChannelServer) : ChannelServer :=
  mkChannelServer (channels s) (activeRequests s) (protocolListener s) (pendingRequests s)
    (ctx s) (timeoutDelay s) v next (trace s).

Definition emit (e : Effect) (s : ChannelServer) : ChannelServer :=
  mkChannelServer (channels s) (activeRequests s) (protocolListener s) (pendingRequests s)
    (ctx s) (timeoutDelay s) (timers s) (nextTimer s) (trace s ++ [e]).

(** [setTimeout(callback, delay)]: a fresh handle. *)
Definition setTimeout (callback : TimerCallback) (delay : Number) (s : ChannelServer)
    : N * ChannelServer :=
  let timer := nextTimer s in
  (timer, set_timers (JsMap.set timer (mkTimer callback delay) (timers s)) (timer + 1) s).

Definition clearTimeout (timer : N) (s : ChannelServer) : ChannelServer :=
  set_timers (JsMap.delete timer (timers s)) (nextTimer s) s.

Definition getServerChannel (channelName : string) (s : ChannelServer) : option Channel :=
  JsMap.get channelName (channels s).

Definition registerChannel (channelName : string) (channel : Channel) (s : ChannelServer)
    : ChannelServer :=
  let s := set_channels (JsMap.set channelName channel (channels s)) s in
  snd (setTimeout (FlushPendingRequests channelName) number_0 s).

(** Do the two [serialize] calls of [send(header, body)] return for this
    response? The header holds numbers; the body of [Initialize] is
    [undefined]; the data of a [PromiseError] is a record of two strings
    and a stack that is [undefined], an array of strings or the raw
    stack; every other data is [any]. *)
Definition serializable (response : IRawResponse Any) : bool :=
  match response with
  | IRawInitializeResponse => true
  | IRawPromiseSuccessResponse _ data => serializes data
  | IRawPromiseErrorResponse _ data =>
      match stack data with
      | StackRaw raw => serializes raw
      | _ => true
      end
  | IRawPromiseErrorObjResponse _ data => serializes data
  | IRawEventFireResponse _ data => serializes data
  end.

(** [sendResponse], through [send] and [sendBuffer]: [send] has no
    [try], so a [serialize] that throws leaves it before [sendBuffer] and
    nothing is sent. *)
Definition sendResponse (response : IRawResponse Any) (s : ChannelServer) : Result :=
  if serializable response then Done (emit (Send response) s) else Threw s.

(** The server as its constructor leaves it: listening, [Initialize] sent. *)
Definition new (ctx : TContext) (timeoutDelay : Number) : ChannelServer :=
  state_of
    (sendResponse IRawInitializeResponse
       (mkChannelServer JsMap.empty JsMap.empty (Some ProtocolListener) JsMap.empty
          ctx timeoutDelay JsMap.empty 0 [])).

Definition collectPendingRequest (request : IRawChannelRequest Any) (s : ChannelServer)
    : ChannelServer :=
  let pendingRequests_ :=
    match JsMap.get (channelName request) (pendingRequests s) with
    | Some queued => queued
    | None => []
    end in
  let (timer, s) := setTimeout (PendingRequestTimeout request) (timeoutDelay s) s in
  set_pendingRequests
    (JsMap.set (channelName request)
       (pendingRequests_ ++ [mkPendingRequest request timer]) (pendingRequests s)) s.

(** [onPromise]: a throw of [channel.call] is caught and becomes a
    rejection (see [Settlement]), so the method always returns. *)
Definition onPromise (request : IRawChannelRequest Any) (s : ChannelServer) : ChannelServer :=
  match JsMap.get (channelName request) (channels s) with
  | None => collectPendingRequest request s
  | Some channel =>
      let s := emit (Call channel (ctx s) (name request) (arg request) (id request)) s in
      set_activeRequests
        (JsMap.set (id request) (CancelCall (id request)) (activeRequests s)) s
  end.

(** [err.stack ? (err.stack.split ? err.stack.split('\n') : err.stack) : undefined];
    the empty string is falsy. *)
Definition stackOf (stack : ErrorStack Any) : Stack Any :=
  match stack with
  | NoStack => StackUndefined
  | StringStack EmptyString => StackUndefined
  | StringStack s => StackLines (split newline s)
  | OtherStack v => StackRaw v
  end.

(** The response each of the two callbacks [onPromise] passes to
    [promise.then] builds, for the request [id]. *)
Definition answer (id : N) (outcome : Settlement Any) : IRawResponse Any :=
  match outcome with
  | Fulfilled data => IRawPromiseSuccessResponse id data
  | RejectedWithError err =>
      IRawPromiseErrorResponse id
        (mkErrorData (err_message err) (err_name err) (stackOf (err_stack err)))
  | RejectedWith err => IRawPromiseErrorObjResponse id err
  end.

(** The two callbacks themselves: [sendResponse], then
    [activeRequests.delete]. When [sendResponse] throws, the callback is
    left before the [delete] (the promise [then] returned is rejected,
    and nobody looks at it). *)
Definition onSettled (id : N) (outcome : Settlement Any) (s : ChannelServer) : ChannelServer :=
  match sendResponse (answer id outcome) s with
  | Done s => set_activeRequests (JsMap.delete id (activeRequests s)) s
  | Threw s => s
  end.

(** [onEventListen]: [channel.listen] is not in a [try]; when it throws,
    the method is left before the subscription and before
    [activeRequests.set]. *)
Definition onEventListen (request : IRawChannelRequest Any) (s : ChannelServer) : Result :=
  match JsMap.get (channelName request) (channels s) with
  | None => Done (collectPendingRequest request s)
  | Some channel =>
      if listens channel (ctx s) (name request) (arg request)
      then
        let s := emit (Listen channel (ctx s) (name request) (arg request) (id request)) s in
        Done (set_activeRequests
                (JsMap.set (id request) (EventListener (id request)) (activeRequests s)) s)
      else Threw s
  end.

(** The listener [onEventListen] subscribes: one [EventFire] per
    emission, unless [sendResponse] throws (the exception goes back into
    the channel's event). *)
Definition onEvent (id : N) (data : Any) (s : ChannelServer) : ChannelServer :=
  state_of (sendResponse (IRawEventFireResponse id data) s).

Definition disposeActiveRequest (id : N) (s : ChannelServer) : ChannelServer :=
  match JsMap.get id (activeRequests s) with
  | Some disposable =>
      let s := emit (Disposed disposable) s in
      set_activeRequests (JsMap.delete id (activeRequests s)) s
  | None => s
  end.

(** [onRawMessage], from the decoded header and body on. An exception of
    [onEventListen] goes out to the transport that delivered the message. *)
Definition onRawMessage (message : IRawRequest Any) (s : ChannelServer) : ChannelServer :=
  match message with
  | ChannelRequest request =>
      match type request with
      | Promise => onPromise request s
      | EventListen => state_of (onEventListen request s)
      | _ => s
      end
  | IdRequest type id =>
      match type with
      | PromiseCancel | EventDispose => disposeActiveRequest id s
      | _ => s
      end
  end.

(** The body of the timer armed by [collectPendingRequest]. *)
Definition onPendingTimeout (request : IRawChannelRequest Any) (s : ChannelServer)
    : ChannelServer :=
  let s := emit (ConsoleError ("Unknown channel: " ++ channelName request)) s in
  match type request with
  | Promise =>
      state_of
        (sendResponse
           (IRawPromiseErrorResponse (id request)
              (mkErrorData
                 ("Channel name '" ++ channelName request ++ "' timed out after "
                    ++ numberToString (timeoutDelay s) ++ "ms")
                 "Unknown channel"
                 StackUndefined)) s)
  | _ => s
  end.

(** The loop of [flushPendingRequests] over the queue. It dispatches to a
    registered channel (the flush is only ever scheduled by
    [registerChannel], after [channels.set]), so the queue does not grow
    while it is walked. An exception of [onEventListen] leaves the loop:
    the requests after it are not looked at. *)
Fixpoint flushLoop (requests : list PendingRequest) (s : ChannelServer) : Result :=
  match requests with
  | [] => Done s
  | pending :: requests =>
      let s := clearTimeout (timeoutTimer pending) s in
      match type (request pending) with
      | Promise => flushLoop requests (onPromise (request pending) s)
      | EventListen =>
          match onEventListen (request pending) s with
          | Done s => flushLoop requests s
          | Threw s => Threw s
          end
      | _ => flushLoop requests s
      end
  end.

(** [flushPendingRequests]: [pendingRequests.delete] follows the loop, so
    an exception in the loop leaves the queue of the channel in the map. *)
Definition flushPendingRequests (channelName : string) (s : ChannelServer) : Result :=
  match JsMap.get channelName (pendingRequests s) with
  | Some requests =>
      match flushLoop requests s with
      | Done s => Done (set_pendingRequests (JsMap.delete channelName (pendingRequests s)) s)
      | Threw s => Threw s
      end
  | None => Done s
  end.

(** A timer of the runtime fires: it is armed no more, and its callback
    runs (an exception of the callback goes to the runtime). A handle
    that is not armed fires nothing. *)
Definition fireTimer (timer : N) (s : ChannelServer) : ChannelServer :=
  match JsMap.get timer (timers s) with
  | None => s
  | Some t =>
      let s := clearTimeout timer s in
      match callback t with
      | FlushPendingRequests channelName => state_of (flushPendingRequests channelName s)
      | PendingRequestTimeout request => onPendingTimeout request s
      end
  end.

Definition dispose (s : ChannelServer) : ChannelServer :=
  let s :=
    match protocolListener s with
    | Some listener => set_protocolListener None (emit (Disposed listener) s)
    | None => s
    end in
  let s := fold_left (fun s d => emit (Disposed d) s) (JsMap.values (activeRequests s)) s in
  set_activeRequests (JsMap.clear (activeRequests s)) s.

(** The transport delivers a frame: the listener the constructor put on
    [protocol.onMessage] runs [onRawMessage], as long as it is attached. *)
Definition receive (message : IRawRequest Any) (s : ChannelServer) : ChannelServer :=
  match protocolListener s with
  | Some _ => onRawMessage message s
  | None => s
  end.

(** Was the service called for the request [id]? *)
Definition is_call (id_ : N) (e : Effect) : bool :=
  match e with
  | Call _ _ _ _ i => N.eqb i id_
  | _ => false
  end.

(** What can happen to a server: a frame from the transport, a channel
    being registered, a timer of the runtime firing, the promise of a
    call that was made settling, a channel's event firing for a listener
    that is subscribed, [dispose]. *)
Inductive Input : Type :=
| DoReceive (message : IRawRequest Any)
| DoRegisterChannel (channelName : string) (channel : Channel)
| DoTimer (timer : N)
| DoSettle (id : N) (outcome : Settlement Any)
| DoEvent (id : N) (data : Any)
| DoDispose.

Definition step (s : ChannelServer) (i : Input) : ChannelServer :=
  match i with
  | DoReceive message => receive message s
  | DoRegisterChannel channelName channel => registerChannel channelName channel s
  | DoTimer timer => fireTimer timer s
  | DoSettle id outcome =>
      if existsb (is_call id) (trace s) then onSettled id outcome s else s
  | DoEvent id data =>
      match JsMap.get id (activeRequests s) with
      | Some (EventListener _) => onEvent id data s
      | _ => s
      end
  | DoDispose => dispose s
  end.

Definition run (inputs : list Input) (s : ChannelServer) : ChannelServer :=
  fold_left step inputs s.

(** Is the input the registration of the channel [channelName], or the
    firing of [timer]? *)
Definition registers (channelName_ : string) (i : Input) : bool :=
  match i with
  | DoRegisterChannel channelName _ => String.eqb channelName channelName_
  | _ => false
  end.

Definition fires (timer_ : N) (i : Input) : bool :=
  match i with
  | DoTimer timer => N.eqb timer timer_
  | _ => false
  end.

End Server.
Arguments ChannelServer : clear implicits.
Arguments Result : clear implicits.
Arguments Input : clear implicits.
Arguments IDisposable : clear implicits.
Arguments Effect : clear implicits.
Arguments PendingRequest : clear implicits.
Arguments Timer : clear implicits.
Arguments TimerCallback : clear implicits.
End Server.

(** ** ChannelClient *)

Module Client.

(** The disposables a client holds: the listener on [protocol.onMessage],
    the [combinedDisposable(toDisposable(cancel), cancellationTokenListener)]
    of a call, and the [Emitter] of a [listen]. *)
Inductive IDisposable : Type :=
| ProtocolListener
| PromiseRequest (id : N)
| EventEmitter (id : N).

#[global] Instance KeyEq_IDisposable : KeyEq IDisposable.
Proof. intros a b. unfold KeyEq in *. decide equality; apply N.eq_dec. Defined.

(** The two closures stored in [handlers]; each captures the [id] of the
    request it was made for. *)
Inductive IHandler : Type :=
| PromiseHandler (id : N)
| EventHandler (id : N).

Section Client.

Context {Any : Type} {payloads : Serializes Any}.

(** What the [then] of an [uninitializedPromise] will run once the client
    is initialized: the continuation of [requestPromise], or the one of
    [onFirstListenerAdd]. *)
Inductive InitWait : Type :=
| CallWait (request : IRawChannelRequest Any)
| ListenWait (request : IRawChannelRequest Any).

(** What a promise is rejected with. *)
Inductive Reason : Type :=
| Canceled
| ErrorObject (data : ErrorData Any)
| Thrown (data : Any).

(** [response.data]. *)
Inductive Payload : Type :=
| NoData
| Data (data : Any)
| ErrorDataOf (data : ErrorData Any).

Definition response_data (response : IRawResponse Any) : Payload :=
  match response with
  | IRawInitializeResponse => NoData
  | IRawPromiseSuccessResponse _ data => Data data
  | IRawPromiseErrorResponse _ data => ErrorDataOf data
  | IRawPromiseErrorObjResponse _ data => Data data
  | IRawEventFireResponse _ data => Data data
  end.

(** What the client does to the world around it, in order: frames handed
    to [protocol.send], [_onDidInitialize.fire()], the [c] and [e] of a
    call's promise, [emitter.fire] of a [listen], disposals. *)
Inductive Effect : Type :=
| Send (request : IRawRequest Any)
| DidInitialize
| Resolve (id : N) (data : Any)
| Reject (id : N) (reason : Reason)
| Fire (id : N) (data : Payload)
| Disposed (d : IDisposable).

(** An [Emitter] made by [requestEvent]: the request its callbacks
    capture, and how many listeners it has. *)
Record Emitter : Type := mkEmitter {
  emitter_request : IRawChannelRequest Any;
  listeners : nat
}.

(** The fields of the class, then the runtime: the initialization waits
    not yet run nor cancelled (oldest first), the [finally] callbacks of
    settled calls not yet run, the emitters handed out, the trace.
    [lastRequestId] is a JavaScript number; it is counted here in [N],
    which is what [lastRequestId++] does below 2^53. *)
Record ChannelClient : Type := mkChannelClient {
  state : State;
  activeRequests : JsSet.t IDisposable;
  handlers : JsMap.t N IHandler;
  lastRequestId : N;
  protocolListener : option IDisposable;
  waits : list InitWait;
  finalizers : list N;
  emitters : JsMap.t N Emitter;
  trace : list Effect
}.

Definition set_state (v : State) (c : ChannelClient) : ChannelClient :=
  mkChannelClient v (activeRequests c) (handlers c) (lastRequestId c)
    (protocolListener c) (waits c) (finalizers c) (emitters c) (trace c).

Definition set_activeRequests (v : JsSet.t IDisposable) (c : ChannelClient) : ChannelClient :=
  mkChannelClient (state c) v (handlers c) (lastRequestId c)
    (protocolListener c) (waits c) (finalizers c) (emitters c) (trace c).

Definition set_handlers (v : JsMap.t N IHandler) (c : ChannelClient) : ChannelClient :=
  mkChannelClient (state c) (activeRequests c) v (lastRequestId c)
    (protocolListener c) (waits c) (finalizers c) (emitters c) (trace c).

Definition set_lastRequestId (v : N) (c : ChannelClient) : ChannelClient :=
  mkChannelClient (state c) (activeRequests c) (handlers c) v
    (protocolListener c) (waits c) (finalizers c) (emitters c) (trace c).

Definition set_protocolListener (v : option IDisposable) (c : ChannelClient) : ChannelClient :=
  mkChannelClient (state c) (activeRequests c) (handlers c) (lastRequestId c)
    v (waits c) (finalizers c) (emitters c) (trace c).

Definition set_waits (v : list InitWait) (c : ChannelClient) : ChannelClient :=
  mkChannelClient (state c) (activeRequests c) (handlers c) (lastRequestId c)
    (protocolListener c) v (finalizers c) (emitters c) (trace c).

Definition set_finalizers (v : list N) (c : ChannelClient) : ChannelClient :=
  mkChannelClient (state c) (activeRequests c) (handlers c) (lastRequestId c)
    (protocolListener c) (waits c) v (emitters c) (trace c).

Definition set_emitters (v : JsMap.t N Emitter) (c : ChannelClient) : ChannelClient :=
  mkChannelClient (state c) (activeRequests c) (handlers c) (lastRequestId c)
    (protocolListener c) (waits c) (finalizers c) v (trace c).

Definition emit (e : Effect) (c : ChannelClient) : ChannelClient :=
  mkChannelClient (state c) (activeRequests c) (handlers c) (lastRequestId c)
    (protocolListener c) (waits c) (finalizers c) (emitters c) (trace c ++ [e]).

(** The client as its constructor leaves it. *)
Definition new : ChannelClient :=
  mkChannelClient Uninitialized [] JsMap.empty 0 (Some ProtocolListener)
    [] [] JsMap.empty [].

(** Do the two [serialize] calls of [send(header, body)] return for this
    request? The header holds numbers and strings; the body is the
    argument of a call or of a listen, which is [any], and [undefined]
    for the two requests that carry an id only. *)
Definition serializable (request : IRawRequest Any) : bool :=
  match request with
  | ChannelRequest request => serializes (arg request)
  | IdRequest _ _ => true
  end.

(** [sendRequest], through [send] and [sendBuffer]: each of the four
    request types is sent, unless [serialize] throws in [send], which has
    no [try]. Every caller has [sendRequest] as the last statement of a
    promise job or hands it a request that carries an id only, so the
    exception changes nothing else. *)
Definition sendRequest (request : IRawRequest Any) (c : ChannelClient) : ChannelClient :=
  if serializable request then emit (Send request) c else c.

(** [c(...)] or [e(...)] of the promise of call [id]: the promise settles
    (once), and its [finally] callback is queued. *)
Definition resolve (id : N) (data : Any) (c : ChannelClient) : ChannelClient :=
  set_finalizers (finalizers c ++ [id]) (emit (Resolve id data) c).

Definition reject (id : N) (reason : Reason) (c : ChannelClient) : ChannelClient :=
  set_finalizers (finalizers c ++ [id]) (emit (Reject id reason) c).

(** Is the [uninitializedPromise] of call [id] still set? *)
Definition is_call_wait (id_ : N) (w : InitWait) : bool :=
  match w with
  | CallWait request => N.eqb (id request) id_
  | ListenWait _ => false
  end.

Definition is_listen_wait (id_ : N) (w : InitWait) : bool :=
  match w with
  | CallWait _ => false
  | ListenWait request => N.eqb (id request) id_
  end.

(** [requestPromise]; the id of the call is [lastRequestId] as it was. *)
Definition requestPromise (channelName name : string) (arg : Any)
    (isCancellationRequested : bool) (c : ChannelClient) : ChannelClient :=
  let id := lastRequestId c in
  let c := set_lastRequestId (id + 1) c in
  let request := mkChannelRequest Promise id channelName name arg in
  if isCancellationRequested then emit (Reject id Canceled) c
  else
    let c := set_waits (waits c ++ [CallWait request]) c in
    set_activeRequests (JsSet.add (PromiseRequest id) (activeRequests c)) c.

(** The closure [cancel] of the call [id]. *)
Definition cancel (id : N) (c : ChannelClient) : ChannelClient :=
  let c :=
    if existsb (is_call_wait id) (waits c)
    then set_waits (filter (fun w => negb (is_call_wait id w)) (waits c)) c
    else sendRequest (IdRequest PromiseCancel id) c in
  reject id Canceled c.

(** The response handler of the call [id]. *)
Definition promiseHandler (id : N) (response : IRawResponse Any) (c : ChannelClient)
    : ChannelClient :=
  match response with
  | IRawPromiseSuccessResponse _ data =>
      let c := set_handlers (JsMap.delete id (handlers c)) c in
      resolve id data c
  | IRawPromiseErrorResponse _ data =>
      let c := set_handlers (JsMap.delete id (handlers c)) c in
      reject id (ErrorObject (mkErrorData (message data) (error_name data) (stack data))) c
  | IRawPromiseErrorObjResponse _ data =>
      let c := set_handlers (JsMap.delete id (handlers c)) c in
      reject id (Thrown data) c
  | _ => c
  end.

Definition applyHandler (handler : IHandler) (response : IRawResponse Any) (c : ChannelClient)
    : ChannelClient :=
  match handler with
  | PromiseHandler id => promiseHandler id response c
  | EventHandler id => emit (Fire id (response_data response)) c
  end.

Definition onResponse (response : IRawResponse Any) (c : ChannelClient) : ChannelClient :=
  match response_id response with
  | None => emit DidInitialize (set_state Idle c)
  | Some id =>
      match JsMap.get id (handlers c) with
      | Some handler => applyHandler handler response c
      | None => c
      end
  end.

(** [onBuffer], from the decoded header and body on: each of the five
    response types goes to [onResponse]. *)
Definition onBuffer (response : IRawResponse Any) (c : ChannelClient) : ChannelClient :=
  onResponse response c.

(** The transport delivers a frame: the listener the constructor put on
    [protocol.onMessage] runs [onBuffer], as long as it is attached. *)
Definition receive (response : IRawResponse Any) (c : ChannelClient) : ChannelClient :=
  match protocolListener c with
  | Some _ => onBuffer response c
  | None => c
  end.

(** [requestEvent]: the handler is stored at once, under the id of the
    event; the id is [lastRequestId] as it was. *)
Definition requestEvent (channelName name : string) (arg : Any) (c : ChannelClient)
    : ChannelClient :=
  let id := lastRequestId c in
  let c := set_lastRequestId (id + 1) c in
  let request := mkChannelRequest EventListen id channelName name arg in
  let c := set_emitters (JsMap.set id (mkEmitter request 0) (emitters c)) c in
  set_handlers (JsMap.set id (EventHandler id) (handlers c)) c.

(** The [onFirstListenerAdd] of the emitter of [request]. *)
Definition onFirstListenerAdd (request : IRawChannelRequest Any) (c : ChannelClient)
    : ChannelClient :=
  set_waits (waits c ++ [ListenWait request]) c.

(** The [onLastListenerRemove] of the emitter of event [id]. *)
Definition onLastListenerRemove (id : N) (c : ChannelClient) : ChannelClient :=
  if existsb (is_listen_wait id) (waits c)
  then set_waits (filter (fun w => negb (is_listen_wait id w)) (waits c)) c
  else
    let c := set_activeRequests (JsSet.delete (EventEmitter id) (activeRequests c)) c in
    sendRequest (IdRequest EventDispose id) c.

(** Modelled from the spec: [Emitter] ([common/event], not part of the
    sources) ties the two callbacks to its subscriber count: the first
    listener added runs [onFirstListenerAdd], the last one removed runs
    [onLastListenerRemove]. *)
Definition addListener (id : N) (c : ChannelClient) : ChannelClient :=
  match JsMap.get id (emitters c) with
  | None => c
  | Some e =>
      let c := match listeners e with
               | O => onFirstListenerAdd (emitter_request e) c
               | S _ => c
               end in
      set_emitters (JsMap.set id (mkEmitter (emitter_request e) (S (listeners e))) (emitters c)) c
  end.

Definition removeListener (id : N) (c : ChannelClient) : ChannelClient :=
  match JsMap.get id (emitters c) with
  | None => c
  | Some e =>
      match listeners e with
      | O => c
      | S n =>
          let c := set_emitters (JsMap.set id (mkEmitter (emitter_request e) n) (emitters c)) c in
          match n with
          | O => onLastListenerRemove id c
          | S _ => c
          end
      end
  end.

(** [whenInitialized()] is resolved, or resolves with the next
    [onDidInitialize]: its continuations run once [state] is [Idle]. *)
Definition whenInitialized (c : ChannelClient) : bool :=
  match state c with
  | Idle => true
  | Uninitialized => false
  end.

(** The [then] callback of an [uninitializedPromise]. *)
Definition continue (w : InitWait) (c : ChannelClient) : ChannelClient :=
  match w with
  | CallWait request =>
      let c := set_handlers (JsMap.set (id request) (PromiseHandler (id request)) (handlers c)) c in
      sendRequest (ChannelRequest request) c
  | ListenWait request =>
      let c := set_activeRequests (JsSet.add (EventEmitter (id request)) (activeRequests c)) c in
      sendRequest (ChannelRequest request) c
  end.

(** The promise jobs that are ready: the [finally] callbacks of settled
    calls ([activeRequests.delete(disposable)]), and, once initialized, the
    continuations that wait for it. *)
Definition runMicrotasks (c : ChannelClient) : ChannelClient :=
  let c :=
    fold_left
      (fun c id => set_activeRequests (JsSet.delete (PromiseRequest id) (activeRequests c)) c)
      (finalizers c) c in
  let c := set_finalizers [] c in
  if whenInitialized c
  then fold_left (fun c w => continue w c) (waits c) (set_waits [] c)
  else c.

(** [p.dispose()] of an entry of [activeRequests]: a call runs its
    [cancel]; what [Emitter.dispose] does to an emitter is not part of the
    sources. *)
Definition disposeRequest (d : IDisposable) (c : ChannelClient) : ChannelClient :=
  let c := emit (Disposed d) c in
  match d with
  | PromiseRequest id => cancel id c
  | _ => c
  end.

Definition dispose (c : ChannelClient) : ChannelClient :=
  let c :=
    match protocolListener c with
    | Some listener => set_protocolListener None (emit (Disposed listener) c)
    | None => c
    end in
  let c := fold_left (fun c p => disposeRequest p c) (activeRequests c) c in
  set_activeRequests (JsSet.clear (activeRequests c)) c.

(** What can happen to a client: calls of its channel proxies, the
    cancellation of a request issued so far (the [cancel] of a call can be
    run at any time after the call, whatever became of it), listeners
    coming and going on an event handed out, a frame from the transport,
    the promise jobs, [dispose]. *)
Inductive Input : Type :=
| DoCall (channelName name : string) (arg : Any) (isCancellationRequested : bool)
| DoCancel (id : N)
| DoListen (channelName name : string) (arg : Any)
| DoAddListener (id : N)
| DoRemoveListener (id : N)
| DoReceive (response : IRawResponse Any)
| DoMicrotasks
| DoDispose.

Definition step (c : ChannelClient) (i : Input) : ChannelClient :=
  match i with
  | DoCall channelName name arg cancelled => requestPromise channelName name arg cancelled c
  | DoCancel id => if N.ltb id (lastRequestId c) then cancel id c else c
  | DoListen channelName name arg => requestEvent channelName name arg c
  | DoAddListener id => addListener id c
  | DoRemoveListener id => removeListener id c
  | DoReceive response => receive response c
  | DoMicrotasks => runMicrotasks c
  | DoDispose => dispose c
  end.

Definition run (inputs : list Input) (c : ChannelClient) : ChannelClient :=
  fold_left step inputs c.

(** Is the effect a firing of [onDidInitialize]? *)
Definition is_DidInitialize (e : Effect) : bool :=
  match e with
  | DidInitialize => true
  | _ => false
  end.

(** How often [onDidInitialize] fired in a trace. *)
Definition fired (t : list Effect) : nat := List.length (filter is_DidInitialize t).

(** Is the effect the act of a response handler on a terminal response
    for the call [id]: the promise resolved, or rejected with what the
    response carried? (A cancellation rejects with [Canceled].) *)
Definition is_answer (id_ : N) (e : Effect) : bool :=
  match e with
  | Resolve i _ => N.eqb i id_
  | Reject i (ErrorObject _) => N.eqb i id_
  | Reject i (Thrown _) => N.eqb i id_
  | _ => false
  end.

(** How many terminal responses for the call [id] were acted upon. *)
Definition answers (id_ : N) (t : list Effect) : nat :=
  List.length (filter (is_answer id_) t).

(** The terminal responses of a call. *)
Definition terminal (response : IRawResponse Any) : bool :=
  match response_type response with
  | PromiseSuccess | PromiseError | PromiseErrorObj => true
  | _ => false
  end.

(** The [Initialize] frames among the inputs that reach [onResponse]: the
    listener is detached by the first [dispose]. *)
Fixpoint initializations (inputs : list Input) : nat :=
  match inputs with
  | [] => 0
  | DoDispose :: _ => 0
  | DoReceive IRawInitializeResponse :: rest => S (initializations rest)
  | _ :: rest => initializations rest
  end.

End Client.
Arguments ChannelClient : clear implicits.
Arguments Effect : clear implicits.
Arguments Input : clear implicits.
Arguments InitWait : clear implicits.
Arguments Reason : clear implicits.
Arguments Payload : clear implicits.
Arguments Emitter : clear implicits.
Arguments new : clear implicits.
Arguments Canceled {Any}.
Arguments DidInitialize {Any}.
End Client.

(** ** IPCServer *)

Module Hub.
Section Hub.

Variable Other : Type.
Variable JSON_parse : string -> option Other.
Variable toString : VSBuffer.t -> string.
Variables Any Channel Number : Type.

(** The context of a peer is the value its first message decodes to. *)
Definition TContext : Type := Value Other.

Context {numbers : JsNumber Number} {payloads : Serializes Any}
  {services : IServerChannel Channel TContext Any}.

Record Connection : Type := mkConnection {
  channelServer : Server.ChannelServer Any Channel TContext Number;
  channelClient : Client.ChannelClient Any;
  ctx : TContext
}.

(** The fields of the class and the heap it works on. A [Connection] is
    an object: [_connections] holds references, and the handler that
    [onFirstMessage] puts on [onDidClientDisconnect] keeps the
    [channelServer] and [channelClient] it captured within reach whatever
    happens to the set. [changes] are the firings of
    [_onDidChangeConnections], [disposed] whether that emitter is
    disposed. *)
Record IPCServer : Type := mkIPCServer {
  channels : JsMap.t string Channel;
  _connections : JsSet.t N;
  heap : JsMap.t N Connection;
  nextConnection : N;
  changes : list N;
  disposed : bool
}.

Definition new : IPCServer := mkIPCServer JsMap.empty [] JsMap.empty 0 [] false.

(** The [connections] getter: the objects of the set, in its order. *)
Definition connections (h : IPCServer) : list Connection :=
  flat_map
    (fun ref => match JsMap.get ref (heap h) with Some c => [c] | None => [] end)
    (_connections h).

(** The handler of the first message of a newly connected client, the body
    of [onFirstMessage(msg => ...)]. When [deserialize] throws, the handler
    is left before anything is constructed. *)
Definition onFirstMessage (msg : VSBuffer.t) (h : IPCServer) : IPCServer :=
  let reader := BufferReader.new msg in
  match deserialize JSON_parse toString reader with
  | Return (ctx, _) =>
      let channelServer := Server.new ctx number_1000 in
      let channelClient := Client.new Any in
      let channelServer :=
        fold_left
          (fun server entry => Server.registerChannel (fst entry) (snd entry) server)
          (channels h) channelServer in
      let connection := mkConnection channelServer channelClient ctx in
      let ref := nextConnection h in
      mkIPCServer (channels h) (JsSet.add ref (_connections h))
        (JsMap.set ref connection (heap h)) (ref + 1)
        (changes h ++ [ref]) (disposed h)
  | _ => h
  end.

(** The handler [onFirstMessage] puts on [onDidClientDisconnect], for the
    connection [ref]. *)
Definition onDidClientDisconnect (ref : N) (h : IPCServer) : IPCServer :=
  match JsMap.get ref (heap h) with
  | Some connection =>
      let connection :=
        mkConnection (Server.dispose (channelServer connection))
          (Client.dispose (channelClient connection)) (ctx connection) in
      mkIPCServer (channels h) (JsSet.delete ref (_connections h))
        (JsMap.set ref connection (heap h)) (nextConnection h)
        (changes h) (disposed h)
  | None => h
  end.

Definition getServerChannel (channelName : string) (h : IPCServer) : option Channel :=
  JsMap.get channelName (channels h).

Definition getChannelByName (channelName : string) (h : IPCServer) : option Channel :=
  JsMap.get channelName (channels h).

Definition registerChannel (channelName : string) (channel : Channel) (h : IPCServer)
    : IPCServer :=
  let heap_ :=
    fold_left
      (fun heap_ ref =>
         match JsMap.get ref heap_ with
         | Some connection =>
             JsMap.set ref
               (mkConnection
                  (Server.registerChannel channelName channel (channelServer connection))
                  (channelClient connection) (ctx connection)) heap_
         | None => heap_
         end)
      (_connections h) (heap h) in
  mkIPCServer (JsMap.set channelName channel (channels h)) (_connections h)
    heap_ (nextConnection h) (changes h) (disposed h).

Definition dispose (h : IPCServer) : IPCServer :=
  mkIPCServer (JsMap.clear (channels h)) (JsSet.clear (_connections h))
    (heap h) (nextConnection h) (changes h) true.


(** What can happen to a hub: the first message of a newly connected
    client arrives, the client of the connection [ref] disconnects, a
    channel is registered, [dispose]. *)
Inductive Input : Type :=
| DoFirstMessage (msg : VSBuffer.t)
| DoDisconnect (ref : N)
| DoRegisterChannel (channelName : string) (channel : Channel)
| DoDispose.

Definition step (h : IPCServer) (i : Input) : IPCServer :=
  match i with
  | DoFirstMessage msg => onFirstMessage msg h
  | DoDisconnect ref => onDidClientDisconnect ref h
  | DoRegisterChannel channelName channel => registerChannel channelName channel h
  | DoDispose => dispose h
  end.

Definition run (inputs : list Input) (h : IPCServer) : IPCServer :=
  fold_left step inputs h.

End Hub.
End Hub.

(** ** Frames as bytes

    [send(header, body)] of [ChannelServer] and of [ChannelClient]: one
    writer, the header and then the body serialized into it, and its
    buffer handed to [sendBuffer]. [onRawMessage] and [onBuffer] begin
    with the converse: one reader, and [deserialize] twice. *)

Module Wire.
Section Wire.

Variable Other : Type.
Variable JSON_stringify : Other -> string.
Variable JSON_parse : string -> option Other.
Variable fromString : string -> VSBuffer.t.
Variable toString : VSBuffer.t -> string.

(** [send(header, body = undefined)]: the buffer that goes to
    [sendBuffer]. *)
Definition send (header body : Value Other) : VSBuffer.t :=
  let writer := BufferWriter.new in
  let writer := serialize JSON_stringify fromString writer header in
  let writer := serialize JSON_stringify fromString writer body in
  BufferWriter.buffer writer.

(** The first three statements of [onRawMessage] and of [onBuffer]:
    [reader], [header], [body]. *)
Definition receive (message : VSBuffer.t) : Completion (Value Other * Value Other) :=
  let reader := BufferReader.new message in
  match deserialize JSON_parse toString reader with
  | Return (header, reader) =>
      match deserialize JSON_parse toString reader with
      | Return (body, _) => Return (header, body)
      | Throw => Throw
      | Exhausted => Exhausted
      end
  | Throw => Throw
  | Exhausted => Exhausted
  end.

End Wire.
End Wire.

(** ** IPCClient *)

Module IPCClient.
Section IPCClient.

Variable Other : Type.
Variable JSON_stringify : Other -> string.
Variable fromString : string -> VSBuffer.t.
Variables Any Channel Number : Type.

Context {numbers : JsNumber Number} {payloads : Serializes Any}
  {services : IServerChannel Channel (Value Other) Any}.

(** The two fields of the class, and the buffer its constructor hands to
    [protocol.send] before it makes them. *)
Record IPCClient : Type := mkIPCClient {
  firstMessage : VSBuffer.t;
  channelClient : Client.ChannelClient Any;
  channelServer : Server.ChannelServer Any Channel (Value Other) Number
}.

Definition new (ctx : Value Other) : IPCClient :=
  let writer := BufferWriter.new in
  let writer := serialize JSON_stringify fromString writer ctx in
  mkIPCClient (BufferWriter.buffer writer) (Client.new Any) (Server.new ctx number_1000).

Definition getServerChannel (channelName : string) (c : IPCClient) : option Channel :=
  Server.getServerChannel channelName (channelServer c).

Definition registerChannel (channelName : string) (channel : Channel) (c : IPCClient)
    : IPCClient :=
  mkIPCClient (firstMessage c) (channelClient c)
    (Server.registerChannel channelName channel (channelServer c)).

Definition dispose (c : IPCClient) : IPCClient :=
  mkIPCClient (firstMessage c) (Client.dispose (channelClient c))
    (Server.dispose (channelServer c)).

End IPCClient.
End IPCClient.

(** ** StaticRouter *)

Module StaticRouter.
Section StaticRouter.

Variable Other : Type.
Variables Any Channel Number : Type.

(** The [fn] of the router, as a predicate on contexts. *)
Variable fn : Hub.TContext Other -> bool.

(** One pass of [route(hub)] over [hub.connections]: the first connection
    whose context [fn] accepts. With [None] the loop found none, and
    [route] waits for [onDidChangeConnections] before it routes again. *)
Definition route (hub : Hub.IPCServer Other Any Channel Number)
    : option (Hub.Connection Other Any Channel Number) :=
  find (fun connection => fn (Hub.ctx connection)) (Hub.connections hub).

Definition routeCall (hub : Hub.IPCServer Other Any Channel Number) := route hub.

Definition routeEvent (hub : Hub.IPCServer Other Any Channel Number) := route hub.

End StaticRouter.
End StaticRouter.

(** ** ServiceCollection

    [core/instantiation/serviceCollection.ts]: a [Map] from service
    identifiers to instances or descriptors. *)

Module ServiceCollection.
Section ServiceCollection.

Context {ServiceIdentifier Service : Type} `{KeyEq ServiceIdentifier}.

Record t : Type := mk { _entries : JsMap.t ServiceIdentifier Service }.

(** [new ServiceCollection(...entries)] *)
Definition new (entries : list (ServiceIdentifier * Service)) : t :=
  mk (fold_left (fun m entry => JsMap.set (fst entry) (snd entry) m) entries JsMap.empty).

(** [set(id, instanceOrDescriptor)]: what was bound before ([None] is
    [undefined]), and the collection after. *)
Definition set (id : ServiceIdentifier) (instanceOrDescriptor : Service) (c : t)
    : option Service * t :=
  let result := JsMap.get id (_entries c) in
  (result, mk (JsMap.set id instanceOrDescriptor (_entries c))).

(** [forEach(callback)], the callback acting on a state [A]. *)
Definition forEach {A : Type} (callback : ServiceIdentifier -> Service -> A -> A)
    (c : t) (a : A) : A :=
  fold_left (fun a entry => callback (fst entry) (snd entry) a) (_entries c) a.

Definition has (id : ServiceIdentifier) (c : t) : bool := JsMap.has id (_entries c).

Definition get (id : ServiceIdentifier) (c : t) : option Service :=
  JsMap.get id (_entries c).

End ServiceCollection.
Arguments t : clear implicits.
End ServiceCollection.

(** ** A small runtime to evaluate the model on

    Strings held as their UTF-8 bytes, and the JSON literals [true] and
    [false] as the values of the last branch of [serialize]. *)

Module Sample.

Definition Other : Type := bool.

Definition JSON_stringify (o : Other) : string :=
  if o then "true"%string else "false"%string.

Definition JSON_parse (text : string) : option Other :=
  if String.eqb text "true" then Some true
  else if String.eqb text "false" then Some false
  else None.

Definition fromString (s : string) : VSBuffer.t := list_byte_of_string s.

Definition toString (b : VSBuffer.t) : string := string_of_list_byte b.

Definition Any : Type := Value Other.

(** A channel is named by what it is. *)
Definition Channel : Type := string.

(** The numbers of the sample are three delays, in milliseconds, with
    what a template literal prints for each. *)
Inductive Delay : Type :=
| ms_0
| ms_250
| ms_1000.

#[global] Instance Delay_number : JsNumber Delay :=
  {| number_0 := ms_0;
     number_1000 := ms_1000;
     numberToString := fun d =>
       match d with
       | ms_0 => "0"%string
       | ms_250 => "250"%string
       | ms_1000 => "1000"%string
       end |}.

(** Every value of the codec can be serialized. *)
#[global] Instance Any_serializes : Serializes Any := fun _ => true.

(** What a service can hand back besides: a [BigInt], on which
    [JSON.stringify] throws. *)
Inductive Datum : Type :=
| Plain (v : Value Other)
| BigInt (n : N).

#[global] Instance Datum_serializes : Serializes Datum :=
  fun d => match d with Plain _ => true | BigInt _ => false end.

(** The channels of the sample have every event but "onNope", for which
    [listen] throws. *)
#[global] Instance Channel_listens {TContext Any : Type}
    : IServerChannel Channel TContext Any :=
  fun _ _ event _ => negb (String.eqb event "onNope").

(** A peer whose context is the string "window", its server with the
    default delay, and a call of [ping] on the channel "svc". *)
Definition ctx : Any := VString Other "window".

Definition server : Server.ChannelServer Any Channel Any Delay := Server.new ctx ms_1000.

Definition request : IRawChannelRequest Any :=
  mkChannelRequest Promise 7 "svc" "ping" (VString Other "hi").

(** The server after the call arrived: "svc" is not registered, the
    request is queued and timer 0 is armed. *)
Definition queued : Server.ChannelServer Any Channel Any Delay :=
  Server.onRawMessage (ChannelRequest request) server.

(** An initialized client with one subscriber on the event "onTick" of
    "svc", the [EventListen] request sent. *)
Definition listening : Client.ChannelClient Any :=
  Client.run [ Client.DoListen "svc" "onTick" (VUndefined Other);
               Client.DoReceive IRawInitializeResponse;
               Client.DoAddListener 0;
               Client.DoMicrotasks ]
    (Client.new Any).

(** A subscription to the event [onTick] of "svc", and one to the event
    the channels do not have. *)
Definition subscription : IRawChannelRequest Any :=
  mkChannelRequest EventListen 8 "svc" "onTick" (VUndefined Other).

Definition refusedSubscription : IRawChannelRequest Any :=
  mkChannelRequest EventListen 9 "svc" "onNope" (VUndefined Other).



(** The server after the call and the subscription arrived and "svc" was
    registered: both are queued, and timer 2 is the flush. *)
Definition registered : Server.ChannelServer Any Channel Any Delay :=
  Server.run [ Server.DoReceive (ChannelRequest request);
               Server.DoReceive (ChannelRequest subscription);
               Server.DoRegisterChannel "svc" "service"%string ]
    server.

End Sample.

(** ** A runtime with the strings of JavaScript

    A JavaScript string is a sequence of UTF-16 code units and may hold a
    surrogate without its partner. The strings of this runtime are such
    strings, written in generalised UTF-8: a code point is written as
    UTF-8 writes it, and a lone surrogate (U+D800 to U+DFFF) as the three
    bytes [ED], [A0..BF], [80..BF] that UTF-8 proper leaves out.

    [VSBuffer] is imported from [base/common/buffer]. Its [fromString]
    and [toString] are, as the specification has it, the UTF-8 encoder
    and decoder of the runtime, here the ones of a runtime with native
    buffers ([Buffer.from(text)] and [buffer.toString()]): both put
    U+FFFD where UTF-8 has nothing to put. *)
Module Utf8.

(** U+FFFD in UTF-8. *)
Definition replacement : list byte := [xef; xbf; xbd].

Definition between (lower upper b : byte) : bool :=
  (Byte.to_N lower <=? Byte.to_N b)%N && (Byte.to_N b <=? Byte.to_N upper)%N.

(** The encoder: every code point as it is written, but U+FFFD for a
    lone surrogate. *)
Fixpoint encode (text : list byte) : list byte :=
  match text with
  | [] => []
  | b1 :: rest =>
      match rest with
      | b2 :: _ :: rest' =>
          if Byte.eqb b1 xed && between xa0 xbf b2
          then replacement ++ encode rest'
          else b1 :: encode rest
      | _ => b1 :: encode rest
      end
  end.

Definition fromString (s : string) : VSBuffer.t := encode (list_byte_of_string s).

(** The decoder, byte by byte: how many bytes the code point under way
    still needs, the bytes of it seen so far, and the range the next
    byte has to be in. *)
Record Decoder : Type := mkDecoder {
  needed : nat;
  seen : list byte;
  lower : byte;
  upper : byte
}.

Definition fresh : Decoder := mkDecoder 0 [] x80 xbf.

(** A byte where a code point starts. *)
Definition lead (b : byte) : list byte * Decoder :=
  if between x00 x7f b then ([b], fresh)
  else if between xc2 xdf b then ([], mkDecoder 1 [b] x80 xbf)
  else if between xe0 xef b then
    ([], mkDecoder 2 [b] (if Byte.eqb b xe0 then xa0 else x80)
           (if Byte.eqb b xed then x9f else xbf))
  else if between xf0 xf4 b then
    ([], mkDecoder 3 [b] (if Byte.eqb b xf0 then x90 else x80)
           (if Byte.eqb b xf4 then x8f else xbf))
  else (replacement, fresh).

(** One byte: it continues the code point under way, or the code point
    is given up for U+FFFD and the byte is looked at afresh. *)
Definition feed (d : Decoder) (b : byte) : list byte * Decoder :=
  match needed d with
  | O => lead b
  | S n =>
      if between (lower d) (upper d) b then
        match n with
        | O => (seen d ++ [b], fresh)
        | S _ => ([], mkDecoder n (seen d ++ [b]) x80 xbf)
        end
      else
        let (out, d') := lead b in
        (replacement ++ out, d')
  end.

Fixpoint decode (d : Decoder) (bytes : list byte) : list byte :=
  match bytes with
  | [] =>
      match needed d with
      | O => []
      | S _ => replacement
      end
  | b :: rest =>
      let (out, d') := feed d b in
      out ++ decode d' rest
  end.

Definition toString (b : VSBuffer.t) : string := string_of_list_byte (decode fresh b).

(** The string of one code unit, the surrogate U+D800. *)
Definition loneSurrogate : string := string_of_list_byte [xed; xa0; x80].

End Utf8.

(** * Properties *)

(** ** Maps and sets *)

Section JsMapFacts.
Context {K V : Type} `{KeyEq K}.

Lemma get_set_eq (k : K) (v : V) (m : JsMap.t K V) :
  JsMap.get k (JsMap.set k v m) = Some v.
Proof.
  induction m as [|[k' v'] m IH]; simpl.
  - destruct (key_eq_dec k k); congruence.
  - destruct (key_eq_dec k k') as [->|Hne]; simpl.
    + destruct (key_eq_dec k' k'); congruence.
    + destruct (key_eq_dec k k'); congruence.
Qed.

Lemma get_set_ne (k k' : K) (v : V) (m : JsMap.t K V) :
  k <> k' -> JsMap.get k (JsMap.set k' v m) = JsMap.get k m.
Proof.
  intros Hne. induction m as [|[k0 v0] m IH]; simpl.
  - destruct (key_eq_dec k k'); congruence.
  - destruct (key_eq_dec k' k0) as [->|Hne']; simpl.
    + destruct (key_eq_dec k k0); congruence.
    + destruct (key_eq_dec k k0); congruence.
Qed.

Lemma get_delete_eq (k : K) (m : JsMap.t K V) :
  JsMap.get k (JsMap.delete k m) = None.
Proof.
  induction m as [|[k' v'] m IH]; simpl; auto.
  destruct (key_eq_dec k k') as [->|Hne]; simpl; auto.
  destruct (key_eq_dec k k'); congruence.
Qed.

Lemma get_delete_ne (k k' : K) (m : JsMap.t K V) :
  k <> k' -> JsMap.get k (JsMap.delete k' m) = JsMap.get k m.
Proof.
  intros Hne. induction m as [|[k0 v0] m IH]; simpl; auto.
  destruct (key_eq_dec k' k0) as [->|Hne']; simpl.
  - destruct (key_eq_dec k k0); congruence.
  - destruct (key_eq_dec k k0); congruence.
Qed.

Lemma get_Some_In (k : K) (v : V) (m : JsMap.t K V) :
  JsMap.get k m = Some v -> In v (JsMap.values m).
Proof.
  induction m as [|[k' v'] m IH]; simpl; [discriminate|].
  destruct (key_eq_dec k k'); intros Hg.
  - left. congruence.
  - right. auto.
Qed.

End JsMapFacts.

(** ** Bytes and sizes *)

Lemma to_N_byte_of_N (n : N) : Byte.to_N (VSBuffer.byte_of_N n) = (n mod 256)%N.
Proof.
  unfold VSBuffer.byte_of_N.
  destruct (Byte.of_N (n mod 256)) as [b|] eqn:E.
  - apply Byte.to_of_N. exact E.
  - exfalso. apply Byte.of_N_None_iff in E.
    pose proof (N.mod_upper_bound n 256). lia.
Qed.

Lemma byte_of_N_to_N (b : byte) : VSBuffer.byte_of_N (Byte.to_N b) = b.
Proof.
  unfold VSBuffer.byte_of_N.
  pose proof (Byte.to_N_bounded b).
  rewrite N.mod_small by lia. rewrite Byte.of_to_N. reflexivity.
Qed.

Lemma readUInt32BE_writeUInt32BE (n : N) (rest : VSBuffer.t) :
  (n < 4294967296)%N ->
  VSBuffer.readUInt32BE (VSBuffer.writeUInt32BE n ++ rest) = Int n.
Proof.
  intros Hn. unfold VSBuffer.writeUInt32BE, VSBuffer.readUInt32BE. simpl.
  rewrite !to_N_byte_of_N. f_equal.
  assert (H24 : (n / 16777216 < 256)%N) by (apply N.Div0.div_lt_upper_bound; lia).
  rewrite (N.mod_small (n / 16777216)) by exact H24.
  pose proof (N.div_mod n 256 ltac:(lia)) as E0.
  pose proof (N.div_mod (n / 256) 256 ltac:(lia)) as E1.
  pose proof (N.div_mod (n / 65536) 256 ltac:(lia)) as E2.
  rewrite N.Div0.div_div in E1, E2.
  change (256 * 256)%N with 65536%N in E1.
  change (65536 * 256)%N with 16777216%N in E2.
  lia.
Qed.

(** ** The codec *)

Section CodecFacts.

Variable Other : Type.
Variable JSON_stringify : Other -> string.
Variable JSON_parse : string -> option Other.
Variable fromString : string -> VSBuffer.t.
Variable toString : VSBuffer.t -> string.

Abbreviation Value := (Value Other).
Abbreviation serialize := (serialize JSON_stringify fromString).
Abbreviation encode := (encode JSON_stringify fromString).
Abbreviation deserialize_fuel := (deserialize_fuel JSON_parse toString).
Abbreviation Representable := (Representable JSON_stringify JSON_parse fromString toString).

(** Induction on values, with the elements of an array as induction
    hypotheses. *)
Section ValueInduction.
Variable P : Value -> Prop.
Hypothesis P_undefined : P (VUndefined Other).
Hypothesis P_string : forall s, P (VString Other s).
Hypothesis P_buffer : forall b, P (VBuffer Other b).
Hypothesis P_vsbuffer : forall b, P (VVSBuffer Other b).
Hypothesis P_array : forall elements, Forall P elements -> P (VArray elements).
Hypothesis P_other : forall o, P (VOther o).

Fixpoint Value_nested_ind (v : Value) : P v :=
  match v with
  | VUndefined _ => P_undefined
  | VString _ s => P_string s
  | VBuffer _ b => P_buffer b
  | VVSBuffer _ b => P_vsbuffer b
  | VArray elements =>
      P_array
        ((fix all (l : list Value) : Forall P l :=
            match l with
            | [] => Forall_nil P
            | x :: r => Forall_cons x (Value_nested_ind x) (all r)
            end) elements)
  | VOther o => P_other o
  end.
End ValueInduction.

Lemma buffer_write (w : BufferWriter.t) (b : VSBuffer.t) :
  BufferWriter.buffer (BufferWriter.write w b) = BufferWriter.buffer w ++ b.
Proof.
  unfold BufferWriter.buffer, BufferWriter.write, VSBuffer.concat. simpl.
  rewrite concat_app. simpl. rewrite app_nil_r. reflexivity.
Qed.

Lemma fold_serialize_buffer (elements : list Value) :
  Forall (fun v => forall w, BufferWriter.buffer (serialize w v)
                             = BufferWriter.buffer w ++ encode v) elements ->
  forall w, BufferWriter.buffer (fold_left serialize elements w)
            = BufferWriter.buffer w ++ List.concat (map encode elements).
Proof.
  induction 1 as [|v l Hv _ IH]; intros w; simpl.
  - rewrite app_nil_r. reflexivity.
  - rewrite IH, Hv, <- app_assoc. reflexivity.
Qed.

Lemma serialize_buffer (v : Value) (w : BufferWriter.t) :
  BufferWriter.buffer (serialize w v) = BufferWriter.buffer w ++ encode v.
Proof.
  revert w. induction v as [|s|b|b|elements IH|o] using Value_nested_ind; intros w;
    unfold encode; simpl; rewrite ?buffer_write, ?fold_serialize_buffer by exact IH;
    rewrite ?buffer_write, <- ?app_assoc; reflexivity.
Qed.

Lemma encode_array (elements : list Value) :
  encode (VArray elements)
  = BufferPresets.Array ++ createSizeBuffer (N.of_nat (List.length elements))
      ++ List.concat (map encode elements).
Proof.
  unfold encode at 1. simpl.
  rewrite fold_serialize_buffer by (apply Forall_forall; intros; apply serialize_buffer).
  rewrite !buffer_write. reflexivity.
Qed.

(** Reading a chunk that sits at the reader's position. *)
Lemma read_chunk (r : BufferReader.t) (pre chunk rest : VSBuffer.t) (n : N) :
  BufferReader.buffer r = pre ++ chunk ++ rest ->
  BufferReader.pos r = List.length pre ->
  n = N.of_nat (List.length chunk) ->
  BufferReader.read r (Int n)
  = (chunk, BufferReader.mk (BufferReader.buffer r)
              (BufferReader.pos r + List.length chunk)).
Proof.
  intros Hb Hp ->. unfold BufferReader.read, BufferReader.offset, VSBuffer.slice.
  replace (N.to_nat (N.of_nat (BufferReader.pos r) + N.of_nat (List.length chunk))
           - BufferReader.pos r) with (List.length chunk) by lia.
  rewrite Hb, Hp, skipn_app, skipn_all, Nat.sub_diag. simpl.
  rewrite firstn_app, firstn_all, Nat.sub_diag. simpl. rewrite app_nil_r.
  reflexivity.
Qed.

Lemma readSizeBuffer_chunk (r : BufferReader.t) (pre rest : VSBuffer.t) (n : N) :
  BufferReader.buffer r = pre ++ createSizeBuffer n ++ rest ->
  BufferReader.pos r = List.length pre ->
  fits n ->
  readSizeBuffer r
  = (Int n, BufferReader.mk (BufferReader.buffer r) (BufferReader.pos r + 4)).
Proof.
  intros Hb Hp Hn. unfold readSizeBuffer.
  rewrite (read_chunk r pre (createSizeBuffer n) rest Hb Hp) by reflexivity.
  unfold createSizeBuffer.
  rewrite <- (app_nil_r (VSBuffer.writeUInt32BE n)) at 1.
  rewrite readUInt32BE_writeUInt32BE by exact Hn. reflexivity.
Qed.

(** The reader just after a chunk: same buffer, the chunk joined to the
    prefix. *)
Lemma advance (r : BufferReader.t) (pre chunk rest : VSBuffer.t) :
  BufferReader.buffer r = pre ++ chunk ++ rest ->
  BufferReader.pos r = List.length pre ->
  let r' := BufferReader.mk (BufferReader.buffer r)
              (BufferReader.pos r + List.length chunk) in
  BufferReader.buffer r' = (pre ++ chunk) ++ rest
  /\ BufferReader.pos r' = List.length (pre ++ chunk).
Proof.
  intros Hb Hp. simpl. rewrite Hb, Hp, length_app, <- app_assoc. auto.
Qed.

(** The header of a sized value: its tag, then its size. *)
Lemma read_header (r : BufferReader.t) (pre rest : VSBuffer.t) (d : DataType) (n : N) :
  BufferReader.buffer r = pre ++ (createOneByteBuffer (DataType_code d)
                                    ++ createSizeBuffer n) ++ rest ->
  BufferReader.pos r = List.length pre ->
  fits n ->
  exists r1 r2,
    BufferReader.read r (Int 1) = (createOneByteBuffer (DataType_code d), r1)
    /\ readSizeBuffer r1 = (Int n, r2)
    /\ r2 = BufferReader.mk (BufferReader.buffer r) (BufferReader.pos r + 5)
    /\ BufferReader.buffer r2 = (pre ++ createOneByteBuffer (DataType_code d)
                                   ++ createSizeBuffer n) ++ rest
    /\ BufferReader.pos r2 = List.length (pre ++ createOneByteBuffer (DataType_code d)
                                            ++ createSizeBuffer n).
Proof.
  intros Hb Hp Hn. rewrite <- app_assoc in Hb.
  pose proof (read_chunk r pre (createOneByteBuffer (DataType_code d)) _ Hb Hp eq_refl) as R1.
  destruct (advance r pre (createOneByteBuffer (DataType_code d)) _ Hb Hp) as [Hb1 Hp1].
  pose proof (readSizeBuffer_chunk _ _ _ Hb1 Hp1 Hn) as R2.
  eexists _, _. split; [exact R1|]. split; [exact R2|].
  simpl. rewrite Hb, Hp, !length_app. simpl.
  repeat split; try (f_equal; lia); try lia.
  rewrite <- !app_assoc. reflexivity.
Qed.

Lemma tag_of_code (d : DataType) :
  VSBuffer.readUInt8 (createOneByteBuffer (DataType_code d)) = Some (DataType_code d)
  /\ DataType_of_code (DataType_code d) = Some d.
Proof. destruct d; split; reflexivity. Qed.

(** A tag, the size of a payload, the payload: what [serialize] writes for
    a string, a buffer and a JSON text. *)
Definition sized (d : DataType) (payload : VSBuffer.t) : VSBuffer.t :=
  (createOneByteBuffer (DataType_code d)
     ++ createSizeBuffer (VSBuffer.byteLength payload)) ++ payload.

Lemma encode_sized :
  (forall s, encode (VString Other s) = sized String_ (fromString s))
  /\ (forall b, encode (VVSBuffer Other b) = sized VSBuffer_ b)
  /\ (forall o, encode (VOther o) = sized Object (fromString (JSON_stringify o))).
Proof.
  repeat split; intros; unfold encode, sized; simpl;
    rewrite !buffer_write; reflexivity.
Qed.

Lemma read_sized (r : BufferReader.t) (pre rest payload : VSBuffer.t) (d : DataType) :
  BufferReader.buffer r = pre ++ sized d payload ++ rest ->
  BufferReader.pos r = List.length pre ->
  fits (VSBuffer.byteLength payload) ->
  exists r1 r2,
    BufferReader.read r (Int 1) = (createOneByteBuffer (DataType_code d), r1)
    /\ readSizeBuffer r1 = (Int (VSBuffer.byteLength payload), r2)
    /\ BufferReader.read r2 (Int (VSBuffer.byteLength payload))
       = (payload, BufferReader.mk (BufferReader.buffer r)
                     (BufferReader.pos r + List.length (sized d payload))).
Proof.
  intros Hb Hp Hn. unfold sized in Hb. rewrite <- (app_assoc _ payload rest) in Hb.
  destruct (read_header r pre (payload ++ rest) d Hb Hp Hn)
    as (r1 & r2 & R1 & R2 & -> & Hb2 & Hp2).
  exists r1, (BufferReader.mk (BufferReader.buffer r) (BufferReader.pos r + 5)).
  split; [exact R1|]. split; [exact R2|].
  rewrite (read_chunk _ _ payload rest Hb2 Hp2) by reflexivity.
  cbn [BufferReader.buffer BufferReader.pos]. unfold sized. rewrite !length_app.
  simpl. do 2 f_equal. lia.
Qed.

Lemma depth_elements (elements : list Value) (f : nat) :
  depth (VArray elements) < S f -> forall el, In el elements -> depth el < f.
Proof.
  simpl. induction elements as [|x l IH]; simpl; intros Hd el Hin; [tauto|].
  destruct Hin as [->|Hin]; [lia|]. apply IH; [lia|exact Hin].
Qed.

(** What the round trip says of one value, at any place of a buffer. *)
Definition reads_back (v : Value) : Prop :=
  Representable v ->
  forall fuel r pre rest,
    depth v < fuel ->
    BufferReader.buffer r = pre ++ encode v ++ rest ->
    BufferReader.pos r = List.length pre ->
    deserialize_fuel fuel r
    = Return (v, BufferReader.mk (BufferReader.buffer r)
                   (BufferReader.pos r + List.length (encode v))).

Lemma for_loop_encode (f : nat) (elements : list Value) :
  Forall reads_back elements ->
  fold_right (fun el rest => Representable el /\ rest) True elements ->
  (forall el, In el elements -> depth el < f) ->
  forall acc r pre rest,
    BufferReader.buffer r = pre ++ List.concat (map encode elements) ++ rest ->
    BufferReader.pos r = List.length pre ->
    for_loop (deserialize_fuel f) (List.length elements) acc r
    = Return (acc ++ elements,
              BufferReader.mk (BufferReader.buffer r)
                (BufferReader.pos r + List.length (List.concat (map encode elements)))).
Proof.
  induction 1 as [|v l Hv _ IH]; intros Hrep Hdepth acc r pre rest Hb Hp; simpl.
  - rewrite app_nil_r, Nat.add_0_r. destruct r; reflexivity.
  - destruct Hrep as [Hrv Hrl]. simpl in Hb. rewrite <- app_assoc in Hb.
    rewrite (Hv Hrv f r pre _ (Hdepth v (or_introl eq_refl)) Hb Hp).
    destruct (advance r pre (encode v) _ Hb Hp) as [Hb' Hp'].
    rewrite (IH Hrl (fun el Hin => Hdepth el (or_intror Hin)) _ _ _ _ Hb' Hp').
    simpl. rewrite <- app_assoc, length_app, Nat.add_assoc. reflexivity.
Qed.

(** The equation of [deserialize_fuel] with fuel left. *)
Lemma deserialize_fuel_S (f : nat) (reader : BufferReader.t) :
  deserialize_fuel (S f) reader =
  let (tag, reader) := BufferReader.read reader (Int 1) in
  match VSBuffer.readUInt8 tag with
  | None => Return (VUndefined Other, reader)
  | Some type =>
      match DataType_of_code type with
      | Some Undefined => Return (VUndefined Other, reader)
      | Some String_ =>
          let (size, reader) := readSizeBuffer reader in
          let (b, reader) := BufferReader.read reader size in
          Return (VString Other (toString b), reader)
      | Some Buffer =>
          let (size, reader) := readSizeBuffer reader in
          let (b, reader) := BufferReader.read reader size in
          Return (VBuffer Other b, reader)
      | Some VSBuffer_ =>
          let (size, reader) := readSizeBuffer reader in
          let (b, reader) := BufferReader.read reader size in
          Return (VVSBuffer Other b, reader)
      | Some Array =>
          let (length, reader) := readSizeBuffer reader in
          match for_loop (deserialize_fuel f) (iterations length) [] reader with
          | Return (result, reader) => Return (VArray result, reader)
          | Throw => Throw
          | Exhausted => Exhausted
          end
      | Some Object =>
          let (size, reader) := readSizeBuffer reader in
          let (b, reader) := BufferReader.read reader size in
          match JSON_parse (toString b) with
          | Some o => Return (VOther o, reader)
          | None => Throw
          end
      | None => Return (VUndefined Other, reader)
      end
  end.
Proof. reflexivity. Qed.

Lemma deserialize_fuel_encode (v : Value) : reads_back v.
Proof.
  induction v as [|s|b|b|elements IH|o] using Value_nested_ind;
    intros Hrep fuel r pre rest Hfuel Hb Hp;
    (destruct fuel as [|f]; [lia|]).
  - change (encode (VUndefined Other)) with (createOneByteBuffer (DataType_code Undefined)) in *.
    rewrite deserialize_fuel_S, (read_chunk r pre _ rest Hb Hp) by reflexivity.
    reflexivity.
  - destruct Hrep as [Hutf Hfit].
    rewrite (proj1 encode_sized) in *.
    destruct (read_sized r pre rest _ _ Hb Hp Hfit) as (r1 & r2 & R1 & R2 & R3).
    rewrite deserialize_fuel_S, R1, (proj1 (tag_of_code _)). cbn iota beta.
    rewrite (proj2 (tag_of_code _)), R2, R3, Hutf. reflexivity.
  - destruct Hrep.
  - simpl in Hrep.
    rewrite (proj1 (proj2 encode_sized)) in *.
    destruct (read_sized r pre rest _ _ Hb Hp Hrep) as (r1 & r2 & R1 & R2 & R3).
    rewrite deserialize_fuel_S, R1, (proj1 (tag_of_code _)). cbn iota beta.
    rewrite (proj2 (tag_of_code _)), R2, R3. reflexivity.
  - destruct Hrep as [Hall Hfit].
    rewrite encode_array in *.
    assert (Hb' : BufferReader.buffer r
                  = pre ++ (createOneByteBuffer (DataType_code Array)
                              ++ createSizeBuffer (N.of_nat (List.length elements)))
                      ++ List.concat (map encode elements) ++ rest)
      by (rewrite Hb, <- !app_assoc; reflexivity).
    destruct (read_header r pre _ Array Hb' Hp Hfit)
      as (r1 & r2 & R1 & R2 & -> & Hb2 & Hp2).
    rewrite deserialize_fuel_S, R1, (proj1 (tag_of_code _)). cbn iota beta.
    rewrite (proj2 (tag_of_code _)), R2.
    unfold iterations. rewrite Nat2N.id.
    rewrite (for_loop_encode IH Hall (depth_elements Hfuel) [] _ _ _ Hb2 Hp2).
    cbn [BufferReader.buffer BufferReader.pos app]. rewrite !length_app.
    simpl. do 3 f_equal. lia.
  - destruct Hrep as [Hjson Hfit].
    rewrite (proj2 (proj2 encode_sized)) in *.
    destruct (read_sized r pre rest _ _ Hb Hp Hfit) as (r1 & r2 & R1 & R2 & R3).
    rewrite deserialize_fuel_S, R1, (proj1 (tag_of_code _)). cbn iota beta.
    rewrite (proj2 (tag_of_code _)), R2, R3, Hjson. reflexivity.
Qed.

(** *** The recursion budget of [deserialize] is enough *)

Lemma read_remaining (r : BufferReader.t) (n : Num) :
  BufferReader.remaining (snd (BufferReader.read r n)) <= BufferReader.remaining r
  /\ (fst (BufferReader.read r n) <> [] ->
      BufferReader.remaining (snd (BufferReader.read r n)) < BufferReader.remaining r).
Proof.
  unfold BufferReader.read, BufferReader.remaining. cbn [fst snd BufferReader.buffer BufferReader.pos].
  set (result := VSBuffer.slice (BufferReader.buffer r) (BufferReader.pos r)
                   (BufferReader.offset (BufferReader.pos r) n)).
  assert (Hlen : List.length result
                 <= List.length (BufferReader.buffer r) - BufferReader.pos r).
  { subst result. unfold VSBuffer.slice.
    destruct (BufferReader.offset (BufferReader.pos r) n); simpl; [lia|].
    rewrite length_firstn, length_skipn. lia. }
  split; [lia|]. intros Hne.
  destruct result; [congruence|]. simpl in *. lia.
Qed.

Lemma readSizeBuffer_remaining (r : BufferReader.t) :
  BufferReader.remaining (snd (readSizeBuffer r)) <= BufferReader.remaining r.
Proof.
  unfold readSizeBuffer.
  pose proof (read_remaining r (Int 4)) as [H _].
  destruct (BufferReader.read r (Int 4)). exact H.
Qed.

(** A call that stays within its budget and never moves the reader back. *)
Definition progresses (bound : nat)
    (body : BufferReader.t -> Completion (Value * BufferReader.t)) : Prop :=
  forall r, BufferReader.remaining r < bound ->
    body r <> Exhausted
    /\ forall v r', body r = Return (v, r') ->
         BufferReader.remaining r' <= BufferReader.remaining r.

Lemma for_loop_progress (bound : nat)
    (body : BufferReader.t -> Completion (Value * BufferReader.t)) :
  progresses bound body ->
  forall count acc r, BufferReader.remaining r < bound ->
    for_loop body count acc r <> Exhausted
    /\ forall l r', for_loop body count acc r = Return (l, r') ->
         BufferReader.remaining r' <= BufferReader.remaining r.
Proof.
  intros Hbody. induction count as [|count IH]; intros acc r Hr; simpl.
  - split; [discriminate|]. intros l r' [= _ <-]. lia.
  - destruct (Hbody r Hr) as [Hne Hmono].
    destruct (body r) as [[el r1]| |] eqn:E; [|split; discriminate|congruence].
    specialize (Hmono el r1 eq_refl).
    destruct (IH (acc ++ [el]) r1 ltac:(lia)) as [Hne' Hmono'].
    split; [exact Hne'|]. intros l r' Hl. specialize (Hmono' l r' Hl). lia.
Qed.

Lemma deserialize_fuel_progress (fuel : nat) : progresses fuel (deserialize_fuel fuel).
Proof.
  induction fuel as [|f IH]; intros r Hr; [lia|].
  rewrite deserialize_fuel_S.
  pose proof (read_remaining r (Int 1)) as [Hle Hlt].
  destruct (BufferReader.read r (Int 1)) as [tag r1]. cbn [fst snd] in *.
  destruct (VSBuffer.readUInt8 tag) as [type|] eqn:Etag.
  2:{ split; [discriminate|]. intros v r' [= _ <-]. exact Hle. }
  assert (Hr1 : BufferReader.remaining r1 < f).
  { assert (tag <> []) by (destruct tag; [discriminate|congruence]).
    specialize (Hlt H). lia. }
  pose proof (readSizeBuffer_remaining r1) as Hsize.
  destruct (DataType_of_code type) as [[| | | | |]|];
    try (split; [discriminate|]; intros v r' [= _ <-]; exact Hle);
    destruct (readSizeBuffer r1) as [size r2]; cbn [snd] in Hsize.
  1-3: pose proof (read_remaining r2 size) as [Hle3 _];
       destruct (BufferReader.read r2 size) as [b r3]; cbn [snd] in Hle3;
       split; [discriminate|]; intros v r' [= _ <-]; lia.
  - destruct (for_loop_progress IH (iterations size) [] r2 ltac:(lia)) as [Hne Hmono].
    destruct (for_loop (deserialize_fuel f) (iterations size) [] r2)
      as [[l r3]| |]; [|split; discriminate|congruence].
    split; [discriminate|]. intros v r' [= _ <-]. specialize (Hmono l r3 eq_refl). lia.
  - pose proof (read_remaining r2 size) as [Hle3 _].
    destruct (BufferReader.read r2 size) as [b r3]. cbn [snd] in Hle3.
    destruct (JSON_parse (toString b)); split; try discriminate.
    intros v r' [= _ <-]. lia.
Qed.

(** [deserialize] never stops for want of budget: it returns or throws. *)
Lemma deserialize_never_exhausted (reader : BufferReader.t) :
  deserialize JSON_parse toString reader <> Exhausted.
Proof.
  unfold deserialize. apply deserialize_fuel_progress. lia.
Qed.

Lemma depth_le_encode (v : Value) : depth v <= List.length (encode v).
Proof.
  induction v as [|s|b|b|elements IH|o] using Value_nested_ind; simpl; try lia.
  rewrite encode_array, !length_app. simpl.
  enough (fold_right (fun el d => Nat.max (depth el) d) 0 elements
          <= List.length (List.concat (map encode elements))) by lia.
  induction IH as [|x l Hx _ IHl]; simpl; [lia|].
  rewrite length_app. lia.
Qed.

Lemma DataType_of_code_unknown (n : N) : (5 < n)%N -> DataType_of_code n = None.
Proof.
  intros Hn. destruct n as [|p]; [lia|].
  do 3 (destruct p as [p|p|]; try reflexivity; try lia).
Qed.

Lemma read_tag (r : BufferReader.t) (tag : byte) (rest : VSBuffer.t) :
  skipn (BufferReader.pos r) (BufferReader.buffer r) = tag :: rest ->
  BufferReader.read r (Int 1)
  = ([tag], BufferReader.mk (BufferReader.buffer r) (BufferReader.pos r + 1)).
Proof.
  intros Hs. unfold BufferReader.read, BufferReader.offset, VSBuffer.slice.
  replace (N.to_nat (N.of_nat (BufferReader.pos r) + 1) - BufferReader.pos r) with 1 by lia.
  rewrite Hs. reflexivity.
Qed.

(** C8. For every value that is [undefined], a string, a [VSBuffer], an
    array of such values or a value representable in JSON, [deserialize]
    reads back from the bytes [serialize] wrote exactly that value, and
    leaves the reader just after them: whatever the writer held before and
    whatever follows in the buffer. *)
Theorem serialize_deserialize_roundtrip (v : Value) (w : BufferWriter.t) (rest : VSBuffer.t) :
  Representable v ->
  deserialize JSON_parse toString
    (BufferReader.mk (BufferWriter.buffer (serialize w v) ++ rest)
       (List.length (BufferWriter.buffer w)))
  = Return (v, BufferReader.mk (BufferWriter.buffer (serialize w v) ++ rest)
                 (List.length (BufferWriter.buffer (serialize w v)))).
Proof.
  intros Hrep. rewrite serialize_buffer, <- app_assoc. unfold deserialize.
  rewrite (deserialize_fuel_encode v Hrep _ (BufferWriter.buffer w) rest);
    try reflexivity.
  - cbn [BufferReader.buffer BufferReader.pos]. rewrite app_assoc, (length_app _ (encode v)).
    reflexivity.
  - unfold BufferReader.remaining. cbn [BufferReader.buffer BufferReader.pos].
    rewrite !length_app. pose proof (depth_le_encode v). lia.
Qed.

(** C10. [deserialize] is total over the type tag: when the byte at the
    reader's position is none of the six [DataType] values 0..5, it
    returns [undefined], having read that one byte, and does not throw. *)
Theorem deserialize_unknown_tag (reader : BufferReader.t) (tag : byte) (rest : VSBuffer.t) :
  skipn (BufferReader.pos reader) (BufferReader.buffer reader) = tag :: rest ->
  (5 < Byte.to_N tag)%N ->
  deserialize JSON_parse toString reader
  = Return (VUndefined Other,
            BufferReader.mk (BufferReader.buffer reader) (BufferReader.pos reader + 1)).
Proof.
  intros Hs Htag. unfold deserialize.
  rewrite deserialize_fuel_S, (read_tag _ Hs). cbn [VSBuffer.readUInt8].
  rewrite (DataType_of_code_unknown Htag). reflexivity.
Qed.

End CodecFacts.

Lemma serialize_deserialize_roundtrip_witness :
  let v := VArray [ VUndefined Sample.Other; VString _ "hi"; VVSBuffer _ [x01; x02];
                    VArray [VOther true]; VOther false ] in
  let bytes := BufferWriter.buffer
                 (serialize Sample.JSON_stringify Sample.fromString BufferWriter.new v) in
  deserialize Sample.JSON_parse Sample.toString (BufferReader.mk (bytes ++ []) 0)
  = Return (v, BufferReader.mk (bytes ++ []) (List.length bytes)).
Proof.
  cbv zeta.
  apply (serialize_deserialize_roundtrip Sample.JSON_stringify Sample.JSON_parse
           Sample.fromString Sample.toString).
  vm_compute. repeat split; reflexivity.
Defined.

(** The encoder and the decoder of [Utf8] on a text of one, two, three
    and four bytes a code point ("a", U+00E9, U+20AC, U+1F600), and the
    decoder on bytes that are no UTF-8. *)
Example utf8_text :
  let text := string_of_list_byte
                [x61; xc3; xa9; xe2; x82; xac; xf0; x9f; x98; x80] in
  Utf8.toString (Utf8.fromString text) = text
  /\ Utf8.toString [x61; xff; xc3]
     = string_of_list_byte ([x61] ++ Utf8.replacement ++ Utf8.replacement).
Proof. vm_compute. split; reflexivity. Qed.

(** C8 fails as stated: a string is not given back when it holds a lone
    surrogate. The string of the one code unit U+D800 is serialized as
    the three bytes of U+FFFD, and deserialized as the string U+FFFD. *)
Lemma lone_surrogate_is_not_given_back :
  let v := VString Sample.Other Utf8.loneSurrogate in
  let bytes := encode Sample.JSON_stringify Utf8.fromString v in
  bytes = [x01; x00; x00; x00; x03; xef; xbf; xbd]
  /\ deserialize Sample.JSON_parse Utf8.toString (BufferReader.new bytes)
     = Return (VString Sample.Other (string_of_list_byte Utf8.replacement),
               BufferReader.mk bytes 8)
  /\ VString Sample.Other (string_of_list_byte Utf8.replacement) <> v.
Proof. vm_compute. repeat split; try reflexivity. discriminate. Qed.

Lemma deserialize_unknown_tag_witness :
  deserialize Sample.JSON_parse Sample.toString (BufferReader.new [xff; x01; x02])
  = Return (VUndefined Sample.Other, BufferReader.mk [xff; x01; x02] 1).
Proof.
  apply (deserialize_unknown_tag Sample.JSON_parse Sample.toString
           (BufferReader.new [xff; x01; x02]) (tag := xff) (rest := [x01; x02])).
  - reflexivity.
  - vm_compute. reflexivity.
Defined.

(** ** ChannelServer *)

Section ServerFacts.

Context {Any Channel TContext Number : Type}.
Context {numbers : JsNumber Number} {payloads : Serializes Any}
  {services : IServerChannel Channel TContext Any}.

Abbreviation ChannelServer := (Server.ChannelServer Any Channel TContext Number).

(** The message of the [PromiseError] sent for a request that timed out. *)
Definition timedOut (request : IRawChannelRequest Any) (timeoutDelay : Number)
    : ErrorData Any :=
  mkErrorData
    ("Channel name '" ++ channelName request ++ "' timed out after "
       ++ numberToString timeoutDelay ++ "ms")
    "Unknown channel" StackUndefined.

(** Projections of a record that was just built, and the setters. *)
Ltac server_fields :=
  cbn [Server.channels Server.activeRequests Server.protocolListener
       Server.pendingRequests Server.ctx Server.timeoutDelay Server.timers
       Server.nextTimer Server.trace Server.callback Server.delay
       Server.request Server.timeoutTimer Server.state_of fst snd] in *.

Ltac server_unfold :=
  unfold Server.sendResponse, Server.emit, Server.clearTimeout, Server.setTimeout,
    Server.set_timers, Server.set_channels, Server.set_activeRequests,
    Server.set_protocolListener, Server.set_pendingRequests in *.

Lemma dispose_all (l : list Server.IDisposable) (s : ChannelServer) :
  fold_left (fun s d => Server.emit (Server.Disposed d) s) l s
  = Server.mkChannelServer (Server.channels s) (Server.activeRequests s)
      (Server.protocolListener s) (Server.pendingRequests s) (Server.ctx s)
      (Server.timeoutDelay s) (Server.timers s) (Server.nextTimer s)
      (Server.trace s ++ map (fun d => Server.Disposed d) l).
Proof.
  revert s. induction l as [|d l IH]; intros s; simpl.
  - rewrite app_nil_r. destruct s; reflexivity.
  - rewrite IH. simpl. rewrite <- app_assoc. reflexivity.
Qed.

(** The timeout of a queued [Promise] request logs and answers with the
    [PromiseError], and touches nothing but the timer that fired. *)
Lemma fireTimer_timeout (s : ChannelServer) (timer : N) (d : Number)
    (request : IRawChannelRequest Any) :
  JsMap.get timer (Server.timers s)
  = Some (Server.mkTimer (Server.PendingRequestTimeout request) d) ->
  type request = Promise ->
  Server.fireTimer timer s
  = Server.mkChannelServer (Server.channels s) (Server.activeRequests s)
      (Server.protocolListener s) (Server.pendingRequests s) (Server.ctx s)
      (Server.timeoutDelay s) (JsMap.delete timer (Server.timers s)) (Server.nextTimer s)
      (Server.trace s
         ++ [ Server.ConsoleError ("Unknown channel: " ++ channelName request);
              Server.Send (IRawPromiseErrorResponse (id request)
                             (timedOut request (Server.timeoutDelay s))) ]).
Proof.
  intros Ht Hp. unfold Server.fireTimer. rewrite Ht. server_fields.
  unfold Server.onPendingTimeout. rewrite Hp. unfold Server.sendResponse.
  cbn [Server.serializable stack]. server_unfold. server_fields.
  rewrite <- app_assoc. reflexivity.
Qed.

(** What the loop of [flushPendingRequests] keeps: the registry and the
    context; and it only adds to the trace. *)
Definition extends (s s' : ChannelServer) : Prop :=
  Server.channels s' = Server.channels s
  /\ Server.ctx s' = Server.ctx s
  /\ exists more, Server.trace s' = Server.trace s ++ more.

Lemma extends_refl (s : ChannelServer) : extends s s.
Proof. repeat split. exists []. rewrite app_nil_r. reflexivity. Qed.

Lemma extends_trans (s1 s2 s3 : ChannelServer) :
  extends s1 s2 -> extends s2 s3 -> extends s1 s3.
Proof.
  intros (Hc & Hx & m & Ht) (Hc' & Hx' & m' & Ht'). repeat split; try congruence.
  exists (m ++ m'). rewrite Ht', Ht, app_assoc. reflexivity.
Qed.

Lemma collectPendingRequest_extends (request : IRawChannelRequest Any) (s : ChannelServer) :
  extends s (Server.collectPendingRequest request s).
Proof. repeat split. exists []. simpl. rewrite app_nil_r. reflexivity. Qed.

Lemma onPromise_extends (request : IRawChannelRequest Any) (s : ChannelServer) :
  extends s (Server.onPromise request s).
Proof.
  unfold Server.onPromise.
  destruct (JsMap.get (channelName request) (Server.channels s)).
  - repeat split. eexists. reflexivity.
  - apply collectPendingRequest_extends.
Qed.

Lemma onEventListen_extends (request : IRawChannelRequest Any) (s : ChannelServer) :
  extends s (Server.state_of (Server.onEventListen request s)).
Proof.
  unfold Server.onEventListen.
  destruct (JsMap.get (channelName request) (Server.channels s)) as [channel|].
  - destruct (listens channel (Server.ctx s) (name request) (arg request)).
    + repeat split. eexists. reflexivity.
    + apply extends_refl.
  - apply collectPendingRequest_extends.
Qed.

(** The loop of [flushPendingRequests] keeps the registry and the context,
    and only adds to the trace, however it ends. *)
Lemma flushLoop_extends (requests : list (Server.PendingRequest Any)) (s : ChannelServer) :
  extends s (Server.state_of (Server.flushLoop requests s)).
Proof.
  revert s. induction requests as [|p l IH]; intros s; cbn [Server.flushLoop];
    [apply extends_refl|].
  assert (Hc : extends s (Server.clearTimeout (Server.timeoutTimer p) s))
    by (repeat split; exists []; simpl; rewrite app_nil_r; reflexivity).
  eapply extends_trans; [exact Hc|].
  destruct (type (Server.request p)); try apply IH.
  - eapply extends_trans; [apply onPromise_extends|apply IH].
  - pose proof (onEventListen_extends (Server.request p)
                  (Server.clearTimeout (Server.timeoutTimer p) s)) as He.
    destruct (Server.onEventListen (Server.request p)
                (Server.clearTimeout (Server.timeoutTimer p) s)) as [s'|s'];
      cbn [Server.state_of] in *; [|exact He].
    eapply extends_trans; [exact He|apply IH].
Qed.

Lemma flushPendingRequests_queue (channelName : string) (s : ChannelServer)
    (requests : list (Server.PendingRequest Any)) :
  JsMap.get channelName (Server.pendingRequests s) = Some requests ->
  Server.flushPendingRequests channelName s
  = match Server.flushLoop requests s with
    | Server.Done s' =>
        Server.Done
          (Server.set_pendingRequests (JsMap.delete channelName (Server.pendingRequests s')) s')
    | Server.Threw s' => Server.Threw s'
    end.
Proof. intros Hq. unfold Server.flushPendingRequests. rewrite Hq. reflexivity. Qed.

(** C4, as the code has it. After [dispose()] the transport listener is
    detached ([protocolListener] is [null]), every active-request handle
    has been disposed, in the order of the map, and [activeRequests] is
    empty. Nothing else is cleared: the channel registry, the pending
    queue and the armed timers are as they were. *)
Theorem dispose_clears_active_requests_only (s : ChannelServer) :
  let s' := Server.dispose s in
  Server.protocolListener s' = None
  /\ Server.trace s'
     = Server.trace s
         ++ match Server.protocolListener s with
            | Some listener => [Server.Disposed listener]
            | None => []
            end
         ++ map (fun d => Server.Disposed d) (JsMap.values (Server.activeRequests s))
  /\ Server.activeRequests s' = JsMap.empty
  /\ Server.channels s' = Server.channels s
  /\ Server.pendingRequests s' = Server.pendingRequests s
  /\ Server.timers s' = Server.timers s.
Proof.
  cbv zeta. unfold Server.dispose.
  destruct (Server.protocolListener s) as [listener|] eqn:El;
    rewrite dispose_all; server_unfold; server_fields;
    rewrite ?El, <- ?app_assoc; repeat split; reflexivity.
Qed.

(** *** A queued request keeps its timer until its channel is registered *)

(** Properties of all entries of a map survive [set] and [delete]. *)
Lemma all_set {K V : Type} `{KeyEq K} (P : K -> V -> Prop) (m : JsMap.t K V) (k0 : K) (v0 : V) :
  (forall k v, JsMap.get k m = Some v -> P k v) ->
  P k0 v0 ->
  forall k v, JsMap.get k (JsMap.set k0 v0 m) = Some v -> P k v.
Proof.
  intros Hm H0 k v. destruct (key_eq_dec k k0) as [->|Hne].
  - rewrite get_set_eq. intros [= <-]. exact H0.
  - rewrite get_set_ne by exact Hne. apply Hm.
Qed.

Lemma all_delete {K V : Type} `{KeyEq K} (P : K -> V -> Prop) (m : JsMap.t K V) (k0 : K) :
  (forall k v, JsMap.get k m = Some v -> P k v) ->
  forall k v, JsMap.get k (JsMap.delete k0 m) = Some v -> P k v.
Proof.
  intros Hm k v. destruct (key_eq_dec k k0) as [->|Hne].
  - rewrite get_delete_eq. discriminate.
  - rewrite get_delete_ne by exact Hne. apply Hm.
Qed.

(** The state of the queue and of the timers: every queued entry got its
    timer handle from [setTimeout], so it is below the next handle; a
    flush is only scheduled for a channel that is registered. *)
Definition wellQueued (s : ChannelServer) : Prop :=
  (forall name q, JsMap.get name (Server.pendingRequests s) = Some q ->
     forall e, In e q -> (Server.timeoutTimer e < Server.nextTimer s)%N)
  /\ (forall t tm, JsMap.get t (Server.timers s) = Some tm ->
        forall name, Server.callback tm = Server.FlushPendingRequests name ->
        JsMap.get name (Server.channels s) <> None).

(** The request [r] waits for its channel with the timer [t0]: the timer
    is armed with the timeout of [r], the channel is not registered, no
    flush is scheduled for it, and no queue of another channel holds an
    entry with that timer. *)
Definition awaiting (t0 : N) (r : IRawChannelRequest Any) (s : ChannelServer) : Prop :=
  JsMap.get t0 (Server.timers s)
  = Some (Server.mkTimer (Server.PendingRequestTimeout r) (Server.timeoutDelay s))
  /\ (t0 < Server.nextTimer s)%N
  /\ JsMap.get (channelName r) (Server.channels s) = None
  /\ (forall t tm, JsMap.get t (Server.timers s) = Some tm ->
        forall name, Server.callback tm = Server.FlushPendingRequests name ->
        name <> channelName r)
  /\ (forall name q, JsMap.get name (Server.pendingRequests s) = Some q ->
        forall e, In e q -> Server.timeoutTimer e = t0 -> name = channelName r).

(** What dispatching a request does to the registry, the queue and the
    timers: nothing, or the request is queued with a fresh timer. *)
Definition keeps (s s' : ChannelServer) : Prop :=
  Server.channels s' = Server.channels s
  /\ Server.timeoutDelay s' = Server.timeoutDelay s
  /\ Server.timers s' = Server.timers s
  /\ Server.nextTimer s' = Server.nextTimer s
  /\ Server.pendingRequests s' = Server.pendingRequests s.

Definition queues (r : IRawChannelRequest Any) (s s' : ChannelServer) : Prop :=
  Server.channels s' = Server.channels s
  /\ Server.timeoutDelay s' = Server.timeoutDelay s
  /\ Server.timers s'
     = JsMap.set (Server.nextTimer s)
         (Server.mkTimer (Server.PendingRequestTimeout r) (Server.timeoutDelay s))
         (Server.timers s)
  /\ Server.nextTimer s' = (Server.nextTimer s + 1)%N
  /\ Server.pendingRequests s'
     = JsMap.set (channelName r)
         (match JsMap.get (channelName r) (Server.pendingRequests s) with
          | Some queued => queued
          | None => []
          end ++ [Server.mkPendingRequest r (Server.nextTimer s)])
         (Server.pendingRequests s).

Lemma keeps_refl (s : ChannelServer) : keeps s s.
Proof. repeat split. Qed.

Lemma collectPendingRequest_queues (r : IRawChannelRequest Any) (s : ChannelServer) :
  queues r s (Server.collectPendingRequest r s).
Proof. repeat split. Qed.

Lemma onPromise_effect (r : IRawChannelRequest Any) (s : ChannelServer) :
  keeps s (Server.onPromise r s) \/ queues r s (Server.onPromise r s).
Proof.
  unfold Server.onPromise. destruct (JsMap.get (channelName r) (Server.channels s)).
  - left. repeat split.
  - right. apply collectPendingRequest_queues.
Qed.

Lemma onEventListen_effect (r : IRawChannelRequest Any) (s : ChannelServer) :
  keeps s (Server.state_of (Server.onEventListen r s))
  \/ queues r s (Server.state_of (Server.onEventListen r s)).
Proof.
  unfold Server.onEventListen.
  destruct (JsMap.get (channelName r) (Server.channels s)) as [channel|].
  - left. destruct (listens channel (Server.ctx s) (name r) (arg r)); repeat split.
  - right. apply collectPendingRequest_queues.
Qed.

(** What dispatching and queueing keep, the loop of
    [flushPendingRequests] keeps, however it ends: [P] is a property of
    the server that survives the [clearTimeout] of the entries of the
    queue. *)
Lemma flushLoop_keeps (P : ChannelServer -> Prop) (Q : Server.PendingRequest Any -> Prop) :
  (forall e s, Q e -> P s -> P (Server.clearTimeout (Server.timeoutTimer e) s)) ->
  (forall s s', keeps s s' -> P s -> P s') ->
  (forall r s s', queues r s s' -> P s -> P s') ->
  forall requests s,
    (forall e, In e requests -> Q e) -> P s ->
    P (Server.state_of (Server.flushLoop requests s)).
Proof.
  intros Hclear Hkeeps Hqueues. induction requests as [|e l IH]; intros s HQ HP;
    cbn [Server.flushLoop Server.state_of]; [exact HP|].
  assert (HP' : P (Server.clearTimeout (Server.timeoutTimer e) s))
    by (apply Hclear; [apply HQ; left; reflexivity|exact HP]).
  assert (HQ' : forall e', In e' l -> Q e') by (intros e' He'; apply HQ; right; exact He').
  destruct (type (Server.request e)); try (apply IH; assumption).
  - apply IH; [exact HQ'|].
    destruct (onPromise_effect (Server.request e)
                (Server.clearTimeout (Server.timeoutTimer e) s)); eauto.
  - pose proof (onEventListen_effect (Server.request e)
                  (Server.clearTimeout (Server.timeoutTimer e) s)) as He.
    destruct (Server.onEventListen (Server.request e)
                (Server.clearTimeout (Server.timeoutTimer e) s)) as [s'|s'];
      cbn [Server.state_of] in *.
    + apply IH; [exact HQ'|]. destruct He; eauto.
    + destruct He; eauto.
Qed.

Lemma wellQueued_keeps (s s' : ChannelServer) : keeps s s' -> wellQueued s -> wellQueued s'.
Proof.
  intros (Hc & _ & Ht & Hn & Hp) [H1 H2]. unfold wellQueued.
  rewrite Hc, Ht, Hn, Hp. split; assumption.
Qed.

Lemma awaiting_keeps (t0 : N) (r : IRawChannelRequest Any) (s s' : ChannelServer) :
  keeps s s' -> awaiting t0 r s -> awaiting t0 r s'.
Proof.
  intros (Hc & Hd & Ht & Hn & Hp) H. unfold awaiting.
  rewrite Hc, Hd, Ht, Hn, Hp. exact H.
Qed.

Lemma wellQueued_queues (r : IRawChannelRequest Any) (s s' : ChannelServer) :
  queues r s s' -> wellQueued s -> wellQueued s'.
Proof.
  intros (Hc & _ & Ht & Hn & Hp) [H1 H2]. unfold wellQueued.
  rewrite Hc, Ht, Hn, Hp. split.
  - apply (all_set (fun _ q => forall e, In e q -> (Server.timeoutTimer e < _)%N)).
    + intros name q Hq e He. specialize (H1 name q Hq e He). lia.
    + intros e He. apply in_app_or in He. destruct He as [He|[<-|[]]].
      * destruct (JsMap.get (channelName r) (Server.pendingRequests s)) as [q|] eqn:Eq;
          [|destruct He]. specialize (H1 _ _ Eq e He). lia.
      * simpl. lia.
  - apply (all_set (fun _ tm => forall name, Server.callback tm = _ -> _)).
    + exact H2.
    + intros name. discriminate.
Qed.

Lemma awaiting_queues (t0 : N) (r r' : IRawChannelRequest Any) (s s' : ChannelServer) :
  queues r' s s' -> awaiting t0 r s -> awaiting t0 r s'.
Proof.
  intros (Hc & Hd & Ht & Hn & Hp) (K1 & K2 & K3 & K4 & K5). unfold awaiting.
  rewrite Hc, Hd, Ht, Hn, Hp. repeat split.
  - rewrite get_set_ne by lia. exact K1.
  - lia.
  - exact K3.
  - apply (all_set (fun _ tm => forall name, Server.callback tm = _ -> _)).
    + exact K4.
    + intros name. discriminate.
  - apply (all_set (fun name q => forall e, In e q -> Server.timeoutTimer e = t0 -> _)).
    + exact K5.
    + intros e He Het. apply in_app_or in He. destruct He as [He|[<-|[]]].
      * destruct (JsMap.get (channelName r') (Server.pendingRequests s)) as [q|] eqn:Eq;
          [|destruct He]. exact (K5 _ _ Eq e He Het).
      * simpl in Het. lia.
Qed.

Lemma clearTimeout_wellQueued (t : N) (s : ChannelServer) :
  wellQueued s -> wellQueued (Server.clearTimeout t s).
Proof.
  intros [H1 H2]. split; [exact H1|]. server_unfold. server_fields.
  apply (all_delete (fun _ tm => forall name, Server.callback tm = _ -> _)). exact H2.
Qed.

Lemma clearTimeout_awaiting (t t0 : N) (r : IRawChannelRequest Any) (s : ChannelServer) :
  t <> t0 -> awaiting t0 r s -> awaiting t0 r (Server.clearTimeout t s).
Proof.
  intros Hne (K1 & K2 & K3 & K4 & K5). unfold awaiting. server_unfold. server_fields.
  repeat split; try assumption.
  - rewrite get_delete_ne by congruence. exact K1.
  - apply (all_delete (fun _ tm => forall name, Server.callback tm = _ -> _)). exact K4.
Qed.

Lemma registerChannel_wellQueued (name : string) (channel : Channel) (s : ChannelServer) :
  wellQueued s -> wellQueued (Server.registerChannel name channel s).
Proof.
  intros [H1 H2]. unfold wellQueued, Server.registerChannel. server_unfold. server_fields.
  split.
  - intros n q Hq e He. specialize (H1 n q Hq e He). lia.
  - apply (all_set (fun _ tm => forall n, Server.callback tm = _ -> _)).
    + intros t tm Ht n Hn. specialize (H2 t tm Ht n Hn).
      destruct (string_dec n name) as [->|Hne];
        [rewrite get_set_eq; discriminate|rewrite get_set_ne by exact Hne; exact H2].
    + intros n [= <-]. rewrite get_set_eq. discriminate.
Qed.

Lemma registerChannel_awaiting (name : string) (channel : Channel) (t0 : N)
    (r : IRawChannelRequest Any) (s : ChannelServer) :
  name <> channelName r -> awaiting t0 r s ->
  awaiting t0 r (Server.registerChannel name channel s).
Proof.
  intros Hne (K1 & K2 & K3 & K4 & K5). unfold awaiting, Server.registerChannel.
  server_unfold. server_fields. repeat split.
  - rewrite get_set_ne by lia. exact K1.
  - lia.
  - rewrite get_set_ne by congruence. exact K3.
  - apply (all_set (fun _ tm => forall n, Server.callback tm = _ -> _)).
    + exact K4.
    + intros n [= <-]. exact Hne.
  - exact K5.
Qed.

Lemma flushPendingRequests_wellQueued (name : string) (s : ChannelServer) :
  wellQueued s -> wellQueued (Server.state_of (Server.flushPendingRequests name s)).
Proof.
  intros H. destruct (JsMap.get name (Server.pendingRequests s)) as [q|] eqn:Eq.
  - rewrite (flushPendingRequests_queue _ _ Eq).
    assert (Hl : wellQueued (Server.state_of (Server.flushLoop q s))).
    { apply (flushLoop_keeps wellQueued (fun _ => True)); auto.
      - intros e s0 _. apply clearTimeout_wellQueued.
      - apply wellQueued_keeps.
      - apply wellQueued_queues. }
    destruct (Server.flushLoop q s) as [s'|s']; cbn [Server.state_of] in *; [|exact Hl].
    destruct Hl as [H1 H2]. split; [|exact H2]. server_unfold. server_fields.
    apply (all_delete (fun _ q => forall e, In e q -> _)). exact H1.
  - unfold Server.flushPendingRequests. rewrite Eq. exact H.
Qed.

Lemma flushPendingRequests_awaiting (name : string) (t0 : N) (r : IRawChannelRequest Any)
    (s : ChannelServer) :
  name <> channelName r -> awaiting t0 r s ->
  awaiting t0 r (Server.state_of (Server.flushPendingRequests name s)).
Proof.
  intros Hne H. destruct (JsMap.get name (Server.pendingRequests s)) as [q|] eqn:Eq.
  - rewrite (flushPendingRequests_queue _ _ Eq).
    assert (Hq : forall e, In e q -> Server.timeoutTimer e <> t0).
    { intros e He Het. destruct H as (_ & _ & _ & _ & K5).
      apply Hne. exact (K5 _ _ Eq e He Het). }
    assert (Hl : awaiting t0 r (Server.state_of (Server.flushLoop q s))).
    { apply (flushLoop_keeps (awaiting t0 r) (fun e => Server.timeoutTimer e <> t0));
        auto.
      - intros e s0 He. apply clearTimeout_awaiting, He.
      - apply awaiting_keeps.
      - intros r' s0 s0'. apply awaiting_queues. }
    destruct (Server.flushLoop q s) as [s'|s']; cbn [Server.state_of] in *; [|exact Hl].
    destruct Hl as (K1 & K2 & K3 & K4 & K5). unfold awaiting.
    server_unfold. server_fields. repeat split; try assumption.
    apply (all_delete (fun n q => forall e, In e q -> Server.timeoutTimer e = t0 -> _)).
    exact K5.
  - unfold Server.flushPendingRequests. rewrite Eq. exact H.
Qed.

Lemma sendResponse_keeps (response : IRawResponse Any) (s : ChannelServer) :
  keeps s (Server.state_of (Server.sendResponse response s)).
Proof. unfold Server.sendResponse. destruct (Server.serializable response); repeat split. Qed.

Lemma onPendingTimeout_keeps (r : IRawChannelRequest Any) (s : ChannelServer) :
  keeps s (Server.onPendingTimeout r s).
Proof. unfold Server.onPendingTimeout. destruct (type r); repeat split. Qed.

Lemma onSettled_keeps (k : N) (outcome : Settlement Any) (s : ChannelServer) :
  keeps s (Server.onSettled k outcome s).
Proof.
  unfold Server.onSettled, Server.sendResponse.
  destruct (Server.serializable (Server.answer k outcome)); repeat split.
Qed.

Lemma fireTimer_wellQueued (t : N) (s : ChannelServer) :
  wellQueued s -> wellQueued (Server.fireTimer t s).
Proof.
  intros H. unfold Server.fireTimer.
  destruct (JsMap.get t (Server.timers s)) as [tm|]; [|exact H].
  apply (clearTimeout_wellQueued t) in H. destruct (Server.callback tm).
  - apply flushPendingRequests_wellQueued, H.
  - eapply wellQueued_keeps; [apply onPendingTimeout_keeps|exact H].
Qed.

Lemma fireTimer_awaiting (t t0 : N) (r : IRawChannelRequest Any) (s : ChannelServer) :
  t <> t0 -> awaiting t0 r s -> awaiting t0 r (Server.fireTimer t s).
Proof.
  intros Hne H. unfold Server.fireTimer.
  destruct (JsMap.get t (Server.timers s)) as [tm|] eqn:Et; [|exact H].
  pose proof H as (_ & _ & _ & K4 & _). specialize (K4 t tm Et).
  apply (clearTimeout_awaiting Hne) in H. destruct (Server.callback tm) as [name|r'].
  - apply flushPendingRequests_awaiting; [apply K4; reflexivity|exact H].
  - eapply awaiting_keeps; [apply onPendingTimeout_keeps|exact H].
Qed.

Lemma dispose_keeps (s : ChannelServer) : keeps s (Server.dispose s).
Proof.
  unfold Server.dispose. rewrite dispose_all.
  destruct (Server.protocolListener s); repeat split.
Qed.

(** Every step but a registration and the firing of a timer leaves the
    registry, the queue and the timers alone, or queues a request. *)
Lemma step_effect (s : ChannelServer) (i : Server.Input Any Channel) :
  match i with
  | Server.DoRegisterChannel _ _ | Server.DoTimer _ => True
  | _ => keeps s (Server.step s i) \/ exists r, queues r s (Server.step s i)
  end.
Proof.
  destruct i as [m|n ch|t|k o|k d|]; cbn [Server.step]; try exact I.
  - unfold Server.receive. destruct (Server.protocolListener s); [|left; apply keeps_refl].
    destruct m as [r|ty k]; cbn [Server.onRawMessage].
    + destruct (type r); try (left; apply keeps_refl).
      * destruct (onPromise_effect r s); eauto.
      * destruct (onEventListen_effect r s); eauto.
    + left. destruct ty; try apply keeps_refl;
        unfold Server.disposeActiveRequest;
        destruct (JsMap.get k (Server.activeRequests s)); repeat split.
  - left. destruct (existsb _ _); [apply onSettled_keeps|apply keeps_refl].
  - left. destruct (JsMap.get k (Server.activeRequests s)) as [[| |]|];
      try apply keeps_refl. apply sendResponse_keeps.
  - left. apply dispose_keeps.
Qed.

Lemma step_wellQueued (s : ChannelServer) (i : Server.Input Any Channel) :
  wellQueued s -> wellQueued (Server.step s i).
Proof.
  intros H. pose proof (step_effect s i) as He.
  destruct i; try (destruct He as [He|[r He]];
                   eauto using wellQueued_keeps, wellQueued_queues).
  - apply registerChannel_wellQueued, H.
  - apply fireTimer_wellQueued, H.
Qed.

Lemma run_wellQueued (inputs : list (Server.Input Any Channel)) (s : ChannelServer) :
  wellQueued s -> wellQueued (Server.run inputs s).
Proof.
  revert s. induction inputs as [|i l IH]; intros s H; [exact H|].
  apply IH, step_wellQueued, H.
Qed.

Lemma step_awaiting (t0 : N) (r : IRawChannelRequest Any) (s : ChannelServer)
    (i : Server.Input Any Channel) :
  Server.registers (channelName r) i = false ->
  Server.fires t0 i = false ->
  awaiting t0 r s -> awaiting t0 r (Server.step s i).
Proof.
  intros Hr Hf H. pose proof (step_effect s i) as He.
  destruct i as [m|n ch|t|k o|k d|];
    try (destruct He as [He|[r' He]]; eauto using awaiting_keeps, awaiting_queues).
  - apply registerChannel_awaiting; [|exact H].
    cbn [Server.registers] in Hr. apply String.eqb_neq. exact Hr.
  - apply fireTimer_awaiting; [|exact H].
    cbn [Server.fires] in Hf. apply N.eqb_neq. exact Hf.
Qed.

Lemma run_awaiting (t0 : N) (r : IRawChannelRequest Any)
    (inputs : list (Server.Input Any Channel)) (s : ChannelServer) :
  existsb (Server.registers (channelName r)) inputs = false ->
  existsb (Server.fires t0) inputs = false ->
  awaiting t0 r s -> awaiting t0 r (Server.run inputs s).
Proof.
  revert s. induction inputs as [|i l IH]; intros s Hr Hf H; [exact H|].
  simpl in Hr, Hf. apply orb_false_elim in Hr, Hf.
  destruct Hr as [Hr Hr'], Hf as [Hf Hf'].
  apply IH; [exact Hr'|exact Hf'|]. apply step_awaiting; assumption.
Qed.

(** Queueing a request for an unregistered channel makes it wait with the
    timer it was given. *)
Lemma queued_awaiting (r : IRawChannelRequest Any) (s : ChannelServer) :
  wellQueued s ->
  JsMap.get (channelName r) (Server.channels s) = None ->
  awaiting (Server.nextTimer s) r (Server.collectPendingRequest r s).
Proof.
  intros [H1 H2] Hch. unfold awaiting, Server.collectPendingRequest.
  server_unfold. server_fields. repeat split.
  - apply get_set_eq.
  - lia.
  - exact Hch.
  - apply (all_set (fun _ tm => forall n, Server.callback tm = _ -> _)).
    + intros t tm Ht n Hn ->. exact (H2 t tm Ht _ Hn Hch).
    + intros n. discriminate.
  - apply (all_set (fun n q => forall e, In e q -> Server.timeoutTimer e = _ -> _)).
    + intros n q Hq e He Het. specialize (H1 n q Hq e He). lia.
    + reflexivity.
Qed.

(** [ctx] and [timeoutDelay] are [readonly]. *)
Lemma fold_readonly {A B : Type} (field : ChannelServer -> B)
    (f : ChannelServer -> A -> ChannelServer) (l : list A) :
  (forall s a, field (f s a) = field s) ->
  forall s, field (fold_left f l s) = field s.
Proof.
  intros Hf. induction l as [|a l IH]; intros s; simpl; [reflexivity|].
  rewrite IH. apply Hf.
Qed.

Lemma flushPendingRequests_extends (name : string) (s : ChannelServer) :
  extends s (Server.state_of (Server.flushPendingRequests name s)).
Proof.
  unfold Server.flushPendingRequests.
  destruct (JsMap.get name (Server.pendingRequests s)) as [q|]; [|apply extends_refl].
  pose proof (flushLoop_extends q s) as H.
  destruct (Server.flushLoop q s) as [s'|s']; cbn [Server.state_of] in *; [|exact H].
  eapply extends_trans; [exact H|]. repeat split. exists []. simpl.
  rewrite app_nil_r. reflexivity.
Qed.

Lemma flushPendingRequests_delay (name : string) (s : ChannelServer) :
  Server.timeoutDelay (Server.state_of (Server.flushPendingRequests name s))
  = Server.timeoutDelay s.
Proof.
  unfold Server.flushPendingRequests.
  destruct (JsMap.get name (Server.pendingRequests s)) as [q|]; [|reflexivity].
  assert (Hl : Server.timeoutDelay (Server.state_of (Server.flushLoop q s))
               = Server.timeoutDelay s).
  { apply (flushLoop_keeps (fun s' => Server.timeoutDelay s' = Server.timeoutDelay s)
             (fun _ => True)); auto.
    - intros s1 s2 (_ & Hd & _) H. congruence.
    - intros r s1 s2 (_ & Hd & _) H. congruence. }
  destruct (Server.flushLoop q s) as [s'|s']; exact Hl.
Qed.

Lemma fireTimer_delay (t : N) (s : ChannelServer) :
  Server.timeoutDelay (Server.fireTimer t s) = Server.timeoutDelay s.
Proof.
  unfold Server.fireTimer. destruct (JsMap.get t (Server.timers s)) as [tm|]; [|reflexivity].
  destruct (Server.callback tm) as [name|r].
  - rewrite flushPendingRequests_delay. reflexivity.
  - destruct (onPendingTimeout_keeps r (Server.clearTimeout t s)) as (_ & -> & _).
    reflexivity.
Qed.

Lemma step_delay (s : ChannelServer) (i : Server.Input Any Channel) :
  Server.timeoutDelay (Server.step s i) = Server.timeoutDelay s.
Proof.
  pose proof (step_effect s i) as He.
  destruct i; try (destruct He as [He|[r He]]; destruct He as (_ & -> & _); reflexivity).
  - reflexivity.
  - apply fireTimer_delay.
Qed.

Lemma run_delay (inputs : list (Server.Input Any Channel)) (s : ChannelServer) :
  Server.timeoutDelay (Server.run inputs s) = Server.timeoutDelay s.
Proof. apply (fold_readonly (@Server.timeoutDelay _ _ _ _)), step_delay. Qed.

Lemma fireTimer_ctx (t : N) (s : ChannelServer) :
  Server.ctx (Server.fireTimer t s) = Server.ctx s.
Proof.
  unfold Server.fireTimer. destruct (JsMap.get t (Server.timers s)) as [tm|]; [|reflexivity].
  destruct (Server.callback tm) as [name|r].
  - exact (proj1 (proj2 (flushPendingRequests_extends name (Server.clearTimeout t s)))).
  - unfold Server.onPendingTimeout. destruct (type r); reflexivity.
Qed.

Lemma step_ctx (s : ChannelServer) (i : Server.Input Any Channel) :
  Server.ctx (Server.step s i) = Server.ctx s.
Proof.
  destruct i as [m|n ch|t|k o|k d|]; cbn [Server.step].
  - unfold Server.receive. destruct (Server.protocolListener s); [|reflexivity].
    destruct m as [r|ty k]; cbn [Server.onRawMessage].
    + destruct (type r); try reflexivity.
      * exact (proj1 (proj2 (onPromise_extends r s))).
      * exact (proj1 (proj2 (onEventListen_extends r s))).
    + unfold Server.disposeActiveRequest.
      destruct ty; try reflexivity;
        destruct (JsMap.get k (Server.activeRequests s)); reflexivity.
  - reflexivity.
  - apply fireTimer_ctx.
  - destruct (existsb _ _); [|reflexivity].
    unfold Server.onSettled, Server.sendResponse.
    destruct (Server.serializable _); reflexivity.
  - destruct (JsMap.get k (Server.activeRequests s)) as [[| |]|]; try reflexivity.
    unfold Server.onEvent, Server.sendResponse.
    destruct (Server.serializable _); reflexivity.
  - unfold Server.dispose. rewrite dispose_all.
    destruct (Server.protocolListener s); reflexivity.
Qed.

Lemma run_ctx (inputs : list (Server.Input Any Channel)) (s : ChannelServer) :
  Server.ctx (Server.run inputs s) = Server.ctx s.
Proof. apply (fold_readonly (@Server.ctx _ _ _ _)), step_ctx. Qed.

Lemma new_wellQueued (ctx : TContext) (delay : Number) :
  wellQueued (Server.new (Any := Any) (Channel := Channel) ctx delay).
Proof. split; intros; discriminate. Qed.

(** C6. A server, whatever happened to it since it was constructed, is
    still attached to its transport and receives a [Promise] request for a
    channel name that is not in its registry. The request is queued,
    nothing is answered yet, and a timer is armed with the configured
    delay. Whatever happens next, as long as that channel is not
    registered: when the timer fires, the server answers [PromiseError]
    for the id of the request, with name "Unknown channel", message
    "Channel name '<channelName>' timed out after <timeoutDelay>ms" and no
    stack, where <timeoutDelay> is what a template literal prints for the
    number the server was constructed with. *)
Theorem unknown_channel_times_out (ctx : TContext) (delay : Number)
    (before after : list (Server.Input Any Channel)) (request : IRawChannelRequest Any) :
  let s := Server.run before (Server.new ctx delay) in
  let timer := Server.nextTimer s in
  let s1 := Server.step s (Server.DoReceive (ChannelRequest request)) in
  let s2 := Server.run after s1 in
  type request = Promise ->
  Server.protocolListener s <> None ->
  JsMap.get (channelName request) (Server.channels s) = None ->
  existsb (Server.registers (channelName request)) after = false ->
  existsb (Server.fires timer) after = false ->
  Server.trace s1 = Server.trace s
  /\ JsMap.get timer (Server.timers s1)
     = Some (Server.mkTimer (Server.PendingRequestTimeout request) delay)
  /\ Server.trace (Server.step s2 (Server.DoTimer timer))
     = Server.trace s2
         ++ [ Server.ConsoleError ("Unknown channel: " ++ channelName request);
              Server.Send
                (IRawPromiseErrorResponse (id request)
                   (mkErrorData
                      ("Channel name '" ++ channelName request ++ "' timed out after "
                         ++ numberToString delay ++ "ms")
                      "Unknown channel" StackUndefined)) ].
Proof.
  cbv zeta. intros Hp Hl Hch Hreg Hfire.
  set (s := Server.run before (Server.new ctx delay)) in *.
  assert (Hd : Server.timeoutDelay s = delay) by (subst s; rewrite run_delay; reflexivity).
  assert (Hw : wellQueued s) by (apply run_wellQueued, new_wellQueued).
  assert (Hs1 : Server.step s (Server.DoReceive (ChannelRequest request))
                = Server.collectPendingRequest request s).
  { cbn [Server.step]. unfold Server.receive.
    destruct (Server.protocolListener s); [|congruence].
    cbn [Server.onRawMessage]. rewrite Hp. unfold Server.onPromise. rewrite Hch.
    reflexivity. }
  rewrite Hs1.
  pose proof (run_awaiting after Hreg Hfire (queued_awaiting request Hw Hch)) as Ha.
  split; [reflexivity|]. split.
  - unfold Server.collectPendingRequest. server_unfold. server_fields.
    rewrite get_set_eq, Hd. reflexivity.
  - destruct Ha as (K1 & _). cbn [Server.step].
    rewrite (fireTimer_timeout _ _ K1 Hp). server_fields. unfold timedOut.
    rewrite run_delay. cbn [Server.timeoutDelay Server.collectPendingRequest].
    unfold Server.collectPendingRequest. server_unfold. server_fields.
    rewrite Hd. reflexivity.
Qed.

(** *** What the caller of a dispatched request is answered *)










(** *** The queue of a name, and its flush *)

(** Every entry of the queue kept under a name is a request for that
    name. *)
Definition sorted (s : ChannelServer) : Prop :=
  forall name q, JsMap.get name (Server.pendingRequests s) = Some q ->
    forall e, In e q -> channelName (Server.request e) = name.

Lemma sorted_keeps (s s' : ChannelServer) : keeps s s' -> sorted s -> sorted s'.
Proof. intros (_ & _ & _ & _ & Hp) H. unfold sorted. rewrite Hp. exact H. Qed.

Lemma sorted_queues (r : IRawChannelRequest Any) (s s' : ChannelServer) :
  queues r s s' -> sorted s -> sorted s'.
Proof.
  intros (_ & _ & _ & _ & Hp) H. unfold sorted. rewrite Hp.
  apply (all_set (fun name q => forall e, In e q -> channelName (Server.request e) = name)).
  - exact H.
  - intros e He. apply in_app_or in He. destruct He as [He|[<-|[]]]; [|reflexivity].
    destruct (JsMap.get (channelName r) (Server.pendingRequests s)) as [q|] eqn:Eq;
      [|destruct He]. exact (H _ _ Eq e He).
Qed.

Lemma flushPendingRequests_sorted (name : string) (s : ChannelServer) :
  sorted s -> sorted (Server.state_of (Server.flushPendingRequests name s)).
Proof.
  intros H. destruct (JsMap.get name (Server.pendingRequests s)) as [q|] eqn:Eq.
  - rewrite (flushPendingRequests_queue _ _ Eq).
    assert (Hl : sorted (Server.state_of (Server.flushLoop q s))).
    { apply (flushLoop_keeps sorted (fun _ => True)); auto.
      - apply sorted_keeps.
      - apply sorted_queues. }
    destruct (Server.flushLoop q s) as [s'|s']; cbn [Server.state_of] in *; [|exact Hl].
    unfold sorted. server_unfold. server_fields.
    apply (all_delete (fun name q => forall e, In e q -> _ = name)). exact Hl.
  - unfold Server.flushPendingRequests. rewrite Eq. exact H.
Qed.

Lemma step_sorted (s : ChannelServer) (i : Server.Input Any Channel) :
  sorted s -> sorted (Server.step s i).
Proof.
  intros H. pose proof (step_effect s i) as He.
  destruct i as [m|n ch|t|k o|k d|];
    try (destruct He as [He|[r He]]; eauto using sorted_keeps, sorted_queues).
  - exact H.
  - cbn [Server.step]. unfold Server.fireTimer.
    destruct (JsMap.get t (Server.timers s)) as [tm|]; [|exact H].
    assert (H' : sorted (Server.clearTimeout t s)) by exact H.
    destruct (Server.callback tm).
    + apply flushPendingRequests_sorted, H'.
    + eapply sorted_keeps; [apply onPendingTimeout_keeps|exact H'].
Qed.

Lemma run_sorted (inputs : list (Server.Input Any Channel)) (s : ChannelServer) :
  sorted s -> sorted (Server.run inputs s).
Proof.
  revert s. induction inputs as [|i l IH]; intros s H; [exact H|].
  apply IH, step_sorted, H.
Qed.

Lemma new_sorted (ctx : TContext) (delay : Number) :
  sorted (Server.new (Any := Any) (Channel := Channel) ctx delay).
Proof. intros n q Hn. discriminate Hn. Qed.

(** What the loop of [flushPendingRequests] does with one entry whose
    channel is registered and does not throw. *)
Definition dispatched (channel : Channel) (ctx : TContext) (e : Server.PendingRequest Any)
    : list (Server.Effect Any Channel TContext) :=
  match type (Server.request e) with
  | Promise =>
      [Server.Call channel ctx (name (Server.request e)) (arg (Server.request e))
         (id (Server.request e))]
  | EventListen =>
      [Server.Listen channel ctx (name (Server.request e)) (arg (Server.request e))
         (id (Server.request e))]
  | _ => []
  end.

(** Does the channel take the entry: [channel.listen] returns for a
    subscription; a call never leaves [onPromise] with an exception, and
    the loop skips what is neither. *)
Definition accepts (channel : Channel) (ctx : TContext) (e : Server.PendingRequest Any)
    : bool :=
  match type (Server.request e) with
  | EventListen => listens channel ctx (name (Server.request e)) (arg (Server.request e))
  | _ => true
  end.

(** The timers after [clearTimeout] for each entry of a queue. *)
Definition cleared (q : list (Server.PendingRequest Any))
    (timers : JsMap.t N (Server.Timer Any Number)) : JsMap.t N (Server.Timer Any Number) :=
  fold_left (fun timers e => JsMap.delete (Server.timeoutTimer e) timers) q timers.




Lemma flushLoop_app (ahead behind : list (Server.PendingRequest Any)) (s : ChannelServer) :
  Server.flushLoop (ahead ++ behind) s
  = match Server.flushLoop ahead s with
    | Server.Done s' => Server.flushLoop behind s'
    | Server.Threw s' => Server.Threw s'
    end.
Proof.
  revert s. induction ahead as [|e ahead IH]; intros s; [reflexivity|].
  cbn [app Server.flushLoop]. destruct (type (Server.request e)); try apply IH.
  destruct (Server.onEventListen _ _); [apply IH|reflexivity].
Qed.

(** The loop over entries the channel takes: each is dispatched, in the
    order of the queue, and its timer is cleared. *)
Lemma flushLoop_accepted (q : list (Server.PendingRequest Any)) (name : string)
    (channel : Channel) :
  (forall e, In e q -> channelName (Server.request e) = name) ->
  forall s, JsMap.get name (Server.channels s) = Some channel ->
    forallb (accepts channel (Server.ctx s)) q = true ->
    exists s', Server.flushLoop q s = Server.Done s'
               /\ Server.channels s' = Server.channels s
               /\ Server.ctx s' = Server.ctx s
               /\ Server.pendingRequests s' = Server.pendingRequests s
               /\ Server.timers s' = cleared q (Server.timers s)
               /\ Server.trace s'
                  = Server.trace s ++ flat_map (dispatched channel (Server.ctx s)) q.
Proof.
  induction q as [|e q IH]; intros Hq s Hch Hacc.
  - exists s. cbn. rewrite app_nil_r. repeat split.
  - cbn [forallb] in Hacc. apply andb_prop in Hacc. destruct Hacc as [He Hacc].
    assert (Hn : JsMap.get (channelName (Server.request e)) (Server.channels s)
                 = Some channel)
      by (rewrite (Hq e (or_introl eq_refl)); exact Hch).
    assert (Hstep : exists s1,
               Server.flushLoop (e :: q) s = Server.flushLoop q s1
               /\ Server.channels s1 = Server.channels s
               /\ Server.ctx s1 = Server.ctx s
               /\ Server.pendingRequests s1 = Server.pendingRequests s
               /\ Server.timers s1 = JsMap.delete (Server.timeoutTimer e) (Server.timers s)
               /\ Server.trace s1 = Server.trace s ++ dispatched channel (Server.ctx s) e).
    { clear IH Hacc. cbn [Server.flushLoop]. unfold accepts in He.
      unfold dispatched, Server.onPromise, Server.onEventListen.
      server_unfold. server_fields. rewrite Hn.
      destruct (type (Server.request e)); try rewrite He;
        (eexists; split; [reflexivity|]); server_fields; rewrite ?app_nil_r;
        repeat split. }
    destruct Hstep as (s1 & Hl & Hc1 & Hx1 & Hp1 & Ht1 & Hr1).
    destruct (IH (fun e' H' => Hq e' (or_intror H')) s1)
      as (s' & Hl' & Hc' & Hx' & Hp' & Ht' & Hr').
    + rewrite Hc1. exact Hch.
    + rewrite Hx1. exact Hacc.
    + exists s'. rewrite Hl, Hl', Hc', Hx', Hp', Ht', Hr', Hc1, Hx1, Hp1, Ht1, Hr1.
      cbn [flat_map]. rewrite <- app_assoc. repeat split.
Qed.

(** The loop at a subscription the channel refuses: the timer of the
    entry is cleared, [channel.listen] throws, and the loop is left. *)
Lemma flushLoop_refused (e : Server.PendingRequest Any)
    (behind : list (Server.PendingRequest Any)) (channel : Channel) (s : ChannelServer) :
  JsMap.get (channelName (Server.request e)) (Server.channels s) = Some channel ->
  accepts channel (Server.ctx s) e = false ->
  Server.flushLoop (e :: behind) s
  = Server.Threw (Server.clearTimeout (Server.timeoutTimer e) s).
Proof.
  intros Hn He. cbn [Server.flushLoop]. unfold accepts in He.
  destruct (type (Server.request e)); try discriminate He.
  unfold Server.onEventListen. server_unfold. server_fields. rewrite Hn, He. reflexivity.
Qed.

Lemma flushLoop_promise (e : Server.PendingRequest Any)
    (behind : list (Server.PendingRequest Any)) (s : ChannelServer) :
  type (Server.request e) = Promise ->
  Server.flushLoop (e :: behind) s
  = Server.flushLoop behind
      (Server.onPromise (Server.request e) (Server.clearTimeout (Server.timeoutTimer e) s)).
Proof. intros H. cbn [Server.flushLoop]. rewrite H. reflexivity. Qed.

(** [pendingRequests.delete] at the end of a flush says nothing. *)
Lemma flushed_trace (name : string) (r : Server.Result Any Channel TContext Number) :
  Server.trace
    (Server.state_of
       match r with
       | Server.Done s' =>
           Server.Done
             (Server.set_pendingRequests (JsMap.delete name (Server.pendingRequests s')) s')
       | Server.Threw s' => Server.Threw s'
       end)
  = Server.trace (Server.state_of r).
Proof. destruct r; reflexivity. Qed.

(** A flush whose queue the channel takes entirely. *)
Lemma flush_accepted (s : ChannelServer) (name : string) (channel : Channel)
    (queue : list (Server.PendingRequest Any)) :
  sorted s ->
  JsMap.get name (Server.channels s) = Some channel ->
  JsMap.get name (Server.pendingRequests s) = Some queue ->
  forallb (accepts channel (Server.ctx s)) queue = true ->
  exists s', Server.flushPendingRequests name s = Server.Done s'
             /\ Server.pendingRequests s' = JsMap.delete name (Server.pendingRequests s)
             /\ Server.timers s' = cleared queue (Server.timers s)
             /\ Server.trace s'
                = Server.trace s ++ flat_map (dispatched channel (Server.ctx s)) queue.
Proof.
  intros Hs Hch Hq Hacc.
  destruct (flushLoop_accepted queue (Hs name queue Hq) s Hch Hacc)
    as (s' & Hl & _ & _ & Hp & Ht & Hr).
  rewrite (flushPendingRequests_queue _ _ Hq), Hl. eexists. split; [reflexivity|].
  server_unfold. server_fields. rewrite Hp. split; [reflexivity|split; assumption].
Qed.

(** A flush that meets a subscription the channel refuses. *)
Lemma flush_refused (s : ChannelServer) (name : string) (channel : Channel)
    (ahead behind : list (Server.PendingRequest Any)) (e : Server.PendingRequest Any) :
  sorted s ->
  JsMap.get name (Server.channels s) = Some channel ->
  JsMap.get name (Server.pendingRequests s) = Some (ahead ++ e :: behind) ->
  forallb (accepts channel (Server.ctx s)) ahead = true ->
  accepts channel (Server.ctx s) e = false ->
  exists s', Server.flushPendingRequests name s = Server.Threw s'
             /\ Server.pendingRequests s' = Server.pendingRequests s
             /\ Server.timers s' = cleared (ahead ++ [e]) (Server.timers s)
             /\ Server.trace s'
                = Server.trace s ++ flat_map (dispatched channel (Server.ctx s)) ahead.
Proof.
  intros Hs Hch Hq Hacc He.
  assert (Hnames : forall e', In e' (ahead ++ e :: behind) ->
                     channelName (Server.request e') = name) by exact (Hs name _ Hq).
  destruct (flushLoop_accepted ahead
              (fun e' H' => Hnames e' (in_or_app _ _ _ (or_introl H'))) s Hch Hacc)
    as (s' & Hl & Hc & Hx & Hp & Ht & Hr).
  rewrite (flushPendingRequests_queue _ _ Hq), flushLoop_app, Hl.
  rewrite (@flushLoop_refused e behind channel s').
  - eexists. split; [reflexivity|]. server_unfold. server_fields.
    rewrite Hp, Ht, Hr. repeat split.
    unfold cleared. rewrite fold_left_app. reflexivity.
  - rewrite Hc, (Hnames e (in_elt _ _ _)). exact Hch.
  - rewrite Hx. exact He.
Qed.

(** The flush that [registerChannel] schedules, when its timer fires. *)
Lemma registerChannel_flush (s : ChannelServer) (name : string) (channel : Channel) :
  Server.fireTimer (Server.nextTimer s) (Server.registerChannel name channel s)
  = Server.state_of
      (Server.flushPendingRequests name
         (Server.clearTimeout (Server.nextTimer s)
            (Server.registerChannel name channel s))).
Proof.
  unfold Server.fireTimer, Server.registerChannel. server_unfold. server_fields.
  rewrite get_set_eq. reflexivity.
Qed.

(** *** A request that timed out stays queued *)

(** The entry [e] is in the queue of its channel, and nothing is
    under way that would take it out: the channel is not registered and
    no flush is scheduled for it. *)
Definition queuedAs (e : Server.PendingRequest Any) (s : ChannelServer) : Prop :=
  JsMap.get (channelName (Server.request e)) (Server.channels s) = None
  /\ (forall t tm, JsMap.get t (Server.timers s) = Some tm ->
        forall name, Server.callback tm = Server.FlushPendingRequests name ->
        name <> channelName (Server.request e))
  /\ exists ahead behind,
       JsMap.get (channelName (Server.request e)) (Server.pendingRequests s)
       = Some (ahead ++ e :: behind).

Lemma queuedAs_keeps (e : Server.PendingRequest Any) (s s' : ChannelServer) :
  keeps s s' -> queuedAs e s -> queuedAs e s'.
Proof.
  intros (Hc & _ & Ht & _ & Hp) H. unfold queuedAs. rewrite Hc, Ht, Hp. exact H.
Qed.

Lemma queuedAs_queues (e : Server.PendingRequest Any) (r : IRawChannelRequest Any)
    (s s' : ChannelServer) :
  queues r s s' -> queuedAs e s -> queuedAs e s'.
Proof.
  intros (Hc & _ & Ht & _ & Hp) (K1 & K2 & ahead & behind & K3). unfold queuedAs.
  rewrite Hc, Ht, Hp. split; [exact K1|]. split.
  - apply (all_set (fun _ tm => forall name, Server.callback tm = _ -> _)).
    + exact K2.
    + intros name. discriminate.
  - destruct (string_dec (channelName (Server.request e)) (channelName r)) as [Heq|Hne].
    + rewrite <- Heq, get_set_eq, K3.
      exists ahead, (behind ++ [Server.mkPendingRequest r (Server.nextTimer s)]).
      cbv beta iota. rewrite <- app_assoc. reflexivity.
    + rewrite get_set_ne by exact Hne. exists ahead, behind. exact K3.
Qed.

Lemma clearTimeout_queuedAs (t : N) (e : Server.PendingRequest Any) (s : ChannelServer) :
  queuedAs e s -> queuedAs e (Server.clearTimeout t s).
Proof.
  intros (K1 & K2 & K3). unfold queuedAs. server_unfold. server_fields.
  split; [exact K1|]. split; [|exact K3].
  apply (all_delete (fun _ tm => forall name, Server.callback tm = _ -> _)). exact K2.
Qed.

Lemma registerChannel_queuedAs (name : string) (channel : Channel)
    (e : Server.PendingRequest Any) (s : ChannelServer) :
  name <> channelName (Server.request e) -> queuedAs e s ->
  queuedAs e (Server.registerChannel name channel s).
Proof.
  intros Hne (K1 & K2 & K3). unfold queuedAs, Server.registerChannel.
  server_unfold. server_fields. split; [|split; [|exact K3]].
  - rewrite get_set_ne by congruence. exact K1.
  - apply (all_set (fun _ tm => forall n, Server.callback tm = _ -> _)).
    + exact K2.
    + intros n [= <-]. exact Hne.
Qed.

Lemma flushPendingRequests_queuedAs (name : string) (e : Server.PendingRequest Any)
    (s : ChannelServer) :
  name <> channelName (Server.request e) -> queuedAs e s ->
  queuedAs e (Server.state_of (Server.flushPendingRequests name s)).
Proof.
  intros Hne H. destruct (JsMap.get name (Server.pendingRequests s)) as [q|] eqn:Eq.
  - rewrite (flushPendingRequests_queue _ _ Eq).
    assert (Hl : queuedAs e (Server.state_of (Server.flushLoop q s))).
    { apply (flushLoop_keeps (queuedAs e) (fun _ => True)); auto.
      - intros e' s0 _. apply clearTimeout_queuedAs.
      - apply queuedAs_keeps.
      - intros r s0 s0'. apply queuedAs_queues. }
    destruct (Server.flushLoop q s) as [s'|s']; cbn [Server.state_of] in *; [|exact Hl].
    destruct Hl as (K1 & K2 & K3). unfold queuedAs. server_unfold. server_fields.
    split; [exact K1|]. split; [exact K2|].
    rewrite get_delete_ne by congruence. exact K3.
  - unfold Server.flushPendingRequests. rewrite Eq. exact H.
Qed.

Lemma fireTimer_queuedAs (t : N) (e : Server.PendingRequest Any) (s : ChannelServer) :
  queuedAs e s -> queuedAs e (Server.fireTimer t s).
Proof.
  intros H. unfold Server.fireTimer.
  destruct (JsMap.get t (Server.timers s)) as [tm|] eqn:Et; [|exact H].
  pose proof H as (_ & K2 & _). specialize (K2 t tm Et).
  apply (clearTimeout_queuedAs t) in H. destruct (Server.callback tm) as [name|r].
  - apply flushPendingRequests_queuedAs; [apply K2; reflexivity|exact H].
  - eapply queuedAs_keeps; [apply onPendingTimeout_keeps|exact H].
Qed.

Lemma step_queuedAs (e : Server.PendingRequest Any) (s : ChannelServer)
    (i : Server.Input Any Channel) :
  Server.registers (channelName (Server.request e)) i = false ->
  queuedAs e s -> queuedAs e (Server.step s i).
Proof.
  intros Hr H. pose proof (step_effect s i) as He.
  destruct i as [m|n ch|t|k o|k d|];
    try (destruct He as [He|[r' He]]; eauto using queuedAs_keeps, queuedAs_queues).
  - apply registerChannel_queuedAs; [|exact H].
    cbn [Server.registers] in Hr. apply String.eqb_neq. exact Hr.
  - apply fireTimer_queuedAs, H.
Qed.

Lemma run_queuedAs (e : Server.PendingRequest Any)
    (inputs : list (Server.Input Any Channel)) (s : ChannelServer) :
  existsb (Server.registers (channelName (Server.request e))) inputs = false ->
  queuedAs e s -> queuedAs e (Server.run inputs s).
Proof.
  revert s. induction inputs as [|i l IH]; intros s Hr H; [exact H|].
  simpl in Hr. apply orb_false_elim in Hr. destruct Hr as [Hr Hr'].
  apply IH; [exact Hr'|]. apply step_queuedAs; assumption.
Qed.

Lemma collectPendingRequest_queuedAs (r : IRawChannelRequest Any) (s : ChannelServer) :
  wellQueued s ->
  JsMap.get (channelName r) (Server.channels s) = None ->
  queuedAs (Server.mkPendingRequest r (Server.nextTimer s))
    (Server.collectPendingRequest r s).
Proof.
  intros [_ H2] Hch. unfold queuedAs, Server.collectPendingRequest.
  server_unfold. server_fields. split; [exact Hch|]. split.
  - apply (all_set (fun _ tm => forall n, Server.callback tm = _ -> _)).
    + intros t tm Ht n Hn ->. exact (H2 t tm Ht _ Hn Hch).
    + intros n. discriminate.
  - rewrite get_set_eq. eexists _, []. reflexivity.
Qed.

(** C1, as the code has it. A server, whatever happened to it since it
    was constructed, is attached to its transport and receives a
    [Promise] request for a channel that is not registered; the request
    is queued with a timer. Other things happen, that timer fires, and
    more things happen ([dispose] among them); the channel is registered
    at no time. Then:
    - the timeout logs and answers the caller with the [PromiseError];
    - the timeout leaves the map of pending requests as it is;
    - after all of that, the entry of the request is still in the queue
      of its channel, behind the entries [ahead] and before the entries
      [behind];
    - when the channel is registered at last and the flush that
      [registerChannel] schedules runs, the requests of the queue are
      dispatched in order: if the channel takes the subscriptions ahead
      of the request, the service is called for the request that had
      timed out; if it takes the subscriptions behind it too, the queue
      is removed; if [channel.listen] throws for a subscription ahead
      of it, the flush stops there, the request is not dispatched and
      the queue stays as it is; if [channel.listen] throws for a
      subscription behind it, the request was dispatched and the queue
      stays as it is all the same. *)
Theorem timeout_answers_and_keeps_entry (ctx : TContext) (delay : Number)
    (before between after : list (Server.Input Any Channel))
    (request : IRawChannelRequest Any) (channel : Channel) :
  let s := Server.run before (Server.new ctx delay) in
  let timer := Server.nextTimer s in
  let entry := Server.mkPendingRequest request timer in
  let s1 := Server.run between (Server.step s (Server.DoReceive (ChannelRequest request))) in
  let s2 := Server.step s1 (Server.DoTimer timer) in
  let s3 := Server.run after s2 in
  let s4 := Server.fireTimer (Server.nextTimer s3)
              (Server.registerChannel (channelName request) channel s3) in
  type request = Promise ->
  Server.protocolListener s <> None ->
  JsMap.get (channelName request) (Server.channels s) = None ->
  existsb (Server.registers (channelName request)) (between ++ after) = false ->
  existsb (Server.fires timer) between = false ->
  Server.trace s2
  = Server.trace s1
      ++ [ Server.ConsoleError ("Unknown channel: " ++ channelName request);
           Server.Send (IRawPromiseErrorResponse (id request) (timedOut request delay)) ]
  /\ Server.pendingRequests s2 = Server.pendingRequests s1
  /\ exists ahead behind,
       JsMap.get (channelName request) (Server.pendingRequests s3)
       = Some (ahead ++ entry :: behind)
       /\ (forallb (accepts channel ctx) ahead = true ->
           exists more,
             Server.trace s4
             = Server.trace s3
                 ++ flat_map (dispatched channel ctx) ahead
                 ++ Server.Call channel ctx (name request) (arg request) (id request)
                    :: more)
       /\ (forallb (accepts channel ctx) (ahead ++ behind) = true ->
           Server.trace s4
           = Server.trace s3 ++ flat_map (dispatched channel ctx) (ahead ++ entry :: behind)
           /\ JsMap.get (channelName request) (Server.pendingRequests s4) = None)
       /\ (forall taken refused left,
             ahead = taken ++ refused :: left ->
             forallb (accepts channel ctx) taken = true ->
             accepts channel ctx refused = false ->
             Server.trace s4 = Server.trace s3 ++ flat_map (dispatched channel ctx) taken
             /\ JsMap.get (channelName request) (Server.pendingRequests s4)
                = Some (ahead ++ entry :: behind))
       /\ (forall taken refused left,
             behind = taken ++ refused :: left ->
             forallb (accepts channel ctx) (ahead ++ taken) = true ->
             accepts channel ctx refused = false ->
             Server.trace s4
             = Server.trace s3 ++ flat_map (dispatched channel ctx) (ahead ++ entry :: taken)
             /\ JsMap.get (channelName request) (Server.pendingRequests s4)
                = Some (ahead ++ entry :: behind)).
Proof.
  cbv zeta. intros Hp Hl Hch Hreg Hfire.
  set (s := Server.run before (Server.new ctx delay)) in *.
  set (timer := Server.nextTimer s) in *.
  set (entry := Server.mkPendingRequest request timer).
  rewrite existsb_app in Hreg. apply orb_false_elim in Hreg. destruct Hreg as [Hrb Hra].
  assert (Hd : Server.timeoutDelay s = delay) by (subst s; rewrite run_delay; reflexivity).
  assert (Hx : Server.ctx s = ctx) by (subst s; rewrite run_ctx; reflexivity).
  assert (Hw : wellQueued s) by (apply run_wellQueued, new_wellQueued).
  assert (Hso : sorted s) by (apply run_sorted, new_sorted).
  assert (Hs1 : Server.step s (Server.DoReceive (ChannelRequest request))
                = Server.collectPendingRequest request s).
  { cbn [Server.step]. unfold Server.receive.
    destruct (Server.protocolListener s); [|congruence].
    cbn [Server.onRawMessage]. rewrite Hp. unfold Server.onPromise. rewrite Hch.
    reflexivity. }
  rewrite Hs1.
  set (s1 := Server.run between (Server.collectPendingRequest request s)).
  assert (Ha : awaiting timer request s1)
    by exact (run_awaiting between Hrb Hfire (queued_awaiting request Hw Hch)).
  assert (Hq1 : queuedAs entry s1).
  { apply run_queuedAs; [exact Hrb|]. apply collectPendingRequest_queuedAs; assumption. }
  assert (Hd1 : Server.timeoutDelay s1 = delay)
    by (subst s1; rewrite run_delay; exact Hd).
  destruct Ha as (K1 & _).
  assert (Hs2 : Server.step s1 (Server.DoTimer timer) = Server.fireTimer timer s1)
    by reflexivity.
  assert (Hq2 : queuedAs entry (Server.step s1 (Server.DoTimer timer)))
    by (apply step_queuedAs; [reflexivity|exact Hq1]).
  set (s2 := Server.step s1 (Server.DoTimer timer)) in *.
  split; [|split].
  - rewrite Hs2, (fireTimer_timeout _ _ K1 Hp). server_fields. rewrite Hd1. reflexivity.
  - rewrite Hs2, (fireTimer_timeout _ _ K1 Hp). reflexivity.
  - set (s3 := Server.run after s2).
    assert (Hq3 : queuedAs entry s3) by (apply run_queuedAs; [exact Hra|exact Hq2]).
    assert (Hx3 : Server.ctx s3 = ctx).
    { subst s3 s2 s1. rewrite run_ctx, step_ctx, run_ctx. exact Hx. }
    assert (Hso3 : sorted s3).
    { subst s3 s2 s1. apply run_sorted, step_sorted, run_sorted.
      rewrite <- Hs1. apply step_sorted, Hso. }
    destruct Hq3 as (_ & _ & ahead & behind & Hget).
    change (channelName (Server.request entry)) with (channelName request) in Hget.
    exists ahead, behind. split; [exact Hget|].
    rewrite registerChannel_flush.
    set (s4 := Server.clearTimeout (Server.nextTimer s3)
                 (Server.registerChannel (channelName request) channel s3)).
    assert (Hc4 : JsMap.get (channelName request) (Server.channels s4) = Some channel)
      by (subst s4; unfold Server.registerChannel; server_unfold; server_fields;
          apply get_set_eq).
    assert (Hx4 : Server.ctx s4 = ctx) by exact Hx3.
    assert (Hp4 : Server.pendingRequests s4 = Server.pendingRequests s3) by reflexivity.
    assert (Hr4 : Server.trace s4 = Server.trace s3) by reflexivity.
    assert (Hso4 : sorted s4) by exact Hso3.
    rewrite <- Hp4 in Hget. rewrite <- Hr4. clearbody s4. rewrite <- Hx4.
    assert (Hnames : forall e', In e' (ahead ++ entry :: behind) ->
                       channelName (Server.request e') = channelName request)
      by exact (Hso4 _ _ Hget).
    split; [|split; [|split]].
    + intros Hacc.
      destruct (flushLoop_accepted ahead
                  (fun e' H' => Hnames e' (in_or_app _ _ _ (or_introl H'))) s4 Hc4 Hacc)
        as (sa & Hla & Hca & Hxa & _ & _ & Hra').
      rewrite (flushPendingRequests_queue _ _ Hget), flushLoop_app, Hla.
      rewrite (@flushLoop_promise entry behind sa Hp).
      change (Server.request entry) with request.
      change (Server.timeoutTimer entry) with timer.
      set (sb := Server.onPromise request (Server.clearTimeout timer sa)).
      assert (Hrb' : Server.trace sb
                     = Server.trace sa
                         ++ [Server.Call channel (Server.ctx s4) (name request)
                               (arg request) (id request)]).
      { subst sb. unfold Server.onPromise. server_unfold. server_fields.
        rewrite Hca, Hc4, Hxa. reflexivity. }
      destruct (flushLoop_extends behind sb) as (_ & _ & more & Hmore).
      exists more.
      rewrite flushed_trace, Hmore, Hrb', Hra', <- !app_assoc. reflexivity.
    + intros Hacc.
      assert (Hall : forallb (accepts channel (Server.ctx s4)) (ahead ++ entry :: behind)
                     = true).
      { rewrite forallb_app in *. apply andb_prop in Hacc. destruct Hacc as [-> Hb].
        cbn [forallb]. rewrite Hb. unfold accepts.
        change (Server.request entry) with request. rewrite Hp. reflexivity. }
      destruct (@flush_accepted s4 (channelName request) channel _ Hso4 Hc4 Hget Hall)
        as (s' & -> & Hp' & _ & Hr').
      cbn [Server.state_of]. split; [exact Hr'|]. rewrite Hp'. apply get_delete_eq.
    + intros taken refused left -> Htaken Hrefused.
      rewrite <- app_assoc in Hget. cbn [app] in Hget.
      destruct (@flush_refused s4 (channelName request) channel taken _ refused
                  Hso4 Hc4 Hget Htaken Hrefused) as (s' & -> & Hp' & _ & Hr').
      cbn [Server.state_of]. split; [exact Hr'|]. rewrite Hp', Hget.
      rewrite <- app_assoc. reflexivity.
    + intros taken refused left -> Htaken Hrefused.
      assert (Hall : forallb (accepts channel (Server.ctx s4)) (ahead ++ entry :: taken)
                     = true).
      { rewrite forallb_app in *. apply andb_prop in Htaken. destruct Htaken as [-> Hb].
        cbn [forallb]. rewrite Hb. unfold accepts.
        change (Server.request entry) with request. rewrite Hp. reflexivity. }
      assert (Hget' : JsMap.get (channelName request) (Server.pendingRequests s4)
                      = Some ((ahead ++ entry :: taken) ++ refused :: left))
        by (rewrite Hget, <- app_assoc; reflexivity).
      destruct (@flush_refused s4 (channelName request) channel (ahead ++ entry :: taken)
                  _ refused Hso4 Hc4 Hget' Hall Hrefused) as (s' & -> & Hp' & _ & Hr').
      cbn [Server.state_of]. split; [exact Hr'|]. rewrite Hp'. exact Hget.
Qed.

End ServerFacts.

(** [split] on the stack of the specification's example. *)
Example split_stack :
  split newline ("line1" ++ String newline "line2") = ["line1"; "line2"]%string.
Proof. reflexivity. Qed.

(** C1 fails as stated: the request times out, the caller is answered
    [PromiseError], and the entry is still queued under "svc"; the channel
    is registered afterwards, its flush runs, and the service is called
    for the request that had timed out. *)
Lemma timed_out_request_is_dispatched_later :
  let s2 := Server.fireTimer 0 Sample.queued in
  let s3 := Server.registerChannel "svc" "service"%string s2 in
  let s4 := Server.fireTimer 1 s3 in
  Server.trace s2
  = [ Server.Send IRawInitializeResponse;
      Server.ConsoleError "Unknown channel: svc";
      Server.Send
        (IRawPromiseErrorResponse 7
           (mkErrorData "Channel name 'svc' timed out after 1000ms" "Unknown channel"
              StackUndefined)) ]
  /\ JsMap.get "svc"%string (Server.pendingRequests s2)
     = Some [Server.mkPendingRequest Sample.request 0]
  /\ Server.trace s4
     = Server.trace s2
         ++ [Server.Call "service"%string Sample.ctx "ping" (VString Sample.Other "hi") 7].
Proof. vm_compute. repeat split; reflexivity. Qed.

Lemma timeout_answers_and_keeps_entry_witness :
  let before := [Server.DoRegisterChannel "log" "logger"%string] in
  let between := [Server.DoReceive (ChannelRequest Sample.refusedSubscription)] in
  let after := [Server.DoDispose; Server.DoReceive (ChannelRequest Sample.subscription)] in
  let s := Server.run before (Server.new Sample.ctx Sample.ms_250) in
  let s1 := Server.run between (Server.step s (Server.DoReceive (ChannelRequest Sample.request))) in
  let s2 := Server.step s1 (Server.DoTimer 1) in
  let s3 := Server.run after s2 in
  type Sample.request = Promise
  /\ Server.protocolListener s <> None
  /\ JsMap.get (channelName Sample.request) (Server.channels s) = None
  /\ existsb (Server.registers (channelName Sample.request)) (between ++ after) = false
  /\ existsb (Server.fires (Server.nextTimer s)) between = false
  /\ Server.trace s2
     = Server.trace s1
         ++ [ Server.ConsoleError "Unknown channel: svc";
              Server.Send
                (IRawPromiseErrorResponse 7
                   (mkErrorData "Channel name 'svc' timed out after 250ms"
                      "Unknown channel" StackUndefined)) ]
  /\ Server.pendingRequests s2 = Server.pendingRequests s1.
Proof.
  cbv zeta.
  split; [reflexivity|]. split; [discriminate|]. do 3 (split; [reflexivity|]).
  pose proof (@timeout_answers_and_keeps_entry Sample.Any Sample.Channel Sample.Any
                Sample.Delay _ _ _ Sample.ctx Sample.ms_250
                [Server.DoRegisterChannel "log" "logger"%string]
                [Server.DoReceive (ChannelRequest Sample.refusedSubscription)]
                [Server.DoDispose; Server.DoReceive (ChannelRequest Sample.subscription)]
                Sample.request "service"%string
                eq_refl ltac:(discriminate) eq_refl eq_refl eq_refl) as H.
  split; [exact (proj1 H)|exact (proj1 (proj2 H))].
Defined.

(** C4 fails as stated: a server with a registered channel "log" and a
    request queued for "svc" is disposed; the registry, the queue and the
    armed timer are still there, and when the timer fires the disposed
    server answers [PromiseError]. *)
Lemma pending_timeout_fires_after_dispose :
  let s0 := Server.registerChannel "log" "logger"%string Sample.server in
  let s1 := Server.onRawMessage (ChannelRequest Sample.request) s0 in
  let s2 := Server.dispose s1 in
  JsMap.get "log"%string (Server.channels s2) = Some "logger"%string
  /\ JsMap.get "svc"%string (Server.pendingRequests s2)
     = Some [Server.mkPendingRequest Sample.request 1]
  /\ JsMap.get 1%N (Server.timers s2)
     = Some (Server.mkTimer (Server.PendingRequestTimeout Sample.request) Sample.ms_1000)
  /\ Server.trace (Server.fireTimer 1 s2)
     = Server.trace s2
         ++ [ Server.ConsoleError "Unknown channel: svc";
              Server.Send
                (IRawPromiseErrorResponse 7
                   (mkErrorData "Channel name 'svc' timed out after 1000ms"
                      "Unknown channel" StackUndefined)) ].
Proof. vm_compute. repeat split; reflexivity. Qed.

Lemma unknown_channel_times_out_witness :
  let before := [Server.DoRegisterChannel "log" "logger"%string] in
  let after := [ Server.DoTimer 0;
                 Server.DoRegisterChannel "audit" "auditor"%string ] in
  let s : Server.ChannelServer Sample.Any Sample.Channel Sample.Any Sample.Delay :=
    Server.run before (Server.new Sample.ctx Sample.ms_250) in
  let s2 := Server.run after (Server.step s (Server.DoReceive (ChannelRequest Sample.request))) in
  type Sample.request = Promise
  /\ Server.protocolListener s <> None
  /\ JsMap.get (channelName Sample.request) (Server.channels s) = None
  /\ existsb (Server.registers (channelName Sample.request)) after = false
  /\ existsb (Server.fires (Server.nextTimer s)) after = false
  /\ Server.trace (Server.step s2 (Server.DoTimer 1))
     = Server.trace s2
         ++ [ Server.ConsoleError "Unknown channel: svc";
              Server.Send
                (IRawPromiseErrorResponse 7
                   (mkErrorData "Channel name 'svc' timed out after 250ms"
                      "Unknown channel" StackUndefined)) ].
Proof.
  cbv zeta.
  split; [reflexivity|]. split; [discriminate|]. do 3 (split; [reflexivity|]).
  exact (proj2 (proj2
    (unknown_channel_times_out Sample.ctx Sample.ms_250
       [Server.DoRegisterChannel "log" "logger"%string]
       [ Server.DoTimer 0;
         Server.DoRegisterChannel "audit" "auditor"%string ]
       Sample.request
       eq_refl ltac:(discriminate) eq_refl eq_refl eq_refl))).
Defined.



(** ** ChannelClient *)

Section ClientFacts.

Context {Any : Type} {payloads : Serializes Any}.

Abbreviation ChannelClient := (Client.ChannelClient Any).

Ltac client_fields :=
  cbn [Client.state Client.activeRequests Client.handlers Client.lastRequestId
       Client.protocolListener Client.waits Client.finalizers Client.emitters
       Client.trace Client.emitter_request Client.listeners Client.serializable
       fst snd] in *.

Ltac client_unfold :=
  unfold Client.sendRequest, Client.resolve, Client.reject, Client.emit,
    Client.set_state, Client.set_activeRequests, Client.set_handlers,
    Client.set_lastRequestId, Client.set_protocolListener, Client.set_waits,
    Client.set_finalizers, Client.set_emitters in *.

Lemma fired_app (t u : list (Client.Effect Any)) :
  Client.fired (t ++ u) = Client.fired t + Client.fired u.
Proof. unfold Client.fired. rewrite filter_app, length_app. reflexivity. Qed.

Lemma answers_app (id : N) (t u : list (Client.Effect Any)) :
  Client.answers id (t ++ u) = Client.answers id t + Client.answers id u.
Proof. unfold Client.answers. rewrite filter_app, length_app. reflexivity. Qed.

(** What an operation other than the handling of [Initialize] does to the
    trace: it adds effects, none of them a firing of [onDidInitialize]. *)
Definition quiet (c c' : ChannelClient) : Prop :=
  Client.protocolListener c' = Client.protocolListener c
  /\ exists more, Client.trace c' = Client.trace c ++ more /\ Client.fired more = 0.

Lemma quiet_refl (c : ChannelClient) : quiet c c.
Proof. split; [reflexivity|]. exists []. rewrite app_nil_r. auto. Qed.

Lemma quiet_trans (c1 c2 c3 : ChannelClient) : quiet c1 c2 -> quiet c2 c3 -> quiet c1 c3.
Proof.
  intros (Hl & m & Ht & Hm) (Hl' & m' & Ht' & Hm'). split; [congruence|].
  exists (m ++ m'). rewrite Ht', Ht, app_assoc, fired_app, Hm, Hm'. auto.
Qed.

(** A state that differs in fields other than the listener, with some
    effects that are no firing added. *)
Lemma quiet_intro (c c' : ChannelClient) (more : list (Client.Effect Any)) :
  Client.protocolListener c' = Client.protocolListener c ->
  Client.trace c' = Client.trace c ++ more ->
  Client.fired more = 0 ->
  quiet c c'.
Proof. intros. split; [assumption|]. exists more. auto. Qed.

Lemma quiet_fold {A : Type} (f : ChannelClient -> A -> ChannelClient) (l : list A) :
  (forall c a, quiet c (f c a)) -> forall c, quiet c (fold_left f l c).
Proof.
  intros Hf. induction l as [|a l IH]; intros c; simpl.
  - apply quiet_refl.
  - eapply quiet_trans; [apply Hf|apply IH].
Qed.

Lemma cancel_quiet (id : N) (c : ChannelClient) : quiet c (Client.cancel id c).
Proof.
  unfold Client.cancel.
  destruct (existsb (Client.is_call_wait id) (Client.waits c)); client_unfold; client_fields.
  - eapply quiet_intro; client_fields; reflexivity.
  - eapply quiet_intro; client_fields; [reflexivity|rewrite <- app_assoc; reflexivity|reflexivity].
Qed.

Lemma requestPromise_quiet (channelName name : string) (arg : Any) (b : bool)
    (c : ChannelClient) :
  quiet c (Client.requestPromise channelName name arg b c).
Proof.
  unfold Client.requestPromise. destruct b; client_unfold; client_fields.
  - eapply quiet_intro; client_fields; reflexivity.
  - eapply quiet_intro with (more := []); client_fields;
      [reflexivity|rewrite app_nil_r; reflexivity|reflexivity].
Qed.

Lemma requestEvent_quiet (channelName name : string) (arg : Any) (c : ChannelClient) :
  quiet c (Client.requestEvent channelName name arg c).
Proof.
  unfold Client.requestEvent. client_unfold. client_fields.
  eapply quiet_intro with (more := []); client_fields;
    [reflexivity|rewrite app_nil_r; reflexivity|reflexivity].
Qed.

Lemma addListener_quiet (id : N) (c : ChannelClient) : quiet c (Client.addListener id c).
Proof.
  unfold Client.addListener. destruct (JsMap.get id (Client.emitters c)) as [e|];
    [|apply quiet_refl].
  unfold Client.onFirstListenerAdd. destruct (Client.listeners e);
    client_unfold; client_fields;
    (eapply quiet_intro with (more := []); client_fields;
     [reflexivity|rewrite app_nil_r; reflexivity|reflexivity]).
Qed.

Lemma onLastListenerRemove_quiet (id : N) (c : ChannelClient) :
  quiet c (Client.onLastListenerRemove id c).
Proof.
  unfold Client.onLastListenerRemove.
  destruct (existsb (Client.is_listen_wait id) (Client.waits c)); client_unfold; client_fields.
  - eapply quiet_intro with (more := []); client_fields;
      [reflexivity|rewrite app_nil_r; reflexivity|reflexivity].
  - eapply quiet_intro; client_fields; reflexivity.
Qed.

Lemma removeListener_quiet (id : N) (c : ChannelClient) : quiet c (Client.removeListener id c).
Proof.
  unfold Client.removeListener. destruct (JsMap.get id (Client.emitters c)) as [e|];
    [|apply quiet_refl].
  destruct (Client.listeners e) as [|[|n]]; [apply quiet_refl| |].
  - eapply quiet_trans; [|apply onLastListenerRemove_quiet].
    client_unfold. eapply quiet_intro with (more := []); client_fields;
      [reflexivity|rewrite app_nil_r; reflexivity|reflexivity].
  - client_unfold. eapply quiet_intro with (more := []); client_fields;
      [reflexivity|rewrite app_nil_r; reflexivity|reflexivity].
Qed.

Lemma promiseHandler_quiet (id : N) (response : IRawResponse Any) (c : ChannelClient) :
  quiet c (Client.promiseHandler id response c).
Proof.
  unfold Client.promiseHandler. destruct response; try apply quiet_refl;
    client_unfold; client_fields; eapply quiet_intro; client_fields; reflexivity.
Qed.

Lemma applyHandler_quiet (h : Client.IHandler) (response : IRawResponse Any)
    (c : ChannelClient) :
  quiet c (Client.applyHandler h response c).
Proof.
  destruct h; simpl; [apply promiseHandler_quiet|].
  client_unfold. eapply quiet_intro; client_fields; reflexivity.
Qed.

Lemma continue_quiet (c : ChannelClient) (w : Client.InitWait Any) :
  quiet c (Client.continue w c).
Proof.
  destruct w as [r|r]; unfold Client.continue; client_unfold; client_fields;
    (destruct (serializes (arg r));
     [ eapply quiet_intro; client_fields; reflexivity
     | eapply quiet_intro with (more := []); client_fields;
       [reflexivity|rewrite app_nil_r; reflexivity|reflexivity] ]).
Qed.

Lemma runMicrotasks_quiet (c : ChannelClient) : quiet c (Client.runMicrotasks c).
Proof.
  unfold Client.runMicrotasks.
  set (c1 := fold_left _ (Client.finalizers c) c).
  assert (H1 : quiet c c1).
  { apply quiet_fold. intros c0 a. client_unfold.
    eapply quiet_intro with (more := []); client_fields;
      [reflexivity|rewrite app_nil_r; reflexivity|reflexivity]. }
  assert (H2 : quiet c (Client.set_finalizers [] c1)).
  { eapply quiet_trans; [exact H1|]. client_unfold.
    eapply quiet_intro with (more := []); client_fields;
      [reflexivity|rewrite app_nil_r; reflexivity|reflexivity]. }
  destruct (Client.whenInitialized (Client.set_finalizers [] c1)); [|exact H2].
  eapply quiet_trans; [exact H2|]. eapply quiet_trans; [|apply quiet_fold].
  - client_unfold. eapply quiet_intro with (more := []); client_fields;
      [reflexivity|rewrite app_nil_r; reflexivity|reflexivity].
  - intros c0 w. apply continue_quiet.
Qed.

(** [dispose] fires nothing and leaves the client without its listener. *)
Lemma dispose_detaches (c : ChannelClient) :
  Client.protocolListener (Client.dispose c) = None
  /\ Client.fired (Client.trace (Client.dispose c)) = Client.fired (Client.trace c).
Proof.
  unfold Client.dispose.
  set (c1 := match Client.protocolListener c with
             | Some listener => _
             | None => c
             end).
  assert (H1 : Client.protocolListener c1 = None
               /\ Client.fired (Client.trace c1) = Client.fired (Client.trace c)).
  { subst c1. destruct (Client.protocolListener c) eqn:E; client_unfold; client_fields.
    - rewrite fired_app. simpl. auto.
    - auto. }
  assert (H2 : quiet c1 (fold_left (fun c p => Client.disposeRequest p c)
                           (Client.activeRequests c1) c1)).
  { apply quiet_fold. intros c0 d. unfold Client.disposeRequest.
    assert (quiet c0 (Client.emit (Client.Disposed d) c0))
      by (client_unfold; eapply quiet_intro; client_fields; reflexivity).
    destruct d; try assumption.
    eapply quiet_trans; [eassumption|apply cancel_quiet]. }
  destruct H2 as (Hl & more & Ht & Hm). destruct H1 as [Hn Hf].
  client_unfold. client_fields. split; [congruence|].
  rewrite Ht, fired_app, Hm, Hf. auto.
Qed.

Lemma quiet_fired (c c' : ChannelClient) :
  quiet c c' -> Client.fired (Client.trace c') = Client.fired (Client.trace c).
Proof. intros (_ & more & -> & Hm). rewrite fired_app, Hm. auto. Qed.

Lemma dispatch_quiet (id : N) (response : IRawResponse Any) (c : ChannelClient) :
  quiet c match JsMap.get id (Client.handlers c) with
          | Some handler => Client.applyHandler handler response c
          | None => c
          end.
Proof.
  destruct (JsMap.get id (Client.handlers c)); [apply applyHandler_quiet|apply quiet_refl].
Qed.

Lemma onResponse_fired (response : IRawResponse Any) (c : ChannelClient) :
  Client.protocolListener (Client.onResponse response c) = Client.protocolListener c
  /\ Client.fired (Client.trace (Client.onResponse response c))
     = Client.fired (Client.trace c)
       + match response with IRawInitializeResponse => 1 | _ => 0 end.
Proof.
  unfold Client.onResponse.
  destruct response as [|i d|i d|i d|i d]; cbn [response_id].
  1: client_unfold; client_fields; rewrite fired_app; split; reflexivity.
  all: pose proof (dispatch_quiet i) as Hq; split;
    [apply Hq|rewrite (quiet_fired (Hq _ c)); lia].
Qed.

(** Without its listener the client handles no frame, and no operation
    gives the listener back. *)
Lemma step_detached (c : ChannelClient) (i : Client.Input Any) :
  Client.protocolListener c = None ->
  Client.protocolListener (Client.step c i) = None
  /\ Client.fired (Client.trace (Client.step c i)) = Client.fired (Client.trace c).
Proof.
  intros Hn.
  assert (Hq : forall c', quiet c c' ->
                 Client.protocolListener c' = None
                 /\ Client.fired (Client.trace c') = Client.fired (Client.trace c))
    by (intros c' Hq; split; [destruct Hq; congruence|apply quiet_fired; exact Hq]).
  destruct i as [cn nm a b|i|cn nm a|i|i|response| |]; cbn [Client.step].
  - apply Hq, requestPromise_quiet.
  - destruct (N.ltb i (Client.lastRequestId c)); [apply Hq, cancel_quiet|auto].
  - apply Hq, requestEvent_quiet.
  - apply Hq, addListener_quiet.
  - apply Hq, removeListener_quiet.
  - unfold Client.receive. rewrite Hn. auto.
  - apply Hq, runMicrotasks_quiet.
  - apply dispose_detaches.
Qed.

Lemma run_cons (i : Client.Input Any) (l : list (Client.Input Any)) (c : ChannelClient) :
  Client.run (i :: l) c = Client.run l (Client.step c i).
Proof. reflexivity. Qed.

Lemma run_detached (inputs : list (Client.Input Any)) (c : ChannelClient) :
  Client.protocolListener c = None ->
  Client.fired (Client.trace (Client.run inputs c)) = Client.fired (Client.trace c).
Proof.
  revert c. induction inputs as [|i l IH]; intros c Hn; [reflexivity|].
  destruct (step_detached c i Hn) as [Hn' Hf].
  rewrite run_cons, (IH _ Hn'). exact Hf.
Qed.

Lemma run_fired (inputs : list (Client.Input Any)) (c : ChannelClient) :
  Client.protocolListener c <> None ->
  Client.fired (Client.trace (Client.run inputs c))
  = Client.fired (Client.trace c) + Client.initializations inputs.
Proof.
  revert c. induction inputs as [|i l IH]; intros c Hl; [simpl; lia|].
  assert (Hq : forall c', quiet c c' ->
                 Client.fired (Client.trace (Client.run l c'))
                 = Client.fired (Client.trace c) + Client.initializations l).
  { intros c' Hq. rewrite IH by (destruct Hq as [-> _]; exact Hl).
    rewrite (quiet_fired Hq). reflexivity. }
  rewrite run_cons.
  destruct i as [cn nm a b|i|cn nm a|i|i|response| |];
    cbn [Client.step Client.initializations].
  - apply Hq, requestPromise_quiet.
  - destruct (N.ltb i (Client.lastRequestId c));
      [apply Hq, cancel_quiet|apply Hq, quiet_refl].
  - apply Hq, requestEvent_quiet.
  - apply Hq, addListener_quiet.
  - apply Hq, removeListener_quiet.
  - unfold Client.receive, Client.onBuffer.
    destruct (Client.protocolListener c) eqn:El; [|congruence].
    destruct (onResponse_fired response c) as [Hl' Hf].
    rewrite IH by (rewrite Hl', El; discriminate). rewrite Hf.
    destruct response; lia.
  - apply Hq, runMicrotasks_quiet.
  - destruct (dispose_detaches c) as [Hn Hf].
    rewrite (run_detached l _ Hn), Hf. lia.
Qed.

(** C2, as the code has it. Whatever else happens to a client, its
    [onDidInitialize] event fires once for every [Initialize] frame it
    handles, the first one and every later one alike, and at no other
    time: the number of firings is the number of [Initialize] frames
    received before [dispose]. It fires exactly once only when exactly one
    such frame arrives. *)
Theorem onDidInitialize_fires_per_frame (inputs : list (Client.Input Any)) :
  Client.fired (Client.trace (Client.run inputs (Client.new Any)))
  = Client.initializations inputs.
Proof. rewrite run_fired by discriminate. reflexivity. Qed.

(** *** At most one answer per call *)

(** The call waits for [id] in a list of initialization waits. *)
Definition callWaits (id : N) (l : list (Client.InitWait Any)) : nat :=
  List.length (filter (Client.is_call_wait id) l).

(** Is a promise handler stored under [id]? *)
Definition handling (id : N) (c : ChannelClient) : nat :=
  match JsMap.get id (Client.handlers c) with
  | Some (Client.PromiseHandler _) => 1
  | _ => 0
  end.

(** The answers a call [id] can still get: one while the id is not issued
    yet, while its continuation waits for the initialization, and while
    its handler is stored. *)
Definition pending (c : ChannelClient) (id : N) : nat :=
  (if N.ltb id (Client.lastRequestId c) then 0 else 1)
  + callWaits id (Client.waits c)
  + handling id c.

(** Answers given and answers still possible. *)
Definition potential (c : ChannelClient) (id : N) : nat :=
  Client.answers id (Client.trace c) + pending c id.

(** Every promise handler is stored under the id it captured. *)
Definition own_ids (c : ChannelClient) : Prop :=
  forall id id', JsMap.get id (Client.handlers c) = Some (Client.PromiseHandler id') -> id' = id.

(** An operation that keeps [own_ids] and raises no potential. *)
Definition shrinks (c c' : ChannelClient) : Prop :=
  own_ids c -> own_ids c' /\ forall id, potential c' id <= potential c id.

Lemma shrinks_refl (c : ChannelClient) : shrinks c c.
Proof. intros H. split; [exact H|]. intros; lia. Qed.

Lemma shrinks_trans (c1 c2 c3 : ChannelClient) :
  shrinks c1 c2 -> shrinks c2 c3 -> shrinks c1 c3.
Proof.
  intros H12 H23 H1. destruct (H12 H1) as [H2 Hp]. destruct (H23 H2) as [H3 Hp'].
  split; [exact H3|]. intros id. specialize (Hp id). specialize (Hp' id). lia.
Qed.

Lemma shrinks_fold {A : Type} (f : ChannelClient -> A -> ChannelClient) (l : list A) :
  (forall c a, shrinks c (f c a)) -> forall c, shrinks c (fold_left f l c).
Proof.
  intros Hf. induction l as [|a l IH]; intros c; simpl.
  - apply shrinks_refl.
  - eapply shrinks_trans; [apply Hf|apply IH].
Qed.

Lemma answers_snoc (id : N) (t : list (Client.Effect Any)) (e : Client.Effect Any) :
  Client.answers id (t ++ [e])
  = Client.answers id t + (if Client.is_answer id e then 1 else 0).
Proof.
  rewrite answers_app. unfold Client.answers at 2. simpl.
  destruct (Client.is_answer id e); reflexivity.
Qed.

Lemma callWaits_app (id : N) (l l' : list (Client.InitWait Any)) :
  callWaits id (l ++ l') = callWaits id l + callWaits id l'.
Proof. unfold callWaits. rewrite filter_app, length_app. reflexivity. Qed.

Lemma callWaits_filter (id : N) (p : Client.InitWait Any -> bool)
    (l : list (Client.InitWait Any)) :
  callWaits id (filter p l) <= callWaits id l.
Proof.
  unfold callWaits. induction l as [|w l IH]; simpl; [lia|].
  destruct (p w); simpl; destruct (Client.is_call_wait id w); simpl; lia.
Qed.

Lemma callWaits_drop_listen (k i : N) (l : list (Client.InitWait Any)) :
  callWaits k (filter (fun w => negb (Client.is_listen_wait i w)) l) = callWaits k l.
Proof.
  unfold callWaits. induction l as [|w l IH]; [reflexivity|].
  destruct w as [r|r]; cbn [filter Client.is_listen_wait Client.is_call_wait negb].
  - destruct (N.eqb (id r) k); cbn [List.length]; rewrite IH; reflexivity.
  - destruct (N.eqb (id r) i); cbn [negb filter Client.is_call_wait]; exact IH.
Qed.

(** Operations that leave the handlers and the id counter alone, add no
    call wait and no answer. *)
Lemma shrinks_intro (c c' : ChannelClient) :
  Client.handlers c' = Client.handlers c ->
  Client.lastRequestId c' = Client.lastRequestId c ->
  (forall k, callWaits k (Client.waits c') <= callWaits k (Client.waits c)) ->
  (forall k, Client.answers k (Client.trace c') = Client.answers k (Client.trace c)) ->
  shrinks c c'.
Proof.
  intros Hh Hl Hw Ha Hown. split.
  - intros k k'. rewrite Hh. apply Hown.
  - intros k. unfold potential, pending, handling. rewrite Hh, Hl, Ha.
    specialize (Hw k). lia.
Qed.

Lemma cancel_shrinks (i : N) (c : ChannelClient) : shrinks c (Client.cancel i c).
Proof.
  unfold Client.cancel.
  destruct (existsb (Client.is_call_wait i) (Client.waits c));
    client_unfold; apply shrinks_intro; client_fields; try reflexivity; intros k;
    rewrite ?answers_snoc; cbn [Client.is_answer]; try lia.
  apply callWaits_filter.
Qed.

Lemma callWaits_one (k : N) (w : Client.InitWait Any) :
  callWaits k [w] = if Client.is_call_wait k w then 1 else 0.
Proof. unfold callWaits. simpl. destruct (Client.is_call_wait k w); reflexivity. Qed.

Lemma requestPromise_shrinks (cn nm : string) (a : Any) (b : bool) (c : ChannelClient) :
  shrinks c (Client.requestPromise cn nm a b c).
Proof.
  intros Hown. unfold Client.requestPromise.
  destruct b; client_unfold; (split; [exact Hown|]); intros k;
    unfold potential, pending, handling; client_fields;
    rewrite ?answers_snoc, ?callWaits_app, ?callWaits_one;
    cbn [Client.is_answer Client.is_call_wait id];
    destruct (N.ltb_spec k (Client.lastRequestId c));
    destruct (N.ltb_spec k (Client.lastRequestId c + 1));
    try destruct (N.eqb_spec (Client.lastRequestId c) k);
    lia.
Qed.

Lemma requestEvent_shrinks (cn nm : string) (a : Any) (c : ChannelClient) :
  shrinks c (Client.requestEvent cn nm a c).
Proof.
  intros Hown. unfold Client.requestEvent. client_unfold. split.
  - intros k k'. client_fields.
    destruct (N.eq_dec k (Client.lastRequestId c)) as [->|Hne].
    + rewrite get_set_eq. discriminate.
    + rewrite get_set_ne by exact Hne. apply Hown.
  - intros k. unfold potential, pending, handling. client_fields.
    destruct (N.eq_dec k (Client.lastRequestId c)) as [->|Hne].
    + rewrite get_set_eq.
      destruct (N.ltb_spec (Client.lastRequestId c) (Client.lastRequestId c));
        destruct (N.ltb_spec (Client.lastRequestId c) (Client.lastRequestId c + 1));
        lia.
    + rewrite get_set_ne by exact Hne.
      destruct (N.ltb_spec k (Client.lastRequestId c));
        destruct (N.ltb_spec k (Client.lastRequestId c + 1)); lia.
Qed.

Lemma addListener_shrinks (i : N) (c : ChannelClient) : shrinks c (Client.addListener i c).
Proof.
  unfold Client.addListener. destruct (JsMap.get i (Client.emitters c)) as [e|];
    [|apply shrinks_refl].
  unfold Client.onFirstListenerAdd. destruct (Client.listeners e);
    client_unfold; apply shrinks_intro; client_fields; try reflexivity; intros k;
    rewrite ?callWaits_app, ?callWaits_one; cbn [Client.is_call_wait]; lia.
Qed.

Lemma onLastListenerRemove_shrinks (i : N) (c : ChannelClient) :
  shrinks c (Client.onLastListenerRemove i c).
Proof.
  unfold Client.onLastListenerRemove.
  destruct (existsb (Client.is_listen_wait i) (Client.waits c));
    client_unfold; apply shrinks_intro; client_fields; try reflexivity; intros k;
    rewrite ?answers_snoc, ?callWaits_drop_listen; cbn [Client.is_answer]; lia.
Qed.

Lemma removeListener_shrinks (i : N) (c : ChannelClient) :
  shrinks c (Client.removeListener i c).
Proof.
  unfold Client.removeListener. destruct (JsMap.get i (Client.emitters c)) as [e|];
    [|apply shrinks_refl].
  destruct (Client.listeners e) as [|[|n]]; [apply shrinks_refl| |].
  - eapply shrinks_trans; [|apply onLastListenerRemove_shrinks].
    client_unfold. apply shrinks_intro; client_fields; try reflexivity; intros; lia.
  - client_unfold. apply shrinks_intro; client_fields; try reflexivity; intros; lia.
Qed.

(** The handler of call [i], stored under [i], acting on a response. *)
Lemma promiseHandler_shrinks (i : N) (response : IRawResponse Any) (c : ChannelClient) :
  (exists i', JsMap.get i (Client.handlers c) = Some (Client.PromiseHandler i')) ->
  shrinks c (Client.promiseHandler i response c).
Proof.
  intros [i' Hi] Hown. unfold Client.promiseHandler.
  destruct response as [|j d|j d|j d|j d]; try (apply shrinks_refl; exact Hown);
    client_unfold; client_fields.
  all: split;
    [ intros k k'; client_fields;
      destruct (N.eq_dec k i) as [->|Hne];
      [rewrite get_delete_eq; discriminate|rewrite get_delete_ne by exact Hne; apply Hown]
    | intros k; unfold potential, pending, handling; client_fields;
      rewrite answers_snoc; cbn [Client.is_answer];
      destruct (N.eq_dec k i) as [->|Hne];
      [ rewrite get_delete_eq, Hi, N.eqb_refl; lia
      | rewrite get_delete_ne by exact Hne;
        destruct (N.eqb_spec i k); [congruence|lia] ] ].
Qed.

Lemma onResponse_shrinks (response : IRawResponse Any) (c : ChannelClient) :
  shrinks c (Client.onResponse response c).
Proof.
  unfold Client.onResponse. destruct (response_id response) as [i|].
  - destruct (JsMap.get i (Client.handlers c)) as [[i'|i']|] eqn:Eh;
      [| |apply shrinks_refl].
    + intros Hown. pose proof (Hown _ _ Eh) as ->.
      cbn [Client.applyHandler]. apply promiseHandler_shrinks; eauto.
    + cbn [Client.applyHandler]. client_unfold.
      apply shrinks_intro; client_fields; try reflexivity; intros k;
        rewrite ?answers_snoc; cbn [Client.is_answer]; lia.
  - client_unfold. apply shrinks_intro; client_fields; try reflexivity; intros k;
      rewrite ?answers_snoc; cbn [Client.is_answer]; lia.
Qed.

Lemma continue_fold (l : list (Client.InitWait Any)) (c : ChannelClient) :
  own_ids c ->
  own_ids (fold_left (fun c w => Client.continue w c) l c)
  /\ forall k, potential (fold_left (fun c w => Client.continue w c) l c) k
               <= potential c k + callWaits k l.
Proof.
  revert c. induction l as [|w l IH]; intros c Hown; simpl.
  - split; [exact Hown|]. intros k. unfold callWaits. simpl. lia.
  - assert (H1 : own_ids (Client.continue w c)
                 /\ forall k, potential (Client.continue w c) k
                              <= potential c k + callWaits k [w]).
    { destruct w as [r|r]; unfold Client.continue; client_unfold; client_fields;
        destruct (serializes (arg r)); split.
      1,3: intros k k'; client_fields; destruct (N.eq_dec k (id r)) as [->|Hne];
        [ rewrite get_set_eq; congruence
        | rewrite get_set_ne by exact Hne; apply Hown ].
      1,2: intros k; unfold potential, pending, handling; client_fields;
        rewrite ?answers_snoc, callWaits_one; cbn [Client.is_answer Client.is_call_wait];
        destruct (N.eq_dec k (id r)) as [->|Hne];
        [ rewrite get_set_eq, N.eqb_refl; lia
        | rewrite get_set_ne by exact Hne;
          destruct (N.eqb_spec (id r) k); [congruence|lia] ].
      1,3: exact Hown.
      all: intros k; unfold potential, pending, handling; client_fields;
        rewrite ?answers_snoc; cbn [Client.is_answer]; lia. }
    destruct H1 as [Hown1 Hp1]. destruct (IH _ Hown1) as [Hown2 Hp2].
    split; [exact Hown2|]. intros k. specialize (Hp1 k). specialize (Hp2 k).
    change (w :: l) with ([w] ++ l). rewrite callWaits_app. lia.
Qed.

Lemma runMicrotasks_shrinks (c : ChannelClient) : shrinks c (Client.runMicrotasks c).
Proof.
  unfold Client.runMicrotasks.
  set (c1 := fold_left _ (Client.finalizers c) c).
  assert (H1 : shrinks c c1).
  { apply shrinks_fold. intros c0 a. client_unfold.
    apply shrinks_intro; client_fields; try reflexivity; intros; lia. }
  assert (H2 : shrinks c (Client.set_finalizers [] c1)).
  { eapply shrinks_trans; [exact H1|]. client_unfold.
    apply shrinks_intro; client_fields; try reflexivity; intros; lia. }
  destruct (Client.whenInitialized (Client.set_finalizers [] c1)); [|exact H2].
  eapply shrinks_trans; [exact H2|]. intros Hown.
  set (c2 := Client.set_finalizers [] c1) in *.
  assert (Hown' : own_ids (Client.set_waits [] c2)) by exact Hown.
  destruct (continue_fold (Client.waits c2) Hown') as [Hown3 Hp].
  split; [exact Hown3|]. intros k. specialize (Hp k).
  unfold potential, pending, handling in *. client_unfold. client_fields.
  change (callWaits k []) with 0 in Hp. lia.
Qed.

Lemma dispose_shrinks (c : ChannelClient) : shrinks c (Client.dispose c).
Proof.
  unfold Client.dispose.
  set (c1 := match Client.protocolListener c with
             | Some listener => _
             | None => c
             end).
  assert (H1 : shrinks c c1).
  { subst c1. destruct (Client.protocolListener c); [|apply shrinks_refl].
    client_unfold. apply shrinks_intro; client_fields; try reflexivity; intros k;
      rewrite ?answers_snoc; cbn [Client.is_answer]; lia. }
  set (c2 := fold_left (fun c p => Client.disposeRequest p c) (Client.activeRequests c1) c1).
  assert (H2 : shrinks c1 c2).
  { apply shrinks_fold. intros c0 d. unfold Client.disposeRequest.
    assert (shrinks c0 (Client.emit (Client.Disposed d) c0)).
    { client_unfold. apply shrinks_intro; client_fields; try reflexivity; intros k;
        rewrite ?answers_snoc; cbn [Client.is_answer]; lia. }
    destruct d; try assumption.
    eapply shrinks_trans; [eassumption|apply cancel_shrinks]. }
  eapply shrinks_trans; [exact H1|]. eapply shrinks_trans; [exact H2|].
  client_unfold. apply shrinks_intro; client_fields; try reflexivity; intros; lia.
Qed.

Lemma step_shrinks (c : ChannelClient) (i : Client.Input Any) : shrinks c (Client.step c i).
Proof.
  destruct i as [cn nm a b|i|cn nm a|i|i|response| |]; cbn [Client.step].
  - apply requestPromise_shrinks.
  - destruct (N.ltb i (Client.lastRequestId c)); [apply cancel_shrinks|apply shrinks_refl].
  - apply requestEvent_shrinks.
  - apply addListener_shrinks.
  - apply removeListener_shrinks.
  - unfold Client.receive, Client.onBuffer. destruct (Client.protocolListener c);
      [apply onResponse_shrinks|apply shrinks_refl].
  - apply runMicrotasks_shrinks.
  - apply dispose_shrinks.
Qed.

(** C5. Whatever a client is asked to do and whatever frames reach it, for
    every request id at most one terminal response is acted upon. The
    handler of a call is stored under the id of the call; the first
    terminal response ([PromiseSuccess], [PromiseError] or
    [PromiseErrorObj]) for that id settles the promise and removes the
    handler, and every further response with the same id leaves the client
    exactly as it is. *)
Theorem at_most_one_terminal_response :
  (forall (inputs : list (Client.Input Any)) (k : N),
     Client.answers k (Client.trace (Client.run inputs (Client.new Any))) <= 1)
  /\ (forall (c : ChannelClient) (k : N) (response : IRawResponse Any),
        JsMap.get k (Client.handlers c) = Some (Client.PromiseHandler k) ->
        response_id response = Some k ->
        Client.terminal response = true ->
        let c' := Client.onResponse response c in
        JsMap.get k (Client.handlers c') = None
        /\ Client.answers k (Client.trace c') = Client.answers k (Client.trace c) + 1
        /\ forall response' : IRawResponse Any,
             response_id response' = Some k -> Client.onResponse response' c' = c').
Proof.
  split.
  - intros inputs k.
    assert (Hnew : own_ids (Client.new Any)) by (intros i i'; discriminate).
    destruct (@shrinks_fold _ Client.step inputs step_shrinks (Client.new Any) Hnew)
      as [_ Hp].
    specialize (Hp k). unfold Client.run.
    assert (potential (Client.new Any) k = 1)
      by (unfold potential, pending, handling; simpl;
          destruct (N.ltb_spec k 0); [lia|reflexivity]).
    unfold potential in Hp at 1. lia.
  - intros c k response Hh Hid Hterm. cbv zeta.
    assert (Hgone : JsMap.get k (Client.handlers (Client.onResponse response c)) = None
                    /\ Client.answers k (Client.trace (Client.onResponse response c))
                       = Client.answers k (Client.trace c) + 1).
    { unfold Client.onResponse. rewrite Hid, Hh. cbn [Client.applyHandler].
      destruct response as [|j d|j d|j d|j d]; try discriminate;
        unfold Client.promiseHandler; client_unfold; client_fields;
        rewrite answers_snoc; cbn [Client.is_answer]; rewrite N.eqb_refl;
        split; [apply get_delete_eq|reflexivity|apply get_delete_eq|reflexivity
               |apply get_delete_eq|reflexivity]. }
    destruct Hgone as [Hnone Hcount]. split; [exact Hnone|]. split; [exact Hcount|].
    intros response' Hid'. unfold Client.onResponse at 1. rewrite Hid', Hnone. reflexivity.
Qed.

(** C3, as the code has it. When the last subscriber is removed from an
    event of [listen] whose initialization wait is over, the client drops
    the emitter from [activeRequests] and sends [EventDispose(id)]. The
    [handlers] map is not touched: the response handler stored under the
    id by [requestEvent] stays there. *)
Theorem last_listener_removed_sends_dispose (c : ChannelClient) (k : N)
    (e : Client.Emitter Any) (handler : Client.IHandler) :
  JsMap.get k (Client.emitters c) = Some e ->
  Client.listeners e = 1 ->
  existsb (Client.is_listen_wait k) (Client.waits c) = false ->
  JsMap.get k (Client.handlers c) = Some handler ->
  let c' := Client.removeListener k c in
  Client.trace c' = Client.trace c ++ [Client.Send (IdRequest EventDispose k)]
  /\ Client.activeRequests c'
     = JsSet.delete (Client.EventEmitter k) (Client.activeRequests c)
  /\ Client.handlers c' = Client.handlers c
  /\ JsMap.get k (Client.handlers c') = Some handler.
Proof.
  intros He Hone Hwait Hh. cbv zeta.
  unfold Client.removeListener. rewrite He, Hone.
  unfold Client.onLastListenerRemove. client_unfold. client_fields.
  rewrite Hwait. client_fields. repeat split. exact Hh.
Qed.

End ClientFacts.

(** C2 fails as stated: a second [Initialize] frame fires
    [onDidInitialize] a second time. *)
Lemma second_initialize_fires_again :
  Client.trace
    (Client.run [ Client.DoReceive IRawInitializeResponse;
                  Client.DoReceive IRawInitializeResponse ]
       (Client.new Sample.Any))
  = [Client.DidInitialize; Client.DidInitialize].
Proof. reflexivity. Qed.

(** C3 fails as stated: an event is listened to, the client is
    initialized, a subscriber comes, the [EventListen] request goes out,
    the subscriber leaves; [EventDispose] is sent and the handler is still
    stored under the id. *)
Lemma handler_stays_after_last_listener :
  let c :=
    Client.run [ Client.DoListen "svc" "onTick" (VUndefined Sample.Other);
                 Client.DoReceive IRawInitializeResponse;
                 Client.DoAddListener 0;
                 Client.DoMicrotasks;
                 Client.DoRemoveListener 0 ]
      (Client.new Sample.Any) in
  Client.trace c
  = [ Client.DidInitialize;
      Client.Send (ChannelRequest
                     (mkChannelRequest EventListen 0 "svc" "onTick" (VUndefined Sample.Other)));
      Client.Send (IdRequest EventDispose 0) ]
  /\ JsMap.get 0%N (Client.handlers c) = Some (Client.EventHandler 0).
Proof. vm_compute. split; reflexivity. Qed.

Lemma last_listener_removed_sends_dispose_witness :
  existsb (Client.is_listen_wait 0) (Client.waits Sample.listening) = false
  /\ JsMap.get 0%N (Client.handlers Sample.listening) = Some (Client.EventHandler 0)
  /\ Client.trace (Client.removeListener 0 Sample.listening)
     = Client.trace Sample.listening ++ [Client.Send (IdRequest EventDispose 0)].
Proof.
  do 2 (split; [reflexivity|]).
  exact (proj1
    (last_listener_removed_sends_dispose Sample.listening 0
       (e := Client.mkEmitter
               (mkChannelRequest EventListen 0 "svc" "onTick" (VUndefined Sample.Other)) 1)
       (handler := Client.EventHandler 0) eq_refl eq_refl eq_refl eq_refl)).
Defined.

(** A call is answered twice: only the first answer is acted upon. *)
Example second_answer_is_ignored :
  Client.trace
    (Client.run [ Client.DoReceive IRawInitializeResponse;
                  Client.DoCall "svc" "ping" (VString Sample.Other "hi") false;
                  Client.DoMicrotasks;
                  Client.DoReceive (IRawPromiseSuccessResponse 0 (VString _ "hi!"));
                  Client.DoReceive (IRawPromiseSuccessResponse 0 (VString _ "again")) ]
       (Client.new Sample.Any))
  = [ Client.DidInitialize;
      Client.Send (ChannelRequest
                     (mkChannelRequest Promise 0 "svc" "ping" (VString Sample.Other "hi")));
      Client.Resolve 0 (VString _ "hi!") ].
Proof. reflexivity. Qed.

(** ** IPCServer *)

Section HubFacts.

Variable Other : Type.
Variable JSON_parse : string -> option Other.
Variable toString : VSBuffer.t -> string.
Variables Any Channel Number : Type.
Context {numbers : JsNumber Number} {payloads : Serializes Any}
  {services : IServerChannel Channel (Value Other) Any}.

Abbreviation IPCServer := (Hub.IPCServer Other Any Channel Number).
Abbreviation Connection := (Hub.Connection Other Any Channel Number).


(** One turn of the loop of [registerChannel] over [_connections]. *)
Definition forward (channelName : string) (channel : Channel)
    (heap_ : JsMap.t N Connection) (ref : N) : JsMap.t N Connection :=
  match JsMap.get ref heap_ with
  | Some connection =>
      JsMap.set ref
        (Hub.mkConnection
           (Server.registerChannel channelName channel (Hub.channelServer connection))
           (Hub.channelClient connection) (Hub.ctx connection)) heap_
  | None => heap_
  end.



End HubFacts.

(** A peer connects to a hub that hosts "svc"; the hub is disposed, and the
    server of the connection still listens; the peer disconnects, and the
    server has lost its listener. *)
Example hub_dispose_then_disconnect :
  let msg := encode Sample.JSON_stringify Sample.fromString Sample.ctx in
  let h0 := Hub.registerChannel "svc" "service"%string
              (Hub.new Sample.Other Sample.Any Sample.Channel Sample.Delay) in
  let h1 := Hub.onFirstMessage Sample.JSON_parse Sample.toString msg h0 in
  let h2 := Hub.dispose h1 in
  let h3 := Hub.onDidClientDisconnect 0 h2 in
  let listener (h : Hub.IPCServer Sample.Other Sample.Any Sample.Channel Sample.Delay) :=
    option_map (fun c => Server.protocolListener (Hub.channelServer c))
      (JsMap.get 0%N (Hub.heap h)) in
  Hub._connections h1 = [0%N]
  /\ Hub._connections h2 = []
  /\ listener h2 = Some (Some Server.ProtocolListener)
  /\ listener h3 = Some None.
Proof. vm_compute. repeat split; reflexivity. Qed.

(** * Further properties of the code *)

(** ** The codec on any input *)

Section CodecBounds.

Variable Other : Type.
Variable JSON_stringify : Other -> string.
Variable JSON_parse : string -> option Other.
Variable fromString : string -> VSBuffer.t.
Variable toString : VSBuffer.t -> string.

Abbreviation Value := (Value Other).
Abbreviation encode := (encode JSON_stringify fromString).
Abbreviation deserialize_fuel := (deserialize_fuel JSON_parse toString).
Abbreviation Representable := (Representable JSON_stringify JSON_parse fromString toString).

(** [read(bytes)] in terms of what lies at the reader's position. *)
Lemma read_skipn (r : BufferReader.t) (n : N) :
  let chunk := firstn (N.to_nat n) (skipn (BufferReader.pos r) (BufferReader.buffer r)) in
  BufferReader.read r (Int n)
  = (chunk, BufferReader.mk (BufferReader.buffer r) (BufferReader.pos r + List.length chunk)).
Proof.
  cbv zeta. unfold BufferReader.read, BufferReader.offset, VSBuffer.slice.
  replace (N.to_nat (N.of_nat (BufferReader.pos r) + n) - BufferReader.pos r)
    with (N.to_nat n) by lia.
  reflexivity.
Qed.

Lemma read_at (r : BufferReader.t) (chunk rest : VSBuffer.t) (n : N) :
  skipn (BufferReader.pos r) (BufferReader.buffer r) = chunk ++ rest ->
  N.to_nat n = List.length chunk ->
  BufferReader.read r (Int n)
  = (chunk, BufferReader.mk (BufferReader.buffer r) (BufferReader.pos r + List.length chunk))
  /\ skipn (BufferReader.pos r + List.length chunk) (BufferReader.buffer r) = rest.
Proof.
  intros Hs Hn. pose proof (read_skipn r n) as R. cbv zeta in R.
  rewrite Hs, Hn, firstn_app, firstn_all, Nat.sub_diag in R. simpl in R.
  rewrite app_nil_r in R. split; [exact R|].
  rewrite Nat.add_comm, <- skipn_skipn, Hs, skipn_app, skipn_all, Nat.sub_diag.
  reflexivity.
Qed.

(** The reader [r'] is [r] moved forward, and not past the end of the
    buffer. *)
Definition within (r r' : BufferReader.t) : Prop :=
  BufferReader.buffer r' = BufferReader.buffer r
  /\ BufferReader.pos r <= BufferReader.pos r'
  /\ BufferReader.pos r'
     <= Nat.max (BufferReader.pos r) (List.length (BufferReader.buffer r)).

Lemma within_refl (r : BufferReader.t) : within r r.
Proof. unfold within. repeat split; lia. Qed.

Lemma within_trans (r1 r2 r3 : BufferReader.t) : within r1 r2 -> within r2 r3 -> within r1 r3.
Proof.
  unfold within. intros (Hb & Hl & Hu) (Hb' & Hl' & Hu'). rewrite Hb in *.
  repeat split; [congruence|lia|lia].
Qed.

Lemma read_within (r : BufferReader.t) (n : Num) : within r (snd (BufferReader.read r n)).
Proof.
  unfold within, BufferReader.read. cbn [snd BufferReader.buffer BufferReader.pos].
  set (result := VSBuffer.slice (BufferReader.buffer r) (BufferReader.pos r)
                   (BufferReader.offset (BufferReader.pos r) n)).
  assert (Hlen : List.length result
                 <= List.length (BufferReader.buffer r) - BufferReader.pos r).
  { subst result. unfold VSBuffer.slice.
    destruct (BufferReader.offset (BufferReader.pos r) n); simpl; [lia|].
    rewrite length_firstn, length_skipn. lia. }
  repeat split; lia.
Qed.

Lemma readSizeBuffer_within (r : BufferReader.t) : within r (snd (readSizeBuffer r)).
Proof.
  unfold readSizeBuffer. pose proof (read_within r (Int 4)) as H.
  destruct (BufferReader.read r (Int 4)). exact H.
Qed.

Lemma for_loop_within (body : BufferReader.t -> Completion (Value * BufferReader.t)) :
  (forall r v r', body r = Return (v, r') -> within r r') ->
  forall count acc r l r', for_loop body count acc r = Return (l, r') -> within r r'.
Proof.
  intros Hbody. induction count as [|count IH]; intros acc r l r'; simpl.
  - intros [= _ <-]. apply within_refl.
  - destruct (body r) as [[el r1]| |] eqn:E; try discriminate.
    intros Hl. eapply within_trans; [exact (Hbody _ _ _ E)|exact (IH _ _ _ _ Hl)].
Qed.

Lemma deserialize_fuel_within (fuel : nat) :
  forall r v r', deserialize_fuel fuel r = Return (v, r') -> within r r'.
Proof.
  induction fuel as [|f IH]; intros r v r'; [discriminate|].
  rewrite deserialize_fuel_S.
  pose proof (read_within r (Int 1)) as H1.
  destruct (BufferReader.read r (Int 1)) as [tag r1]. cbn [snd] in H1.
  destruct (VSBuffer.readUInt8 tag) as [type|]; [|intros [= _ <-]; exact H1].
  pose proof (readSizeBuffer_within r1) as H2.
  destruct (DataType_of_code type) as [[| | | | |]|];
    try (intros [= _ <-]; exact H1);
    destruct (readSizeBuffer r1) as [size r2]; cbn [snd] in H2.
  1-3: pose proof (read_within r2 size) as H3;
       destruct (BufferReader.read r2 size) as [b r3]; cbn [snd] in H3;
       intros [= _ <-]; eauto using within_trans.
  - destruct (for_loop (deserialize_fuel f) (iterations size) [] r2) as [[l r3]| |] eqn:E;
      try discriminate.
    intros [= _ <-]. eapply for_loop_within in E; [|exact IH]. eauto using within_trans.
  - pose proof (read_within r2 size) as H3.
    destruct (BufferReader.read r2 size) as [b r3]. cbn [snd] in H3.
    destruct (JSON_parse (toString b)); try discriminate.
    intros [= _ <-]. eauto using within_trans.
Qed.

(** X1. Whatever bytes it is given, [deserialize] returns or throws, and
    when it returns the reader still holds the same buffer, has not moved
    back, and has not moved past the end of the buffer. *)
Theorem deserialize_stays_in_buffer (reader : BufferReader.t) :
  match deserialize JSON_parse toString reader with
  | Return (_, reader') =>
      BufferReader.buffer reader' = BufferReader.buffer reader
      /\ BufferReader.pos reader <= BufferReader.pos reader'
      /\ BufferReader.pos reader'
         <= Nat.max (BufferReader.pos reader) (List.length (BufferReader.buffer reader))
  | Throw => True
  | Exhausted => False
  end.
Proof.
  pose proof (deserialize_never_exhausted JSON_parse toString reader) as Hne.
  unfold deserialize in *.
  destruct (deserialize_fuel (S (BufferReader.remaining reader)) reader) as [[v r']| |] eqn:E.
  - exact (deserialize_fuel_within _ _ E).
  - exact I.
  - congruence.
Qed.

(** At the reader [r] lies a value tagged [Object] whose text
    [JSON.parse] rejects: the tag byte, the four bytes of the size, and
    the text that [toString] decodes from the bytes that follow. *)
Definition rejects (r : BufferReader.t) : Prop :=
  exists tag r1 size r2 text r3,
    BufferReader.read r (Int 1) = (tag, r1)
    /\ VSBuffer.readUInt8 tag = Some (DataType_code Object)
    /\ readSizeBuffer r1 = (size, r2)
    /\ BufferReader.read r2 size = (text, r3)
    /\ JSON_parse (toString text) = None.

Lemma for_loop_throws (body : BufferReader.t -> Completion (Value * BufferReader.t)) :
  (forall r v r', body r = Return (v, r') -> within r r') ->
  forall count acc r, for_loop body count acc r = Throw ->
    exists r', within r r' /\ body r' = Throw.
Proof.
  intros Hbody. induction count as [|count IH]; intros acc r; simpl; [discriminate|].
  destruct (body r) as [[el r1]| |] eqn:E; try discriminate.
  - intros Hl. destruct (IH _ _ Hl) as (r' & Hw & Ht). exists r'. split; [|exact Ht].
    eapply within_trans; [exact (Hbody _ _ _ E)|exact Hw].
  - intros _. exists r. split; [apply within_refl|exact E].
Qed.

Lemma DataType_of_code_Object (n : N) :
  DataType_of_code n = Some Object -> n = DataType_code Object.
Proof.
  destruct n as [|[[[|[]|]|[[]| |]|]|[[]|[]|]|]]; cbn; congruence.
Qed.

Lemma deserialize_fuel_throws (fuel : nat) (r : BufferReader.t) :
  deserialize_fuel fuel r = Throw -> exists r', within r r' /\ rejects r'.
Proof.
  revert r. induction fuel as [|f IH]; intros r; [discriminate|].
  rewrite deserialize_fuel_S.
  pose proof (read_within r (Int 1)) as H1.
  destruct (BufferReader.read r (Int 1)) as [tag r1] eqn:E1. cbn [snd] in H1.
  destruct (VSBuffer.readUInt8 tag) as [type|] eqn:Et; [|discriminate].
  pose proof (readSizeBuffer_within r1) as H2.
  destruct (DataType_of_code type) as [[| | | | |]|] eqn:Ed; try discriminate;
    destruct (readSizeBuffer r1) as [size r2] eqn:E2; cbn [snd] in H2.
  - destruct (for_loop (deserialize_fuel f) (iterations size) [] r2) as [[l r3]| |] eqn:E;
      try discriminate.
    intros _.
    destruct (@for_loop_throws (deserialize_fuel f) (deserialize_fuel_within f) _ _ _ E)
      as (r' & Hw & Ht).
    destruct (IH _ Ht) as (r'' & Hw' & Hr). exists r''. split; [|exact Hr].
    eauto using within_trans.
  - destruct (BufferReader.read r2 size) as [b r3] eqn:E3.
    destruct (JSON_parse (toString b)) eqn:E; [discriminate|].
    intros _. exists r. split; [apply within_refl|].
    exists tag, r1, size, r2, b, r3. rewrite Et, (DataType_of_code_Object _ Ed). auto.
Qed.

Lemma rejects_throws (fuel : nat) (r : BufferReader.t) :
  rejects r -> deserialize_fuel (S fuel) r = Throw.
Proof.
  intros (tag & r1 & size & r2 & text & r3 & E1 & Et & E2 & E3 & E).
  rewrite deserialize_fuel_S, E1, Et. cbn [DataType_of_code DataType_code].
  rewrite E2, E3, E. reflexivity.
Qed.

(** X2. The only exception [deserialize] raises is the one of
    [JSON.parse], and it raises it where the buffer has it: when a value
    tagged [Object] lies at the reader and [JSON.parse] rejects its
    text, [deserialize] throws; and when [deserialize] throws, such a
    value lies at the reader or further on in the same buffer (as an
    element of the arrays that were being read). *)
Theorem deserialize_throws_in_JSON_parse (reader : BufferReader.t) :
  (rejects reader -> deserialize JSON_parse toString reader = Throw)
  /\ (deserialize JSON_parse toString reader = Throw ->
      exists r, within reader r /\ rejects r).
Proof.
  unfold deserialize. split; [apply rejects_throws|apply deserialize_fuel_throws].
Qed.

(** X3. At the end of the buffer (no byte left at the reader's position)
    [deserialize] returns [undefined] and leaves the reader where it is. *)
Theorem deserialize_at_end (reader : BufferReader.t) :
  BufferReader.remaining reader = 0 ->
  deserialize JSON_parse toString reader = Return (VUndefined Other, reader).
Proof.
  intros Hrem. unfold deserialize. rewrite Hrem, deserialize_fuel_S.
  pose proof (read_skipn reader 1) as R. cbv zeta in R.
  rewrite skipn_all2 in R by (unfold BufferReader.remaining in Hrem; lia).
  rewrite R. simpl. rewrite Nat.add_0_r. destruct reader; reflexivity.
Qed.

(** X4. A [VSBuffer] value that is cut short is not rejected: when the
    length field announces [size] bytes and fewer remain, [deserialize]
    returns the bytes that are there (and exactly [size] of them when
    there are enough), with the reader just after them. *)
Theorem deserialize_short_VSBuffer (reader : BufferReader.t) (size : N) (avail : VSBuffer.t) :
  skipn (BufferReader.pos reader) (BufferReader.buffer reader)
  = BufferPresets.VSBuffer ++ createSizeBuffer size ++ avail ->
  fits size ->
  let b := firstn (N.to_nat size) avail in
  deserialize JSON_parse toString reader
  = Return (VVSBuffer Other b,
            BufferReader.mk (BufferReader.buffer reader)
              (BufferReader.pos reader + 5 + List.length b)).
Proof.
  intros Hs Hfit. cbv zeta. unfold deserialize. rewrite deserialize_fuel_S.
  destruct (read_at reader BufferPresets.VSBuffer _ 1 Hs eq_refl) as [R1 Hs1].
  rewrite R1. cbn [VSBuffer.readUInt8 BufferPresets.VSBuffer createOneByteBuffer
                   VSBuffer.writeUInt8 List.length].
  change (DataType_of_code (Byte.to_N (VSBuffer.byte_of_N (DataType_code VSBuffer_))))
    with (Some VSBuffer_). cbn iota beta.
  set (r1 := BufferReader.mk (BufferReader.buffer reader) (BufferReader.pos reader + 1)).
  assert (Hs1' : skipn (BufferReader.pos r1) (BufferReader.buffer r1)
                 = createSizeBuffer size ++ avail) by exact Hs1.
  destruct (read_at r1 (createSizeBuffer size) avail 4 Hs1' eq_refl) as [R2 Hs2].
  assert (Hsize : VSBuffer.readUInt32BE (createSizeBuffer size) = Int size).
  { unfold createSizeBuffer. rewrite <- (app_nil_r (VSBuffer.writeUInt32BE size)).
    apply readUInt32BE_writeUInt32BE. exact Hfit. }
  unfold readSizeBuffer. rewrite R2, Hsize.
  set (r2 := BufferReader.mk (BufferReader.buffer r1)
               (BufferReader.pos r1 + List.length (createSizeBuffer size))) in *.
  pose proof (read_skipn r2 size) as R3. cbv zeta in R3.
  rewrite R3. subst r2. cbn [BufferReader.buffer BufferReader.pos] in *.
  rewrite Hs2. subst r1. cbn [BufferReader.buffer BufferReader.pos List.length createSizeBuffer
                                VSBuffer.writeUInt32BE].
  do 3 f_equal. lia.
Qed.

(** [deserialize] on the bytes of a representable value, wherever they
    lie in the buffer. *)
Lemma deserialize_encode (v : Value) (r : BufferReader.t) (pre rest : VSBuffer.t) :
  Representable v ->
  BufferReader.buffer r = pre ++ encode v ++ rest ->
  BufferReader.pos r = List.length pre ->
  deserialize JSON_parse toString r
  = Return (v, BufferReader.mk (BufferReader.buffer r)
                 (BufferReader.pos r + List.length (encode v))).
Proof.
  intros Hrep Hb Hp. unfold deserialize.
  apply (deserialize_fuel_encode JSON_stringify JSON_parse fromString toString v Hrep
           r pre rest); [|exact Hb|exact Hp].
  unfold BufferReader.remaining. rewrite Hb, Hp, !length_app.
  pose proof (depth_le_encode JSON_stringify fromString v). lia.
Qed.

(** X5. The bytes of a representable value say where the value ends:
    when the bytes of two such values, each followed by anything, are the
    same buffer, the values are the same and so is what follows them. No
    serialized value is a proper prefix of another. *)
Theorem encode_prefix_free (v1 v2 : Value) (rest1 rest2 : VSBuffer.t) :
  Representable v1 ->
  Representable v2 ->
  encode v1 ++ rest1 = encode v2 ++ rest2 ->
  v1 = v2 /\ rest1 = rest2.
Proof.
  intros H1 H2 Heq.
  pose proof (deserialize_encode v1 (BufferReader.new (encode v1 ++ rest1)) [] rest1
                H1 eq_refl eq_refl) as D1.
  pose proof (deserialize_encode v2 (BufferReader.new (encode v1 ++ rest1)) [] rest2
                H2 Heq eq_refl) as D2.
  rewrite D1 in D2. injection D2 as Hv _. subst v2.
  split; [reflexivity|]. exact (app_inv_head _ _ _ Heq).
Qed.

(** X6. A frame is read back as it was sent: for a representable header
    and body, the two [deserialize] calls that open [onRawMessage] and
    [onBuffer] give, from the buffer [send] built, that header and that
    body. *)
Theorem frame_roundtrip (header body : Value) :
  Representable header ->
  Representable body ->
  Wire.receive JSON_parse toString (Wire.send JSON_stringify fromString header body)
  = Return (header, body).
Proof.
  intros Hh Hb. unfold Wire.receive, Wire.send.
  rewrite !serialize_buffer. change (BufferWriter.buffer BufferWriter.new) with (@nil byte).
  cbn [app].
  rewrite (deserialize_encode header (BufferReader.new (encode header ++ encode body))
             [] (encode body) Hh eq_refl eq_refl).
  cbn [BufferReader.new BufferReader.buffer BufferReader.pos Nat.add].
  rewrite (deserialize_encode body _ (encode header) [] Hb); [reflexivity| |reflexivity].
  cbn [BufferReader.buffer]. rewrite app_nil_r. reflexivity.
Qed.

End CodecBounds.

(** An array of one element, an [Object] whose text is "x". *)
Lemma deserialize_throws_in_JSON_parse_witness :
  let bytes := [x04; x00; x00; x00; x01; x05; x00; x00; x00; x01; x78] in
  deserialize Sample.JSON_parse Sample.toString (BufferReader.new bytes) = Throw
  /\ exists r, within (BufferReader.new bytes) r
               /\ rejects Sample.JSON_parse Sample.toString r.
Proof.
  cbv zeta. split; [reflexivity|].
  apply (deserialize_throws_in_JSON_parse Sample.JSON_parse Sample.toString
           (BufferReader.new [x04; x00; x00; x00; x01; x05; x00; x00; x00; x01; x78])).
  reflexivity.
Defined.

Lemma deserialize_at_end_witness :
  deserialize Sample.JSON_parse Sample.toString (BufferReader.mk [x03; x00] 2)
  = Return (VUndefined Sample.Other, BufferReader.mk [x03; x00] 2).
Proof.
  apply (deserialize_at_end Sample.JSON_parse Sample.toString (BufferReader.mk [x03; x00] 2)).
  reflexivity.
Defined.

(** Nine bytes are announced and two arrive. *)
Lemma deserialize_short_VSBuffer_witness :
  deserialize Sample.JSON_parse Sample.toString
    (BufferReader.new [x03; x00; x00; x00; x09; x61; x62])
  = Return (VVSBuffer Sample.Other [x61; x62],
            BufferReader.mk [x03; x00; x00; x00; x09; x61; x62] 7).
Proof.
  apply (deserialize_short_VSBuffer Sample.JSON_parse Sample.toString
           (BufferReader.new [x03; x00; x00; x00; x09; x61; x62])
           (size := 9) (avail := [x61; x62])).
  - reflexivity.
  - vm_compute. reflexivity.
Defined.

Lemma encode_prefix_free_witness :
  VString Sample.Other "a" = VString Sample.Other "a" /\ [x07] = [x07].
Proof.
  apply (encode_prefix_free Sample.JSON_stringify Sample.JSON_parse
           Sample.fromString Sample.toString
           (VString Sample.Other "a") (VString Sample.Other "a") [x07] [x07]).
  - vm_compute. split; reflexivity.
  - vm_compute. split; reflexivity.
  - reflexivity.
Defined.

Lemma frame_roundtrip_witness :
  let header := VArray [VOther true; VString Sample.Other "svc"; VString Sample.Other "ping"] in
  let body := VVSBuffer Sample.Other [x01; x02] in
  Wire.receive Sample.JSON_parse Sample.toString
    (Wire.send Sample.JSON_stringify Sample.fromString header body)
  = Return (header, body).
Proof.
  cbv zeta.
  apply (frame_roundtrip Sample.JSON_stringify Sample.JSON_parse
           Sample.fromString Sample.toString).
  - vm_compute. repeat split; reflexivity.
  - vm_compute. reflexivity.
Defined.

(** ** ChannelServer over its runs *)

(** Projections of a record that was just built, and the setters. *)
Ltac server_fields :=
  cbn [Server.channels Server.activeRequests Server.protocolListener
       Server.pendingRequests Server.ctx Server.timeoutDelay Server.timers
       Server.nextTimer Server.trace Server.callback Server.delay
       Server.request Server.timeoutTimer Server.state_of fst snd] in *.

Ltac server_unfold :=
  unfold Server.sendResponse, Server.emit, Server.clearTimeout, Server.setTimeout,
    Server.set_timers, Server.set_channels, Server.set_activeRequests,
    Server.set_protocolListener, Server.set_pendingRequests in *.

Section ServerRuns.

Context {Any Channel TContext Number : Type}.
Context {numbers : JsNumber Number} {payloads : Serializes Any}
  {services : IServerChannel Channel TContext Any}.

Abbreviation ChannelServer := (Server.ChannelServer Any Channel TContext Number).
Abbreviation Effect := (Server.Effect Any Channel TContext).

(** Is the effect the sending of the [Initialize] frame? *)
Definition is_Initialize (e : Effect) : bool :=
  match e with
  | Server.Send IRawInitializeResponse => true
  | _ => false
  end.

(** From [s] to [s'] the trace only grew, and by no [Initialize]. *)
Definition says (s s' : ChannelServer) : Prop :=
  exists more, Server.trace s' = Server.trace s ++ more
               /\ existsb is_Initialize more = false.

Lemma says_refl (s : ChannelServer) : says s s.
Proof. exists []. rewrite app_nil_r. split; reflexivity. Qed.

Lemma says_trans (s1 s2 s3 : ChannelServer) : says s1 s2 -> says s2 s3 -> says s1 s3.
Proof.
  intros (m & Ht & Hm) (m' & Ht' & Hm'). exists (m ++ m').
  rewrite Ht', Ht, app_assoc, existsb_app, Hm, Hm'. split; reflexivity.
Qed.

Ltac says_now :=
  first
    [ exists []; split;
      [server_unfold; server_fields; rewrite app_nil_r; reflexivity|reflexivity]
    | eexists [_]; split; [server_unfold; server_fields; reflexivity|reflexivity]
    | eexists [_; _]; split;
      [server_unfold; server_fields; rewrite <- app_assoc; reflexivity|reflexivity] ].

Lemma onPromise_says (r : IRawChannelRequest Any) (s : ChannelServer) :
  says s (Server.onPromise r s).
Proof.
  unfold Server.onPromise, Server.collectPendingRequest.
  destruct (JsMap.get (channelName r) (Server.channels s)); says_now.
Qed.

Lemma onEventListen_says (r : IRawChannelRequest Any) (s : ChannelServer) :
  says s (Server.state_of (Server.onEventListen r s)).
Proof.
  unfold Server.onEventListen, Server.collectPendingRequest.
  destruct (JsMap.get (channelName r) (Server.channels s)) as [channel|]; [|says_now].
  destruct (listens channel (Server.ctx s) (name r) (arg r)); says_now.
Qed.

(** A response that is no [Initialize], sent or not. *)
Lemma sendResponse_says (response : IRawResponse Any) (s : ChannelServer) :
  response <> IRawInitializeResponse ->
  says s (Server.state_of (Server.sendResponse response s)).
Proof.
  intros Hne. unfold Server.sendResponse.
  destruct (Server.serializable response); [|apply says_refl].
  exists [Server.Send response]. split; [reflexivity|].
  destruct response; [congruence|reflexivity..].
Qed.

Lemma flushLoop_says (q : list (Server.PendingRequest Any)) (s : ChannelServer) :
  says s (Server.state_of (Server.flushLoop q s)).
Proof.
  revert s. induction q as [|e q IH]; intros s; cbn [Server.flushLoop];
    [apply says_refl|].
  assert (H : says s (Server.clearTimeout (Server.timeoutTimer e) s)) by says_now.
  eapply says_trans; [exact H|].
  destruct (type (Server.request e)); try apply IH.
  - eapply says_trans; [apply onPromise_says|apply IH].
  - pose proof (onEventListen_says (Server.request e)
                  (Server.clearTimeout (Server.timeoutTimer e) s)) as He.
    destruct (Server.onEventListen (Server.request e)
                (Server.clearTimeout (Server.timeoutTimer e) s)) as [s'|s'];
      cbn [Server.state_of] in *; [|exact He].
    eapply says_trans; [exact He|apply IH].
Qed.

Lemma flushPendingRequests_says (name : string) (s : ChannelServer) :
  says s (Server.state_of (Server.flushPendingRequests name s)).
Proof.
  unfold Server.flushPendingRequests.
  destruct (JsMap.get name (Server.pendingRequests s)) as [q|]; [|apply says_refl].
  pose proof (flushLoop_says q s) as H.
  destruct (Server.flushLoop q s) as [s'|s']; cbn [Server.state_of] in *; [|exact H].
  eapply says_trans; [exact H|says_now].
Qed.

Lemma fireTimer_says (t : N) (s : ChannelServer) : says s (Server.fireTimer t s).
Proof.
  unfold Server.fireTimer.
  destruct (JsMap.get t (Server.timers s)) as [tm|]; [|apply says_refl].
  assert (H : says s (Server.clearTimeout t s)) by says_now.
  eapply says_trans; [exact H|]. destruct (Server.callback tm) as [name|r].
  - apply flushPendingRequests_says.
  - unfold Server.onPendingTimeout. destruct (type r); says_now.
Qed.

Lemma dispose_says (s : ChannelServer) : says s (Server.dispose s).
Proof.
  unfold Server.dispose. rewrite dispose_all. server_unfold. server_fields.
  assert (Hall : forall l : list Server.IDisposable,
             existsb is_Initialize (map (fun d => Server.Disposed d) l) = false)
    by (induction l; simpl; auto).
  destruct (Server.protocolListener s); server_fields.
  - eexists (_ :: _). rewrite <- app_assoc. split; [reflexivity|]. simpl. apply Hall.
  - eexists. split; [reflexivity|apply Hall].
Qed.

Lemma step_says (s : ChannelServer) (i : Server.Input Any Channel) :
  says s (Server.step s i).
Proof.
  destruct i as [m|n ch|t|k o|k d|]; cbn [Server.step].
  - unfold Server.receive. destruct (Server.protocolListener s); [|apply says_refl].
    destruct m as [r|ty k]; cbn [Server.onRawMessage].
    + destruct (type r); auto using says_refl, onPromise_says, onEventListen_says.
    + unfold Server.disposeActiveRequest.
      destruct ty; try apply says_refl;
        destruct (JsMap.get k (Server.activeRequests s)); says_now.
  - unfold Server.registerChannel. says_now.
  - apply fireTimer_says.
  - destruct (existsb _ _); [|apply says_refl].
    unfold Server.onSettled.
    pose proof (@sendResponse_says (Server.answer k o) s) as H.
    destruct (Server.sendResponse (Server.answer k o) s) as [s'|s'];
      cbn [Server.state_of] in H.
    + eapply says_trans; [apply H; destruct o; discriminate|says_now].
    + apply H. destruct o; discriminate.
  - destruct (JsMap.get k (Server.activeRequests s)) as [[| |]|]; try apply says_refl.
    apply sendResponse_says. discriminate.
  - apply dispose_says.
Qed.

(** X7. The [Initialize] frame is the first thing a [ChannelServer] sends,
    and it is sent once: whatever happens to the server afterwards
    (frames, registrations, timers, calls settling, events, [dispose]),
    its trace begins with [Initialize] and holds no other. *)
Theorem initialize_is_sent_first_and_once (ctx : TContext) (delay : Number)
    (inputs : list (Server.Input Any Channel)) :
  exists rest,
    Server.trace (Server.run inputs (Server.new ctx delay))
    = Server.Send IRawInitializeResponse :: rest
    /\ existsb is_Initialize rest = false.
Proof.
  assert (Hrun : forall (l : list (Server.Input Any Channel)) (s : ChannelServer),
             says s (Server.run l s)).
  { induction l as [|i l IH]; intros s; [apply says_refl|].
    eapply says_trans; [apply step_says|apply IH]. }
  destruct (Hrun inputs (Server.new ctx delay)) as (more & Ht & Hm).
  exists more. split; [exact Ht|exact Hm].
Qed.

(** *** The pending queue *)


(** *** The registry *)

Lemma fireTimer_channels (t : N) (s : ChannelServer) :
  Server.channels (Server.fireTimer t s) = Server.channels s.
Proof.
  unfold Server.fireTimer.
  destruct (JsMap.get t (Server.timers s)) as [tm|]; [|reflexivity].
  destruct (Server.callback tm) as [name|r].
  - exact (proj1 (flushPendingRequests_extends name (Server.clearTimeout t s))).
  - exact (proj1 (onPendingTimeout_keeps r (Server.clearTimeout t s))).
Qed.

Lemma step_channels (s : ChannelServer) (i : Server.Input Any Channel) (name : string) :
  Server.registers name i = false ->
  Server.getServerChannel name (Server.step s i) = Server.getServerChannel name s.
Proof.
  intros Hr. unfold Server.getServerChannel. pose proof (step_effect s i) as He.
  destruct i as [m|n ch|t|k o|k d|];
    try (destruct He as [(Hc & _)|[r (Hc & _)]]; rewrite Hc; reflexivity).
  - cbn [Server.step Server.registers] in *. unfold Server.registerChannel.
    server_unfold. server_fields. apply get_set_ne.
    intros ->. rewrite String.eqb_refl in Hr. discriminate.
  - cbn [Server.step]. rewrite fireTimer_channels. reflexivity.
Qed.

(** X9. Only [registerChannel(name, ...)] changes what
    [getServerChannel(name)] returns: over any run of the server without
    such a registration (frames, other registrations, timers, settling
    calls, events, [dispose]) the channel registered under [name] stays
    what it was. A channel is never unregistered. *)
Theorem registry_changes_only_by_registerChannel (s : ChannelServer)
    (inputs : list (Server.Input Any Channel)) (name : string) :
  existsb (Server.registers name) inputs = false ->
  Server.getServerChannel name (Server.run inputs s) = Server.getServerChannel name s.
Proof.
  revert s. induction inputs as [|i l IH]; intros s Hr; [reflexivity|].
  simpl in Hr. apply orb_false_elim in Hr. destruct Hr as [Hi Hl].
  change (Server.run (i :: l) s) with (Server.run l (Server.step s i)).
  rewrite (IH _ Hl). apply step_channels, Hi.
Qed.

(** *** Disposal and cancellation *)

Lemma dispose_fixed (s : ChannelServer) :
  Server.protocolListener s = None ->
  Server.activeRequests s = JsMap.empty ->
  Server.dispose s = s.
Proof.
  destruct s. unfold Server.dispose. server_fields. intros -> ->. reflexivity.
Qed.

(** X10. [dispose] is idempotent, and a disposed server is deaf: after
    [dispose()], a second [dispose()] and any frame the transport still
    delivers leave the server exactly as it is. *)
Theorem server_dispose_is_final (s : ChannelServer) (message : IRawRequest Any) :
  Server.dispose (Server.dispose s) = Server.dispose s
  /\ Server.receive message (Server.dispose s) = Server.dispose s.
Proof.
  assert (Hl : Server.protocolListener (Server.dispose s) = None
               /\ Server.activeRequests (Server.dispose s) = JsMap.empty).
  { unfold Server.dispose. rewrite dispose_all.
    destruct (Server.protocolListener s) eqn:El; server_unfold; server_fields; auto. }
  destruct Hl as [Hl Ha]. split.
  - apply dispose_fixed; assumption.
  - unfold Server.receive. rewrite Hl. reflexivity.
Qed.

Lemma disposeActiveRequest_known (s : ChannelServer) (k : N) (d : Server.IDisposable) :
  JsMap.get k (Server.activeRequests s) = Some d ->
  Server.disposeActiveRequest k s
  = Server.set_activeRequests (JsMap.delete k (Server.activeRequests s))
      (Server.emit (Server.Disposed d) s).
Proof. intros H. unfold Server.disposeActiveRequest. rewrite H. reflexivity. Qed.

Lemma disposeActiveRequest_unknown (s : ChannelServer) (k : N) :
  JsMap.get k (Server.activeRequests s) = None ->
  Server.disposeActiveRequest k s = s.
Proof. intros H. unfold Server.disposeActiveRequest. rewrite H. reflexivity. Qed.

(** X11. A [PromiseCancel] reaches the call it names, once. When a
    [Promise] request for a registered channel is followed by the
    [PromiseCancel] of its id, the service is called, then the call's
    cancellation handle is disposed and forgotten; a second
    [PromiseCancel] for that id changes nothing. *)
Theorem cancel_reaches_the_call_once (s : ChannelServer) (request : IRawChannelRequest Any)
    (channel : Channel) :
  type request = Promise ->
  Server.getServerChannel (channelName request) s = Some channel ->
  let s1 := Server.onRawMessage (ChannelRequest request) s in
  let s2 := Server.onRawMessage (IdRequest PromiseCancel (id request)) s1 in
  Server.trace s2
  = Server.trace s
      ++ [ Server.Call channel (Server.ctx s) (name request) (arg request) (id request);
           Server.Disposed (Server.CancelCall (id request)) ]
  /\ JsMap.get (id request) (Server.activeRequests s2) = None
  /\ Server.onRawMessage (IdRequest PromiseCancel (id request)) s2 = s2.
Proof.
  intros Hp Hch. cbv zeta. cbn [Server.onRawMessage]. rewrite Hp.
  unfold Server.onPromise. unfold Server.getServerChannel in Hch. rewrite Hch.
  set (s1 := Server.set_activeRequests _ _).
  assert (H1 : JsMap.get (id request) (Server.activeRequests s1)
               = Some (Server.CancelCall (id request)))
    by (subst s1; server_unfold; server_fields; apply get_set_eq).
  rewrite (disposeActiveRequest_known s1 _ H1).
  set (s2 := Server.set_activeRequests _ _).
  assert (H2 : JsMap.get (id request) (Server.activeRequests s2) = None)
    by (subst s2; server_unfold; server_fields; apply get_delete_eq).
  rewrite (disposeActiveRequest_unknown s2 _ H2).
  split; [|split; [exact H2|reflexivity]].
  subst s2 s1. server_unfold. server_fields. rewrite <- app_assoc. reflexivity.
Qed.

(** X12. A subscription to an unknown channel is never answered. When an
    [EventListen] request arrives for a channel that is not registered
    and its timeout fires, the server only logs: no frame is sent (the
    [PromiseError] is for [Promise] requests), and the request stays
    queued for a later registration. *)
Theorem listen_timeout_only_logs (s : ChannelServer) (request : IRawChannelRequest Any) :
  type request = EventListen ->
  Server.getServerChannel (channelName request) s = None ->
  let s1 := Server.onRawMessage (ChannelRequest request) s in
  let s2 := Server.fireTimer (Server.nextTimer s) s1 in
  Server.trace s2
  = Server.trace s ++ [Server.ConsoleError ("Unknown channel: " ++ channelName request)]
  /\ exists queue,
       JsMap.get (channelName request) (Server.pendingRequests s2) = Some queue
       /\ In (Server.mkPendingRequest request (Server.nextTimer s)) queue.
Proof.
  intros Hp Hch. cbv zeta. cbn [Server.onRawMessage]. rewrite Hp.
  unfold Server.onEventListen. unfold Server.getServerChannel in Hch. rewrite Hch.
  unfold Server.collectPendingRequest, Server.fireTimer. server_unfold. server_fields.
  rewrite get_set_eq. server_fields.
  unfold Server.onPendingTimeout. server_unfold. rewrite Hp. server_fields.
  split; [reflexivity|]. eexists. split; [apply get_set_eq|].
  apply in_or_app. right. left. reflexivity.
Qed.

End ServerRuns.


Lemma registry_changes_only_by_registerChannel_witness :
  Server.getServerChannel "svc"
    (Server.run [ Server.DoRegisterChannel "log" "logger"%string; Server.DoTimer 2;
                  Server.DoDispose ] Sample.registered)
  = Server.getServerChannel "svc" Sample.registered.
Proof.
  apply (registry_changes_only_by_registerChannel Sample.registered). reflexivity.
Defined.

Lemma cancel_reaches_the_call_once_witness :
  let s := Server.registerChannel "svc" "service"%string Sample.server in
  Server.trace
    (Server.onRawMessage (IdRequest PromiseCancel 7)
       (Server.onRawMessage (ChannelRequest Sample.request) s))
  = Server.trace s
      ++ [ Server.Call "service"%string Sample.ctx "ping" (VString Sample.Other "hi") 7;
           Server.Disposed (Server.CancelCall 7) ].
Proof.
  cbv zeta.
  exact (proj1 (cancel_reaches_the_call_once
                  (Server.registerChannel "svc" "service"%string Sample.server)
                  Sample.request (channel := "service"%string) eq_refl eq_refl)).
Defined.

Lemma listen_timeout_only_logs_witness :
  Server.trace
    (Server.fireTimer 0 (Server.onRawMessage (ChannelRequest Sample.subscription) Sample.server))
  = Server.trace Sample.server ++ [Server.ConsoleError "Unknown channel: svc"].
Proof.
  exact (proj1 (listen_timeout_only_logs Sample.server Sample.subscription
                  eq_refl eq_refl)).
Defined.

(** ** ChannelClient over its runs *)

Ltac client_fields :=
  cbn [Client.state Client.activeRequests Client.handlers Client.lastRequestId
       Client.protocolListener Client.waits Client.finalizers Client.emitters
       Client.trace Client.emitter_request Client.listeners Client.serializable
       fst snd] in *.

Ltac client_unfold :=
  unfold Client.sendRequest, Client.resolve, Client.reject, Client.emit,
    Client.set_state, Client.set_activeRequests, Client.set_handlers,
    Client.set_lastRequestId, Client.set_protocolListener, Client.set_waits,
    Client.set_finalizers, Client.set_emitters in *.

Section ClientRuns.

Context {Any : Type} {payloads : Serializes Any}.

Abbreviation ChannelClient := (Client.ChannelClient Any).

(** *** Request ids *)

(** Does the input take a request id: is it a call or a listen? *)
Definition issues (i : Client.Input Any) : bool :=
  match i with
  | Client.DoCall _ _ _ _ | Client.DoListen _ _ _ => true
  | _ => false
  end.

Definition sameId (c c' : ChannelClient) : Prop :=
  Client.lastRequestId c' = Client.lastRequestId c.

Lemma sameId_fold {A : Type} (f : ChannelClient -> A -> ChannelClient) (l : list A) :
  (forall c a, sameId c (f c a)) -> forall c, sameId c (fold_left f l c).
Proof.
  intros Hf. unfold sameId in *. induction l as [|a l IH]; intros c; simpl; [reflexivity|].
  rewrite IH. apply Hf.
Qed.

Lemma cancel_sameId (k : N) (c : ChannelClient) : sameId c (Client.cancel k c).
Proof.
  unfold sameId, Client.cancel.
  destruct (existsb (Client.is_call_wait k) (Client.waits c)); reflexivity.
Qed.

Lemma removeListener_sameId (k : N) (c : ChannelClient) :
  sameId c (Client.removeListener k c).
Proof.
  unfold sameId, Client.removeListener, Client.onLastListenerRemove.
  destruct (JsMap.get k (Client.emitters c)) as [e|]; [|reflexivity].
  destruct (Client.listeners e) as [|[|n]]; try reflexivity.
  client_unfold. client_fields.
  destruct (existsb (Client.is_listen_wait k) (Client.waits c)); reflexivity.
Qed.

Lemma onResponse_sameId (response : IRawResponse Any) (c : ChannelClient) :
  sameId c (Client.onResponse response c).
Proof.
  unfold sameId, Client.onResponse. destruct (response_id response) as [k|]; [|reflexivity].
  destruct (JsMap.get k (Client.handlers c)) as [[h|h]|]; try reflexivity.
  unfold Client.applyHandler, Client.promiseHandler. destruct response; reflexivity.
Qed.

Lemma runMicrotasks_sameId (c : ChannelClient) : sameId c (Client.runMicrotasks c).
Proof.
  unfold Client.runMicrotasks.
  set (c1 := fold_left _ (Client.finalizers c) c).
  assert (H1 : sameId c c1) by (apply sameId_fold; intros; reflexivity).
  destruct (Client.whenInitialized (Client.set_finalizers [] c1)); [|exact H1].
  unfold sameId in *. rewrite sameId_fold; [exact H1|].
  intros c0 [r|r]; unfold sameId, Client.continue, Client.sendRequest, Client.serializable;
    destruct (serializes (arg r)); reflexivity.
Qed.

Lemma dispose_sameId (c : ChannelClient) : sameId c (Client.dispose c).
Proof.
  unfold sameId, Client.dispose. client_unfold. client_fields.
  rewrite sameId_fold.
  - destruct (Client.protocolListener c); reflexivity.
  - intros c0 [|k|k]; try reflexivity. unfold Client.disposeRequest.
    exact (cancel_sameId k (Client.emit (Client.Disposed (Client.PromiseRequest k)) c0)).
Qed.

Lemma step_lastRequestId (c : ChannelClient) (i : Client.Input Any) :
  Client.lastRequestId (Client.step c i)
  = (Client.lastRequestId c + if issues i then 1 else 0)%N.
Proof.
  destruct i as [cn nm a b|k|cn nm a|k|k|response| |]; cbn [Client.step issues];
    rewrite ?N.add_0_r.
  - unfold Client.requestPromise. destruct b; reflexivity.
  - destruct (N.ltb k (Client.lastRequestId c)); [apply cancel_sameId|reflexivity].
  - reflexivity.
  - unfold Client.addListener, Client.onFirstListenerAdd.
    destruct (JsMap.get k (Client.emitters c)) as [e|]; [|reflexivity].
    destruct (Client.listeners e); reflexivity.
  - apply removeListener_sameId.
  - unfold Client.receive, Client.onBuffer.
    destruct (Client.protocolListener c); [apply onResponse_sameId|reflexivity].
  - apply runMicrotasks_sameId.
  - apply dispose_sameId.
Qed.

(** X13. Request ids are handed out one by one and never again: over any
    run of a client, [lastRequestId] has grown by exactly the number of
    calls and listens made, whatever else happened (responses,
    cancellations, [dispose]). A call whose token is already cancelled
    takes an id too, though nothing is sent for it. *)
Theorem request_ids_count_requests (inputs : list (Client.Input Any)) (c : ChannelClient) :
  Client.lastRequestId (Client.run inputs c)
  = (Client.lastRequestId c + N.of_nat (List.length (filter issues inputs)))%N.
Proof.
  revert c. induction inputs as [|i l IH]; intros c; [simpl; lia|].
  change (Client.run (i :: l) c) with (Client.run l (Client.step c i)).
  rewrite IH, step_lastRequestId. simpl. destruct (issues i); simpl; lia.
Qed.

(** *** Nothing is requested before [Initialize] *)

(** Is the effect the sending of a [Promise] or [EventListen] request? *)
Definition is_request (e : Client.Effect Any) : bool :=
  match e with
  | Client.Send (ChannelRequest _) => true
  | _ => false
  end.

(** From [c] to [c'] the state is the same, and the trace grew by no
    request. *)
Definition mute (c c' : ChannelClient) : Prop :=
  Client.state c' = Client.state c
  /\ exists more, Client.trace c' = Client.trace c ++ more
                  /\ existsb is_request more = false.

Lemma mute_refl (c : ChannelClient) : mute c c.
Proof. split; [reflexivity|]. exists []. rewrite app_nil_r. auto. Qed.

Lemma mute_trans (c1 c2 c3 : ChannelClient) : mute c1 c2 -> mute c2 c3 -> mute c1 c3.
Proof.
  intros (Hs & m & Ht & Hm) (Hs' & m' & Ht' & Hm'). split; [congruence|].
  exists (m ++ m'). rewrite Ht', Ht, app_assoc, existsb_app, Hm, Hm'. auto.
Qed.

Lemma mute_fold {A : Type} (f : ChannelClient -> A -> ChannelClient) (l : list A) :
  (forall c a, mute c (f c a)) -> forall c, mute c (fold_left f l c).
Proof.
  intros Hf. induction l as [|a l IH]; intros c; simpl; [apply mute_refl|].
  eapply mute_trans; [apply Hf|apply IH].
Qed.

Ltac mute_now :=
  client_unfold; client_fields; (split; [reflexivity|]);
  first
    [ exists []; split; [client_fields; rewrite app_nil_r; reflexivity|reflexivity]
    | eexists [_]; split; [client_fields; reflexivity|reflexivity]
    | eexists [_; _]; split; [client_fields; rewrite <- app_assoc; reflexivity|reflexivity] ].

Lemma cancel_mute (k : N) (c : ChannelClient) : mute c (Client.cancel k c).
Proof.
  unfold Client.cancel.
  destruct (existsb (Client.is_call_wait k) (Client.waits c)); mute_now.
Qed.

Lemma removeListener_mute (k : N) (c : ChannelClient) : mute c (Client.removeListener k c).
Proof.
  unfold Client.removeListener, Client.onLastListenerRemove.
  destruct (JsMap.get k (Client.emitters c)) as [e|]; [|apply mute_refl].
  destruct (Client.listeners e) as [|[|n]]; [apply mute_refl| |mute_now].
  client_unfold. client_fields.
  destruct (existsb (Client.is_listen_wait k) (Client.waits c)); mute_now.
Qed.

Lemma dispatch_mute (k : N) (response : IRawResponse Any) (c : ChannelClient) :
  mute c match JsMap.get k (Client.handlers c) with
         | Some handler => Client.applyHandler handler response c
         | None => c
         end.
Proof.
  destruct (JsMap.get k (Client.handlers c)) as [[h|h]|]; [| |apply mute_refl].
  - unfold Client.applyHandler, Client.promiseHandler.
    destruct response; try apply mute_refl; mute_now.
  - unfold Client.applyHandler. mute_now.
Qed.

Lemma dispose_mute (c : ChannelClient) : mute c (Client.dispose c).
Proof.
  unfold Client.dispose.
  set (c1 := match Client.protocolListener c with
             | Some listener => _
             | None => c
             end).
  assert (H1 : mute c c1)
    by (subst c1; destruct (Client.protocolListener c); [mute_now|apply mute_refl]).
  assert (H2 : mute c1 (fold_left (fun c p => Client.disposeRequest p c)
                          (Client.activeRequests c1) c1)).
  { apply mute_fold. intros c0 d. unfold Client.disposeRequest.
    assert (mute c0 (Client.emit (Client.Disposed d) c0)) by mute_now.
    destruct d; try assumption.
    eapply mute_trans; [eassumption|apply cancel_mute]. }
  eapply mute_trans; [exact H1|]. eapply mute_trans; [exact H2|]. mute_now.
Qed.

(** An uninitialized client sends no request, whatever is done to it,
    short of handling an [Initialize] frame. *)
Lemma step_mute (c : ChannelClient) (i : Client.Input Any) :
  Client.state c = Uninitialized ->
  (i = Client.DoReceive IRawInitializeResponse -> Client.protocolListener c = None) ->
  mute c (Client.step c i).
Proof.
  intros Hs Hi.
  destruct i as [cn nm a b|k|cn nm a|k|k|response| |]; cbn [Client.step].
  - unfold Client.requestPromise. destruct b; mute_now.
  - destruct (N.ltb k (Client.lastRequestId c)); [apply cancel_mute|apply mute_refl].
  - unfold Client.requestEvent. mute_now.
  - unfold Client.addListener, Client.onFirstListenerAdd.
    destruct (JsMap.get k (Client.emitters c)) as [e|]; [|apply mute_refl].
    destruct (Client.listeners e); mute_now.
  - apply removeListener_mute.
  - unfold Client.receive, Client.onBuffer, Client.onResponse.
    destruct (Client.protocolListener c) eqn:El; [|apply mute_refl].
    destruct response as [|k d|k d|k d|k d]; cbn [response_id];
      try apply dispatch_mute.
    specialize (Hi eq_refl). discriminate.
  - unfold Client.runMicrotasks.
    set (c1 := fold_left _ (Client.finalizers c) c).
    assert (H1 : mute c c1) by (apply mute_fold; intros; mute_now).
    assert (H2 : mute c (Client.set_finalizers [] c1))
      by (eapply mute_trans; [exact H1|mute_now]).
    unfold Client.whenInitialized.
    destruct H2 as [Hs2 Ht2]. rewrite Hs2, Hs. split; assumption.
  - apply dispose_mute.
Qed.

Lemma run_mute_detached (inputs : list (Client.Input Any)) (c : ChannelClient) :
  Client.state c = Uninitialized ->
  Client.protocolListener c = None ->
  mute c (Client.run inputs c).
Proof.
  revert c. induction inputs as [|i l IH]; intros c Hs Hn; [apply mute_refl|].
  rewrite run_cons.
  pose proof (@step_mute c i Hs (fun _ => Hn)) as Hm.
  eapply mute_trans; [exact Hm|].
  apply IH; [destruct Hm as [-> _]; exact Hs|apply (step_detached c i Hn)].
Qed.

Lemma run_mute (inputs : list (Client.Input Any)) (c : ChannelClient) :
  Client.state c = Uninitialized ->
  Client.initializations inputs = 0 ->
  mute c (Client.run inputs c).
Proof.
  revert c. induction inputs as [|i l IH]; intros c Hs Hi; [apply mute_refl|].
  rewrite run_cons.
  assert (Hm : mute c (Client.step c i)).
  { apply step_mute; [exact Hs|]. intros ->. discriminate Hi. }
  eapply mute_trans; [exact Hm|].
  assert (Hs' : Client.state (Client.step c i) = Uninitialized)
    by (destruct Hm as [-> _]; exact Hs).
  destruct i as [cn nm a b|k|cn nm a|k|k|response| |];
    try (apply IH; [exact Hs'|exact Hi]).
  - apply IH; [exact Hs'|]. destruct response; try exact Hi. discriminate Hi.
  - apply run_mute_detached; [exact Hs'|apply dispose_detaches].
Qed.

(** X14. No request goes out before the client is initialized. However a
    client is used (calls, listens, subscriptions, cancellations, promise
    jobs, responses, [dispose]), as long as it has handled no
    [Initialize] frame it has sent no [Promise] and no [EventListen]
    request. *)
Theorem no_request_before_initialization (inputs : list (Client.Input Any)) :
  Client.initializations inputs = 0 ->
  existsb is_request (Client.trace (Client.run inputs (Client.new Any))) = false.
Proof.
  intros Hi. destruct (run_mute inputs (Client.new Any) eq_refl Hi) as (_ & more & -> & Hm).
  exact Hm.
Qed.

(** *** Calls from start to end *)

Lemma not_In_delete {A : Type} `{KeyEq A} (x : A) (s : JsSet.t A) :
  ~ In x (JsSet.delete x s).
Proof.
  unfold JsSet.delete. intros Hin. apply filter_In in Hin. destruct Hin as [_ Hx].
  destruct (key_eq_dec x x); [discriminate|congruence].
Qed.

Lemma In_add {A : Type} `{KeyEq A} (x : A) (s : JsSet.t A) : In x (JsSet.add x s).
Proof.
  unfold JsSet.add. destruct (in_dec key_eq_dec x s); [assumption|].
  apply in_or_app. right. left. reflexivity.
Qed.

(** A request whose argument can be serialized is sent. *)
Lemma sendRequest_sends (request : IRawChannelRequest Any) (c : ChannelClient) :
  serializes (arg request) = true ->
  Client.sendRequest (ChannelRequest request) c
  = Client.emit (Client.Send (ChannelRequest request)) c.
Proof. intros H. unfold Client.sendRequest. cbn [Client.serializable]. rewrite H. reflexivity. Qed.

(** X15. A call that is answered leaves nothing behind. On an initialized
    client with no promise job waiting, a call whose argument can be
    serialized is sent with the next id once the promise jobs run; when
    its [PromiseSuccess] arrives the promise resolves with the data, and
    after the next promise jobs the response handler is gone from
    [handlers] and the call's disposable from [activeRequests]. *)
Theorem answered_call_leaves_nothing_behind (c : ChannelClient) (cn nm : string)
    (a d : Any) (listener : Client.IDisposable) :
  Client.state c = Idle ->
  Client.protocolListener c = Some listener ->
  Client.waits c = [] ->
  Client.finalizers c = [] ->
  serializes a = true ->
  let k := Client.lastRequestId c in
  let c' := Client.run [ Client.DoCall cn nm a false; Client.DoMicrotasks;
                         Client.DoReceive (IRawPromiseSuccessResponse k d);
                         Client.DoMicrotasks ] c in
  Client.trace c'
  = Client.trace c
      ++ [ Client.Send (ChannelRequest (mkChannelRequest Promise k cn nm a));
           Client.Resolve k d ]
  /\ JsMap.get k (Client.handlers c') = None
  /\ ~ In (Client.PromiseRequest k) (Client.activeRequests c')
  /\ Client.waits c' = []
  /\ Client.finalizers c' = [].
Proof.
  intros Hs Hl Hw Hf Ha. destruct c as [st ar hd k pl ws fs em tr].
  cbn [Client.state Client.protocolListener Client.waits Client.finalizers] in *. subst.
  cbv zeta. cbn [Client.lastRequestId Client.trace]. unfold Client.run. cbn [fold_left].
  assert (Hc1 : Client.step
                  (Client.step
                     (Client.mkChannelClient Idle ar hd k (Some listener) [] [] em tr)
                     (Client.DoCall cn nm a false))
                  Client.DoMicrotasks
                = Client.mkChannelClient Idle (JsSet.add (Client.PromiseRequest k) ar)
                    (JsMap.set k (Client.PromiseHandler k) hd) (k + 1) (Some listener)
                    [] [] em
                    (tr ++ [Client.Send
                              (ChannelRequest (mkChannelRequest Promise k cn nm a))])).
  { cbn -[JsMap.get JsMap.set JsMap.delete JsSet.add JsSet.delete N.add serializes].
    rewrite sendRequest_sends by exact Ha. reflexivity. }
  rewrite Hc1. clear Hc1.
  cbn -[JsMap.get JsMap.set JsMap.delete JsSet.add JsSet.delete N.add serializes].
  rewrite get_set_eq.
  cbn -[JsMap.get JsMap.set JsMap.delete JsSet.add JsSet.delete N.add serializes].
  rewrite <- app_assoc. repeat split.
  - apply get_delete_eq.
  - apply not_In_delete.
Qed.

(** X16. A call cancelled before its promise job ran is never put on the
    wire. When a call is made and cancelled at once, its promise is
    rejected with [Canceled]; the [Initialize] frame and the promise jobs
    that follow send nothing for it (no [Promise] request, and no
    [PromiseCancel] either), and its disposable leaves [activeRequests]. *)
Theorem cancelled_call_is_never_sent (c : ChannelClient) (cn nm : string) (a : Any)
    (listener : Client.IDisposable) :
  Client.protocolListener c = Some listener ->
  Client.waits c = [] ->
  Client.finalizers c = [] ->
  let k := Client.lastRequestId c in
  let c' := Client.run [ Client.DoCall cn nm a false; Client.DoCancel k;
                         Client.DoReceive IRawInitializeResponse;
                         Client.DoMicrotasks ] c in
  Client.trace c' = Client.trace c ++ [Client.Reject k Client.Canceled; Client.DidInitialize]
  /\ ~ In (Client.PromiseRequest k) (Client.activeRequests c')
  /\ Client.waits c' = [].
Proof.
  intros Hl Hw Hf. cbv zeta. unfold Client.run. cbn [fold_left Client.step].
  unfold Client.requestPromise. client_unfold. client_fields.
  replace (N.ltb (Client.lastRequestId c) (Client.lastRequestId c + 1)) with true
    by (symmetry; apply N.ltb_lt; lia).
  unfold Client.cancel. client_unfold. client_fields. rewrite Hw, Hf.
  cbn [app existsb filter Client.is_call_wait id negb]. rewrite N.eqb_refl.
  cbn [orb negb]. client_fields.
  unfold Client.receive, Client.onBuffer, Client.onResponse. client_unfold. client_fields.
  rewrite Hl. cbn [response_id]. client_fields.
  unfold Client.runMicrotasks. client_unfold. client_fields. cbn [fold_left].
  client_fields. unfold Client.whenInitialized. client_fields. cbn [fold_left].
  rewrite <- app_assoc. repeat split. apply not_In_delete.
Qed.

Lemma disposeRequest_mute (d : Client.IDisposable) (c : ChannelClient) :
  mute c (Client.disposeRequest d c).
Proof.
  unfold Client.disposeRequest.
  assert (mute c (Client.emit (Client.Disposed d) c)) by mute_now.
  destruct d; try assumption.
  eapply mute_trans; [eassumption|apply cancel_mute].
Qed.

Lemma disposeAll_rejects (l : list Client.IDisposable) (k : N) :
  In (Client.PromiseRequest k) l ->
  forall c : ChannelClient, In (Client.Reject k Client.Canceled)
              (Client.trace (fold_left (fun c p => Client.disposeRequest p c) l c)).
Proof.
  induction l as [|d l IH]; intros Hin c; [destruct Hin|]. simpl.
  destruct Hin as [->|Hin]; [|apply IH, Hin].
  destruct (mute_fold (fun c p => Client.disposeRequest p c) l
              (fun c0 d0 => disposeRequest_mute d0 c0)
              (Client.disposeRequest (Client.PromiseRequest k) c))
    as (_ & more & -> & _).
  apply in_or_app. left. unfold Client.disposeRequest, Client.cancel.
  destruct (existsb _ _); client_unfold; client_fields;
    apply in_or_app; right; left; reflexivity.
Qed.

(** X17. [dispose] cancels every call in flight: for each call whose
    disposable is in [activeRequests], the promise of the call is
    rejected with [Canceled] during [dispose()], and [activeRequests] is
    empty afterwards. *)
Theorem dispose_cancels_every_call (c : ChannelClient) (k : N) :
  In (Client.PromiseRequest k) (Client.activeRequests c) ->
  In (Client.Reject k Client.Canceled) (Client.trace (Client.dispose c))
  /\ Client.activeRequests (Client.dispose c) = [].
Proof.
  intros Hin. split; [|reflexivity].
  unfold Client.dispose. client_unfold. client_fields.
  apply disposeAll_rejects.
  destruct (Client.protocolListener c); exact Hin.
Qed.

Lemma client_dispose_fixed (c : ChannelClient) :
  Client.protocolListener c = None ->
  Client.activeRequests c = [] ->
  Client.dispose c = c.
Proof.
  destruct c. unfold Client.dispose. client_fields. intros -> ->. reflexivity.
Qed.

(** X18. [dispose] of a client is idempotent, and a disposed client is
    deaf: after [dispose()], a second [dispose()] and any frame the
    transport still delivers leave the client exactly as it is. *)
Theorem client_dispose_is_final (c : ChannelClient) (response : IRawResponse Any) :
  Client.dispose (Client.dispose c) = Client.dispose c
  /\ Client.receive response (Client.dispose c) = Client.dispose c.
Proof.
  pose proof (proj1 (dispose_detaches c)) as Hn. split.
  - apply client_dispose_fixed; [exact Hn|reflexivity].
  - unfold Client.receive. rewrite Hn. reflexivity.
Qed.

(** X19. An event can be subscribed to again, with the request it was
    made with. On an initialized client, when the only listener of an
    event is removed and a listener is added again, the client sends
    [EventDispose(id)] and then, once the promise jobs run, the same
    [EventListen] request as the first time (its argument is one that
    can be serialized), and the emitter is back in [activeRequests]. *)
Theorem resubscription_sends_the_request_again (c : ChannelClient) (k : N)
    (e : Client.Emitter Any) :
  Client.state c = Idle ->
  Client.waits c = [] ->
  Client.finalizers c = [] ->
  JsMap.get k (Client.emitters c) = Some e ->
  Client.listeners e = 1 ->
  serializes (arg (Client.emitter_request e)) = true ->
  let c' := Client.run [ Client.DoRemoveListener k; Client.DoAddListener k;
                         Client.DoMicrotasks ] c in
  Client.trace c'
  = Client.trace c
      ++ [ Client.Send (IdRequest EventDispose k);
           Client.Send (ChannelRequest (Client.emitter_request e)) ]
  /\ In (Client.EventEmitter (id (Client.emitter_request e))) (Client.activeRequests c').
Proof.
  intros Hs Hw Hf He H1 Ha. cbv zeta. unfold Client.run. cbn [fold_left Client.step].
  unfold Client.removeListener. rewrite He, H1.
  unfold Client.onLastListenerRemove. client_unfold. client_fields. rewrite Hw.
  cbn [existsb]. client_fields.
  unfold Client.addListener. client_fields. rewrite get_set_eq. client_fields.
  unfold Client.onFirstListenerAdd. client_unfold. client_fields.
  unfold Client.runMicrotasks. client_unfold. client_fields. rewrite Hf.
  cbn [fold_left app]. client_fields. unfold Client.whenInitialized. client_fields.
  rewrite Hs. cbn [fold_left]. unfold Client.continue. client_unfold. client_fields.
  rewrite Ha. client_fields. rewrite <- app_assoc. split; [reflexivity|apply In_add].
Qed.

End ClientRuns.

Lemma no_request_before_initialization_witness :
  existsb is_request
    (Client.trace
       (Client.run [ Client.DoCall "svc" "ping" (VString Sample.Other "hi") false;
                     Client.DoListen "svc" "onTick" (VUndefined Sample.Other);
                     Client.DoAddListener 1; Client.DoMicrotasks; Client.DoCancel 0;
                     Client.DoDispose; Client.DoReceive IRawInitializeResponse;
                     Client.DoMicrotasks ]
          (Client.new Sample.Any)))
  = false.
Proof.
  apply (@no_request_before_initialization Sample.Any _). reflexivity.
Defined.

Lemma answered_call_leaves_nothing_behind_witness :
  let c := Client.run [Client.DoReceive IRawInitializeResponse] (Client.new Sample.Any) in
  let c' := Client.run [ Client.DoCall "svc" "ping" (VString Sample.Other "hi") false;
                         Client.DoMicrotasks;
                         Client.DoReceive (IRawPromiseSuccessResponse 0 (VString Sample.Other "pong"));
                         Client.DoMicrotasks ] c in
  Client.trace c'
  = Client.trace c
      ++ [ Client.Send (ChannelRequest
                          (mkChannelRequest Promise 0 "svc" "ping" (VString Sample.Other "hi")));
           Client.Resolve 0 (VString Sample.Other "pong") ].
Proof.
  cbv zeta.
  exact (proj1 (@answered_call_leaves_nothing_behind Sample.Any _
                  (Client.run [Client.DoReceive IRawInitializeResponse] (Client.new Sample.Any))
                  "svc" "ping" (VString Sample.Other "hi") (VString Sample.Other "pong")
                  Client.ProtocolListener eq_refl eq_refl eq_refl eq_refl eq_refl)).
Defined.

Lemma cancelled_call_is_never_sent_witness :
  Client.trace
    (Client.run [ Client.DoCall "svc" "ping" (VString Sample.Other "hi") false;
                  Client.DoCancel 0; Client.DoReceive IRawInitializeResponse;
                  Client.DoMicrotasks ]
       (Client.new Sample.Any))
  = [Client.Reject 0 Client.Canceled; Client.DidInitialize].
Proof.
  exact (proj1 (@cancelled_call_is_never_sent Sample.Any _ (Client.new Sample.Any)
                  "svc" "ping" (VString Sample.Other "hi")
                  Client.ProtocolListener eq_refl eq_refl eq_refl)).
Defined.

Lemma dispose_cancels_every_call_witness :
  let c := Client.run [Client.DoCall "svc" "ping" (VString Sample.Other "hi") false]
             (Client.new Sample.Any) in
  In (Client.Reject 0 Client.Canceled) (Client.trace (Client.dispose c)).
Proof.
  cbv zeta.
  exact (proj1 (@dispose_cancels_every_call Sample.Any _
                  (Client.run [Client.DoCall "svc" "ping" (VString Sample.Other "hi") false]
                     (Client.new Sample.Any))
                  0 (or_introl eq_refl))).
Defined.

Lemma resubscription_sends_the_request_again_witness :
  let request := mkChannelRequest EventListen 0 "svc" "onTick" (VUndefined Sample.Other) in
  Client.trace
    (Client.run [Client.DoRemoveListener 0; Client.DoAddListener 0; Client.DoMicrotasks]
       Sample.listening)
  = Client.trace Sample.listening
      ++ [Client.Send (IdRequest EventDispose 0); Client.Send (ChannelRequest request)].
Proof.
  cbv zeta.
  exact (proj1 (@resubscription_sends_the_request_again Sample.Any _ Sample.listening 0
                  (Client.mkEmitter
                     (mkChannelRequest EventListen 0 "svc" "onTick" (VUndefined Sample.Other)) 1)
                  eq_refl eq_refl eq_refl eq_refl eq_refl eq_refl)).
Defined.

(** ** IPCServer, IPCClient and StaticRouter *)

Section MapKeys.
Context {K V : Type} `{KeyEq K}.

Lemma get_None_keys (k : K) (m : JsMap.t K V) :
  ~ In k (JsMap.keys m) -> JsMap.get k m = None.
Proof.
  induction m as [|[k' v'] m IH]; simpl; intros Hn; [reflexivity|].
  destruct (key_eq_dec k k') as [Heq|Hne]; [symmetry in Heq; tauto|]. apply IH. tauto.
Qed.

Lemma keys_set (k : K) (v : V) (m : JsMap.t K V) :
  JsMap.keys (JsMap.set k v m)
  = if in_dec key_eq_dec k (JsMap.keys m) then JsMap.keys m else JsMap.keys m ++ [k].
Proof.
  induction m as [|[k' v'] m IH]; simpl; [reflexivity|].
  destruct (key_eq_dec k k') as [Heq|Hne]; simpl.
  - destruct (key_eq_dec k' k); [reflexivity|congruence].
  - destruct (key_eq_dec k' k) as [Heq|Hne']; [congruence|].
    rewrite IH. destruct (in_dec key_eq_dec k (JsMap.keys m)); reflexivity.
Qed.

Lemma NoDup_keys_set (k : K) (v : V) (m : JsMap.t K V) :
  NoDup (JsMap.keys m) -> NoDup (JsMap.keys (JsMap.set k v m)).
Proof.
  intros Hm. rewrite keys_set. destruct (in_dec key_eq_dec k (JsMap.keys m)) as [|Hn];
    [exact Hm|].
  apply NoDup_app; [exact Hm|repeat constructor; intros []|].
  intros x Hx [<-|[]]. exact (Hn Hx).
Qed.

End MapKeys.

Section HubRuns.

Variable Other : Type.
Variable JSON_stringify : Other -> string.
Variable JSON_parse : string -> option Other.
Variable fromString : string -> VSBuffer.t.
Variable toString : VSBuffer.t -> string.
Variables Any Channel Number : Type.
Context {numbers : JsNumber Number} {payloads : Serializes Any}
  {services : IServerChannel Channel (Value Other) Any}.

Abbreviation IPCServer := (Hub.IPCServer Other Any Channel Number).
Abbreviation Connection := (Hub.Connection Other Any Channel Number).
Abbreviation Value := (Value Other).
Abbreviation Representable := (Representable JSON_stringify JSON_parse fromString toString).

(** The hub after the first message of a peer decoded to [ctx]. *)
Definition accepted (ctx : Value) (h : IPCServer) : Connection :=
  Hub.mkConnection
    (fold_left
       (fun server entry => Server.registerChannel (fst entry) (snd entry) server)
       (Hub.channels h) (Server.new ctx number_1000))
    (Client.new Any) ctx.

Lemma onFirstMessage_accepts (msg : VSBuffer.t) (h : IPCServer) (ctx : Value)
    (r : BufferReader.t) :
  deserialize JSON_parse toString (BufferReader.new msg) = Return (ctx, r) ->
  Hub.onFirstMessage JSON_parse toString msg h
  = Hub.mkIPCServer (Hub.channels h)
      (JsSet.add (Hub.nextConnection h) (Hub._connections h))
      (JsMap.set (Hub.nextConnection h) (accepted ctx h) (Hub.heap h))
      (Hub.nextConnection h + 1) (Hub.changes h ++ [Hub.nextConnection h])
      (Hub.disposed h).
Proof. intros Hd. unfold Hub.onFirstMessage. rewrite Hd. reflexivity. Qed.

(** X20. The handshake carries the context across. The first message an
    [IPCClient] sends is its serialized context; when that message
    reaches an [IPCServer], the hub makes a connection whose context, and
    whose [ChannelServer]'s context, is the one the client was made
    with, adds it to its connections and fires [onDidChangeConnections]
    for it. *)
Theorem handshake_carries_the_context (h : IPCServer) (ctx : Value) :
  Representable ctx ->
  let client := IPCClient.new JSON_stringify fromString (Any := Any) Channel
                  (Number := Number) ctx in
  let h' := Hub.onFirstMessage JSON_parse toString (IPCClient.firstMessage client) h in
  exists connection,
    JsMap.get (Hub.nextConnection h) (Hub.heap h') = Some connection
    /\ Hub.ctx connection = ctx
    /\ Server.ctx (Hub.channelServer connection) = Server.ctx (IPCClient.channelServer client)
    /\ Hub.channelClient connection = Client.new Any
    /\ In (Hub.nextConnection h) (Hub._connections h')
    /\ Hub.changes h' = Hub.changes h ++ [Hub.nextConnection h].
Proof.
  intros Hrep. cbv zeta.
  assert (Hd : deserialize JSON_parse toString
                 (BufferReader.new
                    (IPCClient.firstMessage
                       (IPCClient.new JSON_stringify fromString (Any := Any) Channel
                  (Number := Number) ctx)))
               = Return (ctx, BufferReader.mk (encode JSON_stringify fromString ctx)
                                (0 + List.length (encode JSON_stringify fromString ctx)))).
  { apply (deserialize_encode JSON_stringify JSON_parse fromString toString ctx
             (BufferReader.new (encode JSON_stringify fromString ctx)) [] [] Hrep);
      [|reflexivity].
    simpl. rewrite app_nil_r. reflexivity. }
  rewrite (onFirstMessage_accepts _ h Hd). cbn [Hub.heap Hub._connections Hub.changes].
  exists (accepted ctx h). split; [apply get_set_eq|]. repeat split.
  - unfold accepted. cbn [Hub.channelServer IPCClient.new IPCClient.channelServer].
    generalize (Server.new (Any := Any) (Channel := Channel) ctx number_1000).
    induction (Hub.channels h) as [|[n ch] l IH]; intros s; simpl; [reflexivity|].
    rewrite IH. reflexivity.
  - apply In_add.
Qed.

(** *** The hubs that can be reached *)

(** The registry holds each name once, and every connection in the set
    was numbered below the next one. *)
Definition wellFormed (h : IPCServer) : Prop :=
  NoDup (JsMap.keys (Hub.channels h))
  /\ forall ref, In ref (Hub._connections h) -> (ref < Hub.nextConnection h)%N.

Lemma step_wellFormed (h : IPCServer) (i : Hub.Input Channel) :
  wellFormed h -> wellFormed (Hub.step JSON_parse toString h i).
Proof.
  intros [Hk Hr]. destruct i as [msg|ref|n ch|]; cbn [Hub.step].
  - unfold Hub.onFirstMessage.
    destruct (deserialize JSON_parse toString (BufferReader.new msg)) as [[ctx r]| |];
      try (split; assumption).
    split; [exact Hk|]. cbn [Hub._connections Hub.nextConnection]. intros ref Hin.
    unfold JsSet.add in Hin.
    destruct (in_dec key_eq_dec (Hub.nextConnection h) (Hub._connections h)).
    + specialize (Hr ref Hin). lia.
    + apply in_app_or in Hin. destruct Hin as [Hin|[<-|[]]]; [specialize (Hr ref Hin)|]; lia.
  - unfold Hub.onDidClientDisconnect.
    destruct (JsMap.get ref (Hub.heap h)); [|split; assumption].
    split; [exact Hk|]. cbn [Hub._connections Hub.nextConnection]. intros r Hin.
    apply filter_In in Hin. apply Hr, Hin.
  - split; [apply NoDup_keys_set, Hk|exact Hr].
  - split; [constructor|intros ref []].
Qed.

Lemma run_wellFormed (inputs : list (Hub.Input Channel)) (h : IPCServer) :
  wellFormed h -> wellFormed (Hub.run JSON_parse toString inputs h).
Proof.
  revert h. induction inputs as [|i l IH]; intros h H; [exact H|].
  apply IH, step_wellFormed, H.
Qed.

Lemma new_wellFormed : wellFormed (Hub.new Other Any Channel Number).
Proof. split; [constructor|intros ref []]. Qed.

(** Registering the entries of a registry, one after the other. *)
Lemma registerAll_get (name : string) (l : JsMap.t string Channel) :
  NoDup (JsMap.keys l) ->
  forall s : Server.ChannelServer Any Channel Value Number,
    Server.getServerChannel name
      (fold_left (fun server entry => Server.registerChannel (fst entry) (snd entry) server)
         l s)
    = match JsMap.get name l with
      | Some channel => Some channel
      | None => Server.getServerChannel name s
      end.
Proof.
  induction l as [|[k v] l IH]; intros Hnd s; [reflexivity|].
  inversion Hnd as [|? ? Hk Hl]; subst. cbn [fold_left fst snd]. rewrite (IH Hl).
  cbn [JsMap.get]. destruct (key_eq_dec name k) as [->|Hne].
  - rewrite (get_None_keys _ _ Hk). unfold Server.getServerChannel, Server.registerChannel.
    server_unfold. server_fields. apply get_set_eq.
  - destruct (JsMap.get name l); [reflexivity|].
    unfold Server.getServerChannel, Server.registerChannel.
    server_unfold. server_fields. apply get_set_ne. exact Hne.
Qed.

(** X21. A peer that connects is served every channel the hub has. In
    every state a hub can reach, the [ChannelServer] of the connection
    made for a first message resolves each channel name to exactly what
    the hub's own registry holds for it, and to nothing else. *)
Theorem new_connection_serves_the_hub_channels (inputs : list (Hub.Input Channel))
    (msg : VSBuffer.t) (ctx : Value) (r : BufferReader.t) (name : string) :
  let h := Hub.run JSON_parse toString inputs (Hub.new Other Any Channel Number) in
  deserialize JSON_parse toString (BufferReader.new msg) = Return (ctx, r) ->
  exists connection,
    JsMap.get (Hub.nextConnection h)
      (Hub.heap (Hub.onFirstMessage JSON_parse toString msg h)) = Some connection
    /\ Server.getServerChannel name (Hub.channelServer connection)
       = Hub.getServerChannel name h.
Proof.
  intros h Hd. rewrite (onFirstMessage_accepts _ h Hd). cbn [Hub.heap].
  exists (accepted ctx h). split; [apply get_set_eq|].
  unfold accepted. cbn [Hub.channelServer].
  rewrite registerAll_get by (apply (run_wellFormed inputs new_wellFormed)).
  unfold Hub.getServerChannel. destruct (JsMap.get name (Hub.channels h)); reflexivity.
Qed.

Lemma forward_serves (channelName : string) (channel : Channel) (refs : list N) :
  forall (heap_ : JsMap.t N Connection) (ref : N),
    (In ref refs /\ JsMap.get ref heap_ <> None
     \/ exists connection,
          JsMap.get ref heap_ = Some connection
          /\ Server.getServerChannel channelName (Hub.channelServer connection)
             = Some channel) ->
    exists connection',
      JsMap.get ref (fold_left (forward channelName channel) refs heap_) = Some connection'
      /\ Server.getServerChannel channelName (Hub.channelServer connection') = Some channel.
Proof.
  assert (Hreg : forall s : Server.ChannelServer Any Channel Value Number,
             Server.getServerChannel channelName
               (Server.registerChannel channelName channel s) = Some channel).
  { intros s. unfold Server.getServerChannel, Server.registerChannel.
    server_unfold. server_fields. apply get_set_eq. }
  induction refs as [|r refs IH]; intros heap_ ref Href; simpl.
  - destruct Href as [[[] _]|Hdone]. exact Hdone.
  - apply IH.
    replace (forward channelName channel heap_ r)
      with (match JsMap.get r heap_ with
            | Some connection =>
                JsMap.set r
                  (Hub.mkConnection
                     (Server.registerChannel channelName channel
                        (Hub.channelServer connection))
                     (Hub.channelClient connection) (Hub.ctx connection)) heap_
            | None => heap_
            end) by reflexivity.
    destruct (N.eq_dec ref r) as [->|Hne].
    + right. destruct (JsMap.get r heap_) as [cr|] eqn:Er.
      * eexists. split; [apply get_set_eq|]. cbn [Hub.channelServer]. apply Hreg.
      * destruct Href as [[_ Hn]|(c0 & Hc0 & _)]; congruence.
    + destruct (JsMap.get r heap_) as [cr|] eqn:Er.
      * rewrite get_set_ne by exact Hne.
        destruct Href as [[[Heq|Hin] Hn]|Hdone]; [congruence|left; auto|right; exact Hdone].
      * destruct Href as [[[Heq|Hin] Hn]|Hdone]; [congruence|left; auto|right; exact Hdone].
Qed.

(** X22. A channel registered on the hub reaches every peer that is
    connected: after [registerChannel(name, channel)] the hub's registry
    holds the channel under the name, and so does the [ChannelServer] of
    every connection of the set. *)
Theorem registerChannel_reaches_every_connection (h : IPCServer) (channelName : string)
    (channel : Channel) :
  let h' := Hub.registerChannel channelName channel h in
  Hub.getServerChannel channelName h' = Some channel
  /\ forall ref connection,
       In ref (Hub._connections h) ->
       JsMap.get ref (Hub.heap h) = Some connection ->
       exists connection',
         JsMap.get ref (Hub.heap h') = Some connection'
         /\ Server.getServerChannel channelName (Hub.channelServer connection')
            = Some channel.
Proof.
  cbv zeta. split.
  - unfold Hub.getServerChannel, Hub.registerChannel. cbn [Hub.channels]. apply get_set_eq.
  - intros ref connection Hin Hget. unfold Hub.registerChannel. cbn [Hub.heap].
    apply (@forward_serves channelName channel (Hub._connections h) (Hub.heap h) ref).
    left. split; [exact Hin|congruence].
Qed.

(** *** Routing *)

Variable fn : Value -> bool.



Lemma connections_accepts (msg : VSBuffer.t) (h : IPCServer) (ctx : Value)
    (r : BufferReader.t) :
  wellFormed h ->
  deserialize JSON_parse toString (BufferReader.new msg) = Return (ctx, r) ->
  Hub.connections (Hub.onFirstMessage JSON_parse toString msg h)
  = Hub.connections h ++ [accepted ctx h].
Proof.
  intros [_ Hr] Hd. rewrite (onFirstMessage_accepts _ h Hd).
  unfold Hub.connections. cbn [Hub._connections Hub.heap]. unfold JsSet.add.
  destruct (in_dec key_eq_dec (Hub.nextConnection h) (Hub._connections h)) as [Hin|_];
    [specialize (Hr _ Hin); lia|].
  rewrite flat_map_app. cbn [flat_map]. rewrite get_set_eq, app_nil_r. f_equal.
  induction (Hub._connections h) as [|ref refs IH]; [reflexivity|]. cbn [flat_map].
  rewrite IH by (intros x Hx; apply Hr; right; exact Hx).
  rewrite get_set_ne; [reflexivity|].
  specialize (Hr ref (or_introl eq_refl)). lia.
Qed.

Lemma find_last {A : Type} (p : A -> bool) (l : list A) (x : A) :
  find p l = None -> p x = true -> find p (l ++ [x]) = Some x.
Proof.
  induction l as [|a l IH]; simpl; intros Hl Hx; [rewrite Hx; reflexivity|].
  destruct (p a); [discriminate|]. apply IH; assumption.
Qed.

(** X24. A route that found no peer is served by the newcomer. In every
    state a hub can reach, when [fn] accepts none of the connections and
    a peer connects whose context [fn] accepts, the next pass of [route]
    (the one [onDidChangeConnections] wakes) returns the connection made
    for that peer. *)
Theorem route_finds_the_newcomer (inputs : list (Hub.Input Channel)) (msg : VSBuffer.t)
    (ctx : Value) (r : BufferReader.t) :
  let h := Hub.run JSON_parse toString inputs (Hub.new Other Any Channel Number) in
  StaticRouter.route fn h = None ->
  deserialize JSON_parse toString (BufferReader.new msg) = Return (ctx, r) ->
  fn ctx = true ->
  let h' := Hub.onFirstMessage JSON_parse toString msg h in
  exists connection,
    StaticRouter.route fn h' = Some connection
    /\ Hub.ctx connection = ctx
    /\ JsMap.get (Hub.nextConnection h) (Hub.heap h') = Some connection
    /\ Hub.changes h' = Hub.changes h ++ [Hub.nextConnection h].
Proof.
  intros h Hnone Hd Hfn h'. exists (accepted ctx h). subst h'.
  unfold StaticRouter.route in *.
  assert (Hwf : wellFormed h) by exact (run_wellFormed inputs new_wellFormed).
  rewrite (connections_accepts msg Hwf Hd).
  rewrite (onFirstMessage_accepts _ h Hd). cbn [Hub.heap Hub.changes].
  split; [apply find_last; assumption|]. split; [reflexivity|].
  split; [apply get_set_eq|reflexivity].
Qed.

End HubRuns.

Lemma handshake_carries_the_context_witness :
  let h := Hub.new Sample.Other Sample.Any Sample.Channel Sample.Delay in
  let client := IPCClient.new Sample.JSON_stringify Sample.fromString
                  (Any := Sample.Any) Sample.Channel (Number := Sample.Delay)
                  Sample.ctx in
  exists connection,
    JsMap.get 0%N
      (Hub.heap (Hub.onFirstMessage Sample.JSON_parse Sample.toString
                   (IPCClient.firstMessage client) h)) = Some connection
    /\ Hub.ctx connection = Sample.ctx.
Proof.
  cbv zeta.
  destruct (@handshake_carries_the_context Sample.Other Sample.JSON_stringify
              Sample.JSON_parse Sample.fromString Sample.toString
              Sample.Any Sample.Channel Sample.Delay _ _
              (Hub.new Sample.Other Sample.Any Sample.Channel Sample.Delay) Sample.ctx)
    as (connection & Hget & Hctx & _).
  - vm_compute. split; reflexivity.
  - exists connection. split; [exact Hget|exact Hctx].
Defined.

Lemma new_connection_serves_the_hub_channels_witness :
  let h := Hub.run Sample.JSON_parse Sample.toString
             [Hub.DoRegisterChannel "svc" "service"%string]
             (Hub.new Sample.Other Sample.Any Sample.Channel Sample.Delay) in
  let msg := encode Sample.JSON_stringify Sample.fromString Sample.ctx in
  exists connection,
    JsMap.get (Hub.nextConnection h)
      (Hub.heap (Hub.onFirstMessage Sample.JSON_parse Sample.toString msg h))
    = Some connection
    /\ Server.getServerChannel "svc" (Hub.channelServer connection)
       = Hub.getServerChannel "svc" h.
Proof.
  cbv zeta.
  eapply (@new_connection_serves_the_hub_channels Sample.Other Sample.JSON_parse
            Sample.toString Sample.Any Sample.Channel Sample.Delay _ _
            [Hub.DoRegisterChannel "svc" "service"%string]
            (encode Sample.JSON_stringify Sample.fromString Sample.ctx) Sample.ctx).
  vm_compute. reflexivity.
Defined.

(** The router looks for the peer "window"; the hub has the peer "main",
    and "window" connects. *)
Lemma route_finds_the_newcomer_witness :
  let fn (ctx : Value Sample.Other) :=
    match ctx with VString _ s => String.eqb s "window" | _ => false end in
  let h := Hub.run Sample.JSON_parse Sample.toString
             [Hub.DoFirstMessage Sample.Channel
                (encode Sample.JSON_stringify Sample.fromString (VString Sample.Other "main"))]
             (Hub.new Sample.Other Sample.Any Sample.Channel Sample.Delay) in
  let msg := encode Sample.JSON_stringify Sample.fromString Sample.ctx in
  exists connection,
    StaticRouter.route fn (Hub.onFirstMessage Sample.JSON_parse Sample.toString msg h)
    = Some connection
    /\ Hub.ctx connection = Sample.ctx.
Proof.
  cbv zeta.
  destruct (@route_finds_the_newcomer Sample.Other Sample.JSON_parse Sample.toString
              Sample.Any Sample.Channel Sample.Delay _ _
              (fun ctx => match ctx with
                          | VString _ s => String.eqb s "window"
                          | _ => false
                          end)
              [Hub.DoFirstMessage Sample.Channel
                 (encode Sample.JSON_stringify Sample.fromString (VString Sample.Other "main"))]
              (encode Sample.JSON_stringify Sample.fromString Sample.ctx)
              Sample.ctx
              (BufferReader.mk (encode Sample.JSON_stringify Sample.fromString Sample.ctx) 11)
              eq_refl eq_refl eq_refl)
    as (connection & Hroute & Hctx & _).
  exists connection. split; [exact Hroute|exact Hctx].
Defined.

(** ** ServiceCollection *)

Section ServiceCollectionFacts.

Context {ServiceIdentifier Service : Type} `{KeyEq ServiceIdentifier}.

Abbreviation Collection := (ServiceCollection.t ServiceIdentifier Service).

(** X25. [set] returns what was bound to the identifier before
    ([undefined] when nothing was) and binds the new value: [get] of that
    identifier gives the new value and [has] holds, every other
    identifier is bound as before, and a second [set] returns the value
    of the first. *)
Theorem set_returns_the_previous_binding (id id' : ServiceIdentifier) (v v' : Service)
    (c : Collection) :
  let c1 := snd (ServiceCollection.set id v c) in
  fst (ServiceCollection.set id v c) = ServiceCollection.get id c
  /\ ServiceCollection.get id' c1
     = (if key_eq_dec id' id then Some v else ServiceCollection.get id' c)
  /\ ServiceCollection.has id c1 = true
  /\ fst (ServiceCollection.set id v' c1) = Some v.
Proof.
  cbv zeta. unfold ServiceCollection.set, ServiceCollection.get, ServiceCollection.has,
    JsMap.has. cbn [fst snd ServiceCollection._entries].
  rewrite get_set_eq. repeat split.
  destruct (key_eq_dec id' id) as [->|Hne]; [apply get_set_eq|apply get_set_ne, Hne].
Qed.

(** Is the entry a binding of [id]? *)
Definition binds (id : ServiceIdentifier) (entry : ServiceIdentifier * Service) : bool :=
  if key_eq_dec id (fst entry) then true else false.

Lemma find_app {A : Type} (p : A -> bool) (l l' : list A) :
  find p (l ++ l') = match find p l with Some x => Some x | None => find p l' end.
Proof.
  induction l as [|a l IH]; simpl; [reflexivity|]. destruct (p a); [reflexivity|exact IH].
Qed.

Lemma setAll_get (id : ServiceIdentifier) (entries : list (ServiceIdentifier * Service)) :
  forall m : JsMap.t ServiceIdentifier Service,
    JsMap.get id (fold_left (fun m entry => JsMap.set (fst entry) (snd entry) m) entries m)
    = match find (binds id) (rev entries) with
      | Some entry => Some (snd entry)
      | None => JsMap.get id m
      end.
Proof.
  induction entries as [|e l IH]; intros m; simpl; [reflexivity|].
  rewrite IH, find_app. destruct (find (binds id) (rev l)); [reflexivity|].
  simpl. unfold binds. destruct (key_eq_dec id (fst e)) as [->|Hne].
  - apply get_set_eq.
  - apply get_set_ne, Hne.
Qed.

(** X26. Of the entries given to the constructor, the last one for an
    identifier wins: [get(id)] on the new collection is the value of the
    last entry whose identifier is [id], and [undefined] when there is
    none. *)
Theorem constructor_keeps_the_last_binding (entries : list (ServiceIdentifier * Service))
    (id : ServiceIdentifier) :
  ServiceCollection.get id (ServiceCollection.new entries)
  = option_map snd (find (binds id) (rev entries)).
Proof.
  unfold ServiceCollection.get, ServiceCollection.new. cbn [ServiceCollection._entries].
  rewrite setAll_get. destruct (find (binds id) (rev entries)); reflexivity.
Qed.

Lemma setAll_keys (entries : list (ServiceIdentifier * Service)) :
  forall m : JsMap.t ServiceIdentifier Service,
    NoDup (JsMap.keys m) ->
    let m' := fold_left (fun m entry => JsMap.set (fst entry) (snd entry) m) entries m in
    NoDup (JsMap.keys m')
    /\ forall id, In id (JsMap.keys m') <-> In id (JsMap.keys m) \/ In id (map fst entries).
Proof.
  induction entries as [|e l IH]; intros m Hm; simpl.
  - split; [exact Hm|]. intros id. tauto.
  - destruct (IH (JsMap.set (fst e) (snd e) m) (NoDup_keys_set (fst e) (snd e) m Hm)) as [Hnd Hin].
    split; [exact Hnd|]. intros id. rewrite Hin, keys_set.
    destruct (in_dec key_eq_dec (fst e) (JsMap.keys m)) as [He|He].
    + split; [tauto|]. intros [Hk|[<-|Hl]]; auto.
    + rewrite in_app_iff. simpl. tauto.
Qed.

Lemma forEach_keys (m : JsMap.t ServiceIdentifier Service) (acc : list ServiceIdentifier) :
  fold_left (fun a entry => (fun id (_ : Service) a => a ++ [id]) (fst entry) (snd entry) a)
    m acc
  = acc ++ JsMap.keys m.
Proof.
  revert acc. induction m as [|e m IH]; intros acc; simpl.
  - rewrite app_nil_r. reflexivity.
  - rewrite IH, <- app_assoc. reflexivity.
Qed.

(** X27. [forEach] visits every identifier of the collection once, also
    when the constructor was given several entries for it: the
    identifiers its callback is called with are those of the entries,
    without repetition. *)
Theorem forEach_visits_each_identifier_once (entries : list (ServiceIdentifier * Service)) :
  let visited :=
    ServiceCollection.forEach (fun id _ a => a ++ [id]) (ServiceCollection.new entries) [] in
  NoDup visited /\ forall id, In id visited <-> In id (map fst entries).
Proof.
  cbv zeta. unfold ServiceCollection.forEach, ServiceCollection.new.
  cbn [ServiceCollection._entries]. rewrite forEach_keys. cbn [app].
  destruct (setAll_keys entries JsMap.empty (NoDup_nil _)) as [Hnd Hin].
  split; [exact Hnd|]. intros id. rewrite Hin. simpl. tauto.
Qed.

End ServiceCollectionFacts.

(** ** When [onDidChangeConnections] fires *)

Section HubChanges.

Variable Other : Type.
Variable JSON_parse : string -> option Other.
Variable toString : VSBuffer.t -> string.
Variables Any Channel Number : Type.
Context {numbers : JsNumber Number} {payloads : Serializes Any}
  {services : IServerChannel Channel (Value Other) Any}.

(** Is the input the first message of a peer? *)
Definition connects (i : Hub.Input Channel) : bool :=
  match i with
  | Hub.DoFirstMessage _ _ => true
  | _ => false
  end.

(** X28. [onDidChangeConnections] fires for a peer that connects and for
    nothing else: over any run of the hub in which no first message
    arrives (peers disconnecting, channels being registered, [dispose])
    the event does not fire, though the set of connections shrinks. *)
Theorem only_a_new_peer_fires_onDidChangeConnections
    (inputs : list (Hub.Input Channel)) (h : Hub.IPCServer Other Any Channel Number) :
  existsb connects inputs = false ->
  Hub.changes (Hub.run JSON_parse toString inputs h) = Hub.changes h
  /\ forall ref, In ref (Hub._connections (Hub.run JSON_parse toString inputs h)) ->
                 In ref (Hub._connections h).
Proof.
  revert h. induction inputs as [|i l IH]; intros h Hc; [split; auto|].
  simpl in Hc. apply orb_false_elim in Hc. destruct Hc as [Hi Hl].
  change (Hub.run JSON_parse toString (i :: l) h)
    with (Hub.run JSON_parse toString l (Hub.step JSON_parse toString h i)).
  destruct (IH (Hub.step JSON_parse toString h i) Hl) as [Hch Hin].
  rewrite Hch. destruct i as [msg|ref|n ch|]; try discriminate Hi; cbn [Hub.step] in *.
  - unfold Hub.onDidClientDisconnect in *.
    destruct (JsMap.get ref (Hub.heap h)); [|split; auto].
    split; [reflexivity|]. intros r Hr. specialize (Hin r Hr).
    cbn [Hub._connections] in Hin. apply filter_In in Hin. apply Hin.
  - split; [reflexivity|exact Hin].
  - split; [reflexivity|]. intros r Hr. destruct (Hin r Hr).
Qed.

End HubChanges.

Lemma only_a_new_peer_fires_onDidChangeConnections_witness :
  let h := Hub.onFirstMessage Sample.JSON_parse Sample.toString
             (encode Sample.JSON_stringify Sample.fromString Sample.ctx)
             (Hub.new Sample.Other Sample.Any Sample.Channel Sample.Delay) in
  Hub.changes
    (Hub.run Sample.JSON_parse Sample.toString
       [Hub.DoRegisterChannel "svc" "service"%string; Hub.DoDisconnect Sample.Channel 0] h)
  = Hub.changes h.
Proof.
  cbv zeta.
  exact (proj1 (@only_a_new_peer_fires_onDidChangeConnections Sample.Other
                  Sample.JSON_parse Sample.toString Sample.Any Sample.Channel
                  Sample.Delay _ _
                  [Hub.DoRegisterChannel "svc" "service"%string;
                   Hub.DoDisconnect Sample.Channel 0]
                  (Hub.onFirstMessage Sample.JSON_parse Sample.toString
                     (encode Sample.JSON_stringify Sample.fromString Sample.ctx)
                     (Hub.new Sample.Other Sample.Any Sample.Channel Sample.Delay))
                  eq_refl)).
Defined.

(** ** A client and a server, frame by frame *)

Section EndToEnd.

Context {Any Channel TContext Number : Type}.
Context {numbers : JsNumber Number} {payloads : Serializes Any}
  {services : IServerChannel Channel TContext Any}.



(** X30. An event reaches its listener, frame by frame, as often as it
    fires. A subscription made on an initialized client, with an
    argument that can be serialized, is sent as one [EventListen]
    request with the next id. A server that has the channel and is
    handed that request subscribes to the channel's event with the name
    and the argument given, when [channel.listen] returns. Each firing
    of that event with data that can be serialized is sent as an
    [EventFire] with the id, and each [EventFire] the client is handed
    fires the emitter with the data, the handler staying in place for
    the next one. The frames are taken as the transport hands them over,
    decoded. *)
Theorem event_round_trip (c : Client.ChannelClient Any)
    (s : Server.ChannelServer Any Channel TContext Number) (cn nm : string) (a d d' : Any)
    (channel : Channel) (lc : Client.IDisposable) (ls : Server.IDisposable) :
  Client.state c = Idle ->
  Client.protocolListener c = Some lc ->
  Client.waits c = [] ->
  Client.finalizers c = [] ->
  Server.protocolListener s = Some ls ->
  Server.getServerChannel cn s = Some channel ->
  serializes a = true ->
  listens channel (Server.ctx s) nm a = true ->
  serializes d = true ->
  serializes d' = true ->
  let k := Client.lastRequestId c in
  let request := mkChannelRequest EventListen k cn nm a in
  let c1 := Client.run [ Client.DoListen cn nm a; Client.DoAddListener k;
                         Client.DoMicrotasks ] c in
  let s1 := Server.run [ Server.DoReceive (ChannelRequest request);
                         Server.DoEvent k d; Server.DoEvent k d' ] s in
  Client.trace c1 = Client.trace c ++ [Client.Send (ChannelRequest request)]
  /\ Server.trace s1
     = Server.trace s
         ++ [ Server.Listen channel (Server.ctx s) nm a k;
              Server.Send (IRawEventFireResponse k d);
              Server.Send (IRawEventFireResponse k d') ]
  /\ Client.trace
       (Client.run [ Client.DoReceive (IRawEventFireResponse k d);
                     Client.DoReceive (IRawEventFireResponse k d') ] c1)
     = Client.trace c1 ++ [Client.Fire k (Client.Data d); Client.Fire k (Client.Data d')].
Proof.
  intros Hs Hl Hw Hf Hsl Hch Ha Hli Hd Hd'.
  destruct c as [st ar hd k pl ws fs em tr].
  destruct s as [chs sar spl pr ctx dl tm nt str].
  unfold Server.getServerChannel in Hch.
  cbn [Client.state Client.protocolListener Client.waits Client.finalizers
       Client.lastRequestId Client.trace
       Server.protocolListener Server.channels Server.ctx Server.trace] in *.
  subst. cbv zeta.
  set (request := mkChannelRequest EventListen k cn nm a).
  assert (Hc0 : Client.requestEvent cn nm a
                  (Client.mkChannelClient Idle ar hd k (Some lc) [] [] em tr)
                = Client.mkChannelClient Idle ar
                    (JsMap.set k (Client.EventHandler k) hd) (k + 1) (Some lc) [] []
                    (JsMap.set k (Client.mkEmitter request 0) em) tr)
    by reflexivity.
  assert (Hc1 : Client.run [Client.DoListen cn nm a; Client.DoAddListener k;
                            Client.DoMicrotasks]
                  (Client.mkChannelClient Idle ar hd k (Some lc) [] [] em tr)
                = Client.mkChannelClient Idle
                    (JsSet.add (Client.EventEmitter k) ar)
                    (JsMap.set k (Client.EventHandler k) hd) (k + 1) (Some lc) [] []
                    (JsMap.set k (Client.mkEmitter request 1)
                       (JsMap.set k (Client.mkEmitter request 0) em))
                    (tr ++ [Client.Send (ChannelRequest request)])).
  { unfold Client.run. cbn [fold_left Client.step]. rewrite Hc0.
    unfold Client.addListener. cbn [Client.emitters]. rewrite get_set_eq.
    cbn -[JsMap.get JsMap.set JsMap.delete JsSet.add JsSet.delete N.add serializes].
    rewrite sendRequest_sends by exact Ha. reflexivity. }
  rewrite Hc1. clear Hc0 Hc1. cbn [Client.trace]. split; [reflexivity|].
  unfold Server.run, Client.run. cbn [fold_left Server.step Client.step].
  assert (Hs1 : Server.receive (ChannelRequest request)
                  (Server.mkChannelServer chs sar (Some ls) pr ctx dl tm nt str)
                = Server.mkChannelServer chs (JsMap.set k (Server.EventListener k) sar)
                    (Some ls) pr ctx dl tm nt
                    (str ++ [Server.Listen channel ctx nm a k])).
  { unfold Server.receive, Server.onRawMessage, Server.onEventListen.
    cbn [Server.protocolListener Server.channels Server.ctx type channelName name arg
         request].
    rewrite Hch, Hli. reflexivity. }
  rewrite Hs1. clear Hs1. cbn [Server.activeRequests]. rewrite get_set_eq.
  unfold Server.onEvent, Server.sendResponse. cbn [Server.serializable]. rewrite Hd.
  server_unfold. server_fields. rewrite get_set_eq, Hd'.
  server_fields. rewrite <- !app_assoc. split; [reflexivity|].
  assert (Hr : forall (data : Any) ar' (em' : JsMap.t N (Client.Emitter Any)) tr',
             Client.receive (IRawEventFireResponse k data)
               (Client.mkChannelClient Idle ar' (JsMap.set k (Client.EventHandler k) hd)
                  (k + 1) (Some lc) [] [] em' tr')
             = Client.mkChannelClient Idle ar' (JsMap.set k (Client.EventHandler k) hd)
                 (k + 1) (Some lc) [] [] em' (tr' ++ [Client.Fire k (Client.Data data)])).
  { intros. unfold Client.receive, Client.onBuffer, Client.onResponse.
    cbn [Client.protocolListener response_id Client.handlers]. rewrite get_set_eq.
    reflexivity. }
  rewrite !Hr. cbn [Client.trace]. rewrite <- !app_assoc. reflexivity.
Qed.

End EndToEnd.


Lemma event_round_trip_witness :
  let c := Client.run [Client.DoReceive IRawInitializeResponse] (Client.new Sample.Any) in
  let s := Server.registerChannel "svc" "service"%string Sample.server in
  let c1 := Client.run [ Client.DoListen "svc" "onTick" (VUndefined Sample.Other);
                         Client.DoAddListener 0; Client.DoMicrotasks ] c in
  Client.trace
    (Client.run [ Client.DoReceive (IRawEventFireResponse 0 (VString Sample.Other "a"));
                  Client.DoReceive (IRawEventFireResponse 0 (VString Sample.Other "b")) ] c1)
  = Client.trace c1
      ++ [ Client.Fire 0 (Client.Data (VString Sample.Other "a"));
           Client.Fire 0 (Client.Data (VString Sample.Other "b")) ].
Proof.
  cbv zeta.
  exact (proj2 (proj2 (event_round_trip
                  (Client.run [Client.DoReceive IRawInitializeResponse]
                     (Client.new Sample.Any))
                  (Server.registerChannel "svc" "service"%string Sample.server)
                  "svc" "onTick" (VUndefined Sample.Other)
                  (VString Sample.Other "a") (VString Sample.Other "b")
                  (channel := "service"%string)
                  (lc := Client.ProtocolListener) (ls := Server.ProtocolListener)
                  eq_refl eq_refl eq_refl eq_refl eq_refl eq_refl
                  eq_refl eq_refl eq_refl eq_refl))).
Defined.
